(** * mac-cleaner: the cleaner workflow, the Kubernetes provider, the size
      scanners, the age test and the application report, embedded from the
      Python sources and checked against the specification.

    Definitions
    - [Py]       : results of calls that may raise, and the state-and-exception
                   monad the embeddings are written in.
    - [Core]     : [Cleaner.clean] of maccleaner/core/cleaner.py, with the
                   [MockCleaner] of tests/test_core.py.
    - [K8s]      : [KubernetesCleaner] of maccleaner/cleaners/k8s.py.
    - [Os]       : the system calls behind [os.stat], [os.listdir], [os.walk]
                   and [datetime.now], and [os.path] on top of them.
    - [Utils]    : [is_unused] and [get_size] of maccleaner/core/utils.py.
    - [Disk]     : directory trees with permissions, as one instance of [Os],
                   still or changing under the program's feet.
    - [Str]      : the string methods the analyzer uses.
    - [Analyzer] : [_get_directory_size], the finders and
                   [_analyze_single_app] of maccleaner/analyzers/app_analyzer.py.
    - [K8sDiscovery] : [find_cleanable_items] of maccleaner/cleaners/k8s.py.
    - [Maven]    : [MavenCleaner] of maccleaner/cleaners/maven.py.
    - [Brew]     : [HomebrewCleaner.clean] of maccleaner/cleaners/brew.py.
    - [Cli]      : [run_cleaner] and the clean command of maccleaner/cli.py.
    - [Git]      : [GitCleaner.clean_item] of maccleaner/cleaners/git.py.
    - [GitRepos] : [_find_git_repos] of maccleaner/cleaners/git.py.
    - [Analyze]  : [analyze] for one application and [_find_app_by_name] of
                   maccleaner/analyzers/app_analyzer.py.
    Properties follow, in the same order. Every Python function keeps its
    name. *)

From stdpp Require Import gmap strings list fin_maps pretty.
Local Open Scope Z_scope.
Local Set Warnings "-register-all".

(* ===================================================================== *)
(** ** Calls that may raise *)
(* ===================================================================== *)

Module Py.

(** The exception classes the sources tell apart: [OSError] with the two
    subclasses they name, and everything else under [Exception]. *)
Inductive os_error : Type :=
| FileNotFoundError
| PermissionError
| OtherOSError.

Inductive exn : Type :=
| OSError (which : os_error)
| Exception (message : string).

Inductive result (A : Type) : Type :=
| Ret (a : A)
| Raise (e : exn).
Arguments Ret {A} a.
Arguments Raise {A} e.

Definition is_Ret {A} (r : result A) : bool :=
  match r with Ret _ => true | Raise _ => false end.

(** A computation over a mutable state [S]: the state survives a raise, as the
    fields of a Python object do. *)
Definition M (S A : Type) : Type := S -> S * result A.

Definition ret {S A} (a : A) : M S A := fun s => (s, Ret a).

Definition raise {S A} (e : exn) : M S A := fun s => (s, Raise e).

Definition bind {S A B} (m : M S A) (k : A -> M S B) : M S B :=
  fun s =>
    match m s with
    | (s', Ret a) => k a s'
    | (s', Raise e) => (s', Raise e)
    end.

(** [try: m except Exception as e: ...] with the outcome handed to the
    continuation: [attempt m] itself never raises. *)
Definition attempt {S A} (m : M S A) : M S (result A) :=
  fun s => let '(s', r) := m s in (s', Ret r).

(** [try: m except <classes>: h], for the exceptions [catches] accepts; the
    others go on to the caller. *)
Definition try_except {S A} (m : M S A) (catches : exn -> bool) (h : M S A)
    : M S A :=
  fun s =>
    match m s with
    | (s', Ret a) => (s', Ret a)
    | (s', Raise e) => if catches e then h s' else (s', Raise e)
    end.

(** [except Exception] *)
Definition any_Exception (e : exn) : bool := true.

(** [except (FileNotFoundError, PermissionError, OSError)], and
    [except (PermissionError, OSError)]: every [OSError]. *)
Definition any_OSError (e : exn) : bool :=
  match e with OSError _ => true | Exception _ => false end.

(** [except (FileNotFoundError, PermissionError)] *)
Definition FileNotFound_or_Permission (e : exn) : bool :=
  match e with
  | OSError FileNotFoundError | OSError PermissionError => true
  | _ => false
  end.

Definition get {S} : M S S := fun s => (s, Ret s).
Definition modify {S} (f : S -> S) : M S unit := fun s => (f s, Ret tt).

(** From a state in [Q], the computation ends in a state in [Q'], whether
    it returns or raises. *)
Definition preserves {S A} (Q Q' : S -> Prop) (m : M S A) : Prop :=
  forall s, Q s -> Q' (m s).1.

(** From a state in [P], the computation returns a value and a state in
    [Q], or raises in a state in [E]. *)
Definition triple {S A} (P : S -> Prop) (m : M S A) (Q : A -> S -> Prop)
    (E : S -> Prop) : Prop :=
  forall s, P s ->
    match m s with
    | (s', Ret a) => Q a s'
    | (s', Raise _) => E s'
    end.

End Py.

Import Py.

Notation "'let*' x ':=' m 'in' k" := (bind m (fun x => k))
  (at level 10, x pattern, m at level 100, k at level 200).
Notation "m ';;' k" := (bind m (fun _ => k))
  (at level 100, k at level 200, right associativity).

(* ===================================================================== *)
(** ** core/cleaner.py: the template workflow *)
(* ===================================================================== *)

Module Core.

Section Workflow.

(** [Item] is the provider's item type (a Python dict), [W] whatever the
    provider's methods read and change: the disk, a cluster, its own
    fields. *)
Context {Item W : Type}.

(** The abstract methods of [Cleaner], and the optional [item_to_str] hook
    that [_log_item] looks up with [hasattr]. Each method may change the
    world and may raise; [item_to_str] formats an item: it reads the item
    and the provider's state, changes nothing, and may raise too (a key
    that the item does not have). *)
Record Cleaner : Type := {
  name : string;
  check_prerequisites : M W bool;
  find_cleanable_items : Z -> M W (list Item);
  clean_item : Item -> bool -> M W bool;
  item_to_str : option (Item -> W -> result string)
}.

(** An [item_to_str] that reads only keys every item has. *)
Definition formats (to_str : Item -> string) : Item -> W -> result string :=
  fun item _ => Ret (to_str item).

(** What a run is observed to do: the calls it makes on the provider, in
    order, and the lines [_log_item] writes, each with the item it is about.
    The other log lines carry nothing the provider or the caller can act on
    and are left out. *)
Inductive event : Type :=
| Call_check_prerequisites
| Call_find_cleanable_items (days_threshold : Z)
| Call_clean_item (item : Item) (dry_run : bool)
| Log_item (prefix : string) (item : Item) (line : string).

Record run : Type := { world : W; trace : list event }.

Definition emit (e : event) : M run unit :=
  modify (fun r => {| world := world r; trace := trace r ++ [e] |}).

(** A provider method called from the workflow: the call is recorded, then
    the method runs on the world. *)
Definition call {A} (e : event) (m : M W A) : M run A :=
  emit e;;
  fun r =>
    let '(w, a) := m (world r) in ({| world := w; trace := trace r |}, a).

(** [str(item)] of the Python runtime, used when the provider has no
    [item_to_str]. *)
Variable py_str : Item -> string.

(** [item_str] of [_log_item]: [self.item_to_str(item)] when the provider
    has the method, [str(item)] otherwise. *)
Definition item_str (self : Cleaner) (item : Item) : W -> result string :=
  match item_to_str self with
  | Some to_str => to_str item
  | None => fun _ => Ret (py_str item)
  end.

(** The text of a line written by [_log_item]: [f"{prefix}: {item_str}"]. *)
Definition item_line (prefix item_str : string) : string :=
  prefix +:+ ": " +:+ item_str.

(** [_log_item(item, prefix)]: nothing is written when [item_to_str]
    raises, and the exception goes on to the caller. *)
Definition _log_item (self : Cleaner) (item : Item) (prefix : string) : M run unit :=
  fun r =>
    match item_str self item (world r) with
    | Ret text => emit (Log_item prefix item (item_line prefix text)) r
    | Raise e => (r, Raise e)
    end.

(** The [for item in cleanable_items] loop of the dry-run branch, which has
    no [try] around it. *)
Fixpoint report_items (self : Cleaner) (cleanable_items : list Item) : M run unit :=
  match cleanable_items with
  | [] => ret tt
  | item :: rest =>
      _log_item self item "Would clean";;
      report_items self rest
  end.

(** The [for item in cleanable_items] loop of the real run, with the local
    [success_count] as accumulator. The [try] block holds the [clean_item]
    call and the [_log_item] call that follows it; [success_count] is
    incremented between the two, so it keeps its new value when
    [_log_item] raises. The handler logs the error and the loop goes on. *)
Fixpoint clean_items (self : Cleaner) (cleanable_items : list Item)
    (success_count : Z) : M run Z :=
  match cleanable_items with
  | [] => ret success_count
  | item :: rest =>
      let* outcome :=
        attempt (call (Call_clean_item item false) (clean_item self item false)) in
      match outcome with
      | Ret true =>
          attempt (_log_item self item "Cleaned");;
          clean_items self rest (success_count + 1)
      | Ret false =>
          attempt (_log_item self item "Failed to clean");;
          clean_items self rest success_count
      | Raise _ =>
          clean_items self rest success_count
      end
  end.

(** [Cleaner.clean(days_threshold, dry_run)] *)
Definition clean (self : Cleaner) (days_threshold : Z) (dry_run : bool) : M run bool :=
  let* prerequisites :=
    attempt (call Call_check_prerequisites (check_prerequisites self)) in
  match prerequisites with
  | Raise _ => ret false
  | Ret false => ret false
  | Ret true =>
      let* found :=
        attempt (call (Call_find_cleanable_items days_threshold)
                      (find_cleanable_items self days_threshold)) in
      match found with
      | Raise _ => ret false
      | Ret cleanable_items =>
          match cleanable_items with
          | [] => ret true
          | _ :: _ =>
              if dry_run then
                report_items self cleanable_items;;
                ret true
              else
                let* success_count := clean_items self cleanable_items 0 in
                ret (bool_decide (0 < success_count)
                     || bool_decide (Z.of_nat (length cleanable_items) = 0))
          end
      end
  end.

(** *** What the specification counts *)

(** The outcome of [clean_item(item, dry_run=False)] on every item in turn,
    each call starting from the world the previous one left. *)
Fixpoint item_outcomes (self : Cleaner) (items : list Item) (w : W)
    : list (result bool) :=
  match items with
  | [] => []
  | item :: rest =>
      let '(w', r) := clean_item self item false w in
      r :: item_outcomes self rest w'
  end.

Definition succeeded (r : result bool) : bool :=
  match r with Ret true => true | _ => false end.

(** successCount: the calls that returned true. *)
Definition successCount (self : Cleaner) (items : list Item) (w : W) : Z :=
  Z.of_nat (length (filter (fun r => succeeded r = true) (item_outcomes self items w))).

Definition totalItems (items : list Item) : Z := Z.of_nat (length items).

Definition is_clean_item_call (e : event) : bool :=
  match e with Call_clean_item _ _ => true | _ => false end.

Definition is_find_call (e : event) : bool :=
  match e with Call_find_cleanable_items _ => true | _ => false end.

Definition start (w : W) : run := {| world := w; trace := [] |}.

End Workflow.

Arguments Cleaner : clear implicits.
Arguments event : clear implicits.
Arguments run : clear implicits.

(** *** tests/test_core.py: [MockCleaner] *)

(** The items of the tests are dicts of strings. *)
Definition mock_item : Type := gmap string string.

(** The fields of a [MockCleaner] object. *)
Record MockCleaner : Type := {
  items : list mock_item;
  cleaned_items : list mock_item
}.

Definition MockCleaner_clean_item (item : mock_item) (dry_run : bool)
    : M MockCleaner bool :=
  (if negb dry_run
   then modify (fun self =>
          {| items := items self; cleaned_items := cleaned_items self ++ [item] |})
   else ret tt);;
  ret true.

Definition mock : Cleaner mock_item MockCleaner := {|
  name := "mock";
  check_prerequisites := ret true;
  find_cleanable_items := fun _ => let* self := get in ret (items self);
  clean_item := MockCleaner_clean_item;
  item_to_str := None
|}.

Definition item1 : mock_item := {[ "id" := "1"; "name" := "item1" ]}.
Definition item2 : mock_item := {[ "id" := "2"; "name" := "item2" ]}.
Definition item3 : mock_item := {[ "id" := "3"; "name" := "item3" ]}.

(** The object the tests build: [cleaner.items = [item1, item2]]. *)
Definition mock_two_items : MockCleaner :=
  {| items := [item1; item2]; cleaned_items := [] |}.

(** A provider for the scenario "three items, two succeed and one raises":
    [MockCleaner] with a [clean_item] that raises on the item whose id is 2. *)
Definition scenario_clean_item (item : mock_item) (dry_run : bool)
    : M MockCleaner bool :=
  if bool_decide (item !! "id" = Some "2") then raise (Exception "boom")
  else MockCleaner_clean_item item dry_run.

Definition scenario : Cleaner mock_item MockCleaner := {|
  name := "scenario";
  check_prerequisites := ret true;
  find_cleanable_items := fun _ => let* self := get in ret (items self);
  clean_item := scenario_clean_item;
  item_to_str := Some (fun item _ =>
    match item !! "name" with
    | Some name => Ret name
    | None => Raise (Exception "KeyError: 'name'")
    end)
|}.

Definition scenario_three_items : MockCleaner :=
  {| items := [item1; item2; item3]; cleaned_items := [] |}.

(** [str(item)] is not used by the statements; the scenarios run with the
    item's id standing for it. *)
Definition mock_str (item : mock_item) : string := default "" (item !! "id").

End Core.

(* ===================================================================== *)
(** ** cleaners/k8s.py: the Kubernetes provider *)
(* ===================================================================== *)

Module K8s.

(** The keys of an item dict that [clean_item] and [item_to_str] read.
    Discovery sets ["type"], ["namespace"], ["name"] and ["age_days"] on every
    item and ["phase"] on pods. *)
Record item : Type := {
  type : string;
  namespace : string;
  name : string;
  age_days : Z;
  phase : option string
}.

(** The fields [__init__] sets. *)
Record KubernetesCleaner : Type := {
  timeout : Z;
  protected_namespaces : gset string;
  protected_prefixes : gset string
}.

Definition __init__ (timeout : Z) : KubernetesCleaner := {|
  timeout := timeout;
  protected_namespaces :=
    {[ "kube-system"; "kube-public"; "kube-node-lease";
       "cert-manager"; "istio-system"; "monitoring";
       "ingress-nginx"; "default" ]};
  protected_prefixes :=
    {[ "kube-"; "calico-"; "istio-"; "cert-manager-";
       "prometheus-"; "grafana-"; "default-token-" ]}
|}.

Section Kubectl.

(** Whatever a shell command can read and change: the machine and the
    cluster behind [kubectl]. *)
Context {Cluster : Type}.

(** [run_command(command, timeout)] of core/utils.py hands the command to
    the shell and returns its stripped standard output, or [None] when the
    command fails, times out or cannot be started: the call to the shell is
    in a [try] that catches every exception. The line it logs before that
    [try] names the working directory, and [os.getcwd()] raises when that
    directory is gone: then [run_command] raises, with no [cwd] given as
    here. What a command does is the environment's business. *)
Variable run_command : string -> Z -> Cluster -> Cluster * result (option string).

(** The cluster together with the commands handed to [run_command] so far,
    oldest first. *)
Record shell : Type := { cluster : Cluster; issued : list string }.

Definition run (command : string) (timeout : Z) : M shell (option string) :=
  fun s =>
    let '(c, output) := run_command command timeout (cluster s) in
    ({| cluster := c; issued := issued s ++ [command] |}, output).

(** Python truth value of an [Optional[str]]: [None] and the empty string
    are false. *)
Definition truthy (output : option string) : bool :=
  match output with
  | None => false
  | Some text => negb (bool_decide (text = ""))
  end.

Definition check_prerequisites (self : KubernetesCleaner) : M shell bool :=
  let* client_check := run "kubectl version --client" 10 in
  if negb (truthy client_check) then ret false
  else
    let* cluster_check := run "kubectl get --raw /healthz" 15 in
    if negb (truthy cluster_check) || negb (bool_decide (cluster_check = Some "ok"))
    then ret false
    else ret true.

Definition _run_kubectl (self : KubernetesCleaner) (command : string)
    (timeout : option Z) : M shell (option string) :=
  let actual_timeout :=
    match timeout with
    | Some t => t
    | None => K8s.timeout self
    end in
  run command actual_timeout.

(** [name.startswith(prefix)] for some prefix of the set; the loop of the
    source returns at the first hit, and the order in which a set is
    visited does not change whether there is one. *)
Definition has_protected_prefix (self : KubernetesCleaner) (name : string) : bool :=
  existsb (fun prefix => String.prefix prefix name)
          (elements (protected_prefixes self)).

Definition clean_item (self : KubernetesCleaner) (item : item) (dry_run : bool)
    : M shell bool :=
  let item_type := type item in
  let namespace := namespace item in
  let name := name item in
  if bool_decide (namespace ∈ protected_namespaces self) then ret false
  else if has_protected_prefix self name then ret false
  else if dry_run then ret true
  else
    let cmd :=
      if bool_decide (item_type = "pod") then
        Some ("kubectl delete pod " +:+ name +:+ " -n " +:+ namespace
              +:+ " --grace-period=30")
      else if bool_decide (item_type = "replicaset") then
        Some ("kubectl delete rs " +:+ name +:+ " -n " +:+ namespace
              +:+ " --grace-period=30")
      else if bool_decide (item_type = "configmap") then
        Some ("kubectl delete configmap " +:+ name +:+ " -n " +:+ namespace)
      else if bool_decide (item_type = "secret") then
        Some ("kubectl delete secret " +:+ name +:+ " -n " +:+ namespace)
      else None in
    match cmd with
    | None => ret false
    | Some cmd =>
        let* result := _run_kubectl self cmd (Some 45) in
        match result with
        | None => ret false
        | Some _ => ret true
        end
    end.

(** [str(item)] of the Python runtime, for the last branch of
    [item_to_str]. *)
Variable py_str : item -> string.

Definition item_to_str (item : item) : string :=
  let item_type := type item in
  let name := name item in
  let namespace := namespace item in
  let age_days := pretty (age_days item) in
  if bool_decide (item_type = "pod") then
    "Pod: " +:+ namespace +:+ "/" +:+ name +:+ " (" +:+ default "Unknown" (phase item)
      +:+ ", " +:+ age_days +:+ " days old)"
  else if bool_decide (item_type = "replicaset") then
    "ReplicaSet: " +:+ namespace +:+ "/" +:+ name +:+ " (" +:+ age_days +:+ " days old)"
  else if bool_decide (item_type = "configmap") then
    "ConfigMap: " +:+ namespace +:+ "/" +:+ name +:+ " (" +:+ age_days +:+ " days old)"
  else if bool_decide (item_type = "secret") then
    "Secret: " +:+ namespace +:+ "/" +:+ name +:+ " (" +:+ age_days +:+ " days old)"
  else py_str item.

(** [find_cleanable_items] queries the cluster and parses what [kubectl]
    prints; the statements below hold whatever list it returns, so it is
    left open. *)
Variable find_cleanable_items : KubernetesCleaner -> Z -> M shell (list item).

(** The provider as the workflow of core/cleaner.py sees it. *)
Definition as_Cleaner (self : KubernetesCleaner) : Core.Cleaner item shell := {|
  Core.name := "k8s";
  Core.check_prerequisites := check_prerequisites self;
  Core.find_cleanable_items := find_cleanable_items self;
  Core.clean_item := clean_item self;
  Core.item_to_str := Some (Core.formats item_to_str)
|}.

(** [args and ('--help' in args or '-h' in args)]: [None] and the empty list
    are false. *)
Definition wants_help (args : option (list string)) : bool :=
  match args with
  | None => false
  | Some args =>
      negb (bool_decide (args = []))
      && (bool_decide ("--help" ∈ args) || bool_decide ("-h" ∈ args))
  end.

(** [KubernetesCleaner.clean(days_threshold, dry_run, args)]: the help text
    when asked for, [Cleaner.clean] otherwise. *)
Definition clean (self : KubernetesCleaner) (days_threshold : Z) (dry_run : bool)
    (args : option (list string)) : M (Core.run item shell) bool :=
  if wants_help args then ret true
  else Core.clean py_str (as_Cleaner self) days_threshold dry_run.

(** The item types [clean_item] has a delete command for. *)
Definition deletable_type (item_type : string) : bool :=
  bool_decide (item_type ∈ ["pod"; "replicaset"; "configmap"; "secret"]).

Definition protected (self : KubernetesCleaner) (item : item) : bool :=
  bool_decide (namespace item ∈ protected_namespaces self)
  || has_protected_prefix self (name item).

End Kubectl.

Arguments shell : clear implicits.

(** A cluster on which every command succeeds and is remembered. *)
Definition obedient
    : string -> Z -> list string -> list string * result (option string) :=
  fun command _ done => (done ++ [command], Ret (Some "deleted")).

Definition kube_proxy : item :=
  {| type := "pod"; namespace := "kube-system"; name := "kube-proxy-x7k2p";
     age_days := 400; phase := Some "Succeeded" |}.

Definition old_job : item :=
  {| type := "job"; namespace := "batch"; name := "nightly-report";
     age_days := 90; phase := None |}.

Definition old_pod : item :=
  {| type := "pod"; namespace := "batch"; name := "nightly-report-5d9f";
     age_days := 90; phase := Some "Failed" |}.

End K8s.

(* ===================================================================== *)
(** ** The operating system as the sources see it *)
(* ===================================================================== *)

Module Os.

Inductive file_kind : Type := Regular | Directory | Other.

(** The fields of an [os.stat_result] the sources read. A length is a number
    of bytes; the three times are POSIX timestamps, in microseconds since
    the epoch. *)
Record stat_result : Type := {
  st_kind : file_kind;
  st_size : N;
  st_atime : Z;
  st_mtime : Z;
  st_ctime : Z
}.

(** One entry of [os.walk]: [(dirpath, dirnames, filenames)]. *)
Definition walk_entry (Path : Type) : Type := Path * list string * list string.

(** The system calls behind [os.stat], [os.listdir], [os.walk] and
    [time.time]. Every call may find the world changed by other programs
    and leaves it to the next call; [stat] and [listdir] fail with an
    [OSError] only, and [os.walk], which by default ignores the errors of
    the directories it cannot list, does not fail. [sys_now] is the clock,
    a POSIX timestamp in microseconds. [sys_localtime] is the conversion of
    what [datetime.fromtimestamp] makes of a timestamp: the date and time
    that the clocks on the wall of the machine's time zone show at it, as
    the microseconds a clock set to UTC would have counted when it showed
    the same, or [None] where the call raises; nothing is assumed of it,
    and in a zone with daylight saving it is neither increasing nor one to
    one. [join] is
    [os.path.join(directory, name)] and [basename] is [os.path.basename]. *)
Record system (World Path : Type) : Type := {
  sys_stat : Path -> World -> World * (os_error + stat_result);
  sys_listdir : Path -> World -> World * (os_error + list string);
  sys_walk : Path -> World -> World * list (walk_entry Path);
  sys_now : World -> World * Z;
  sys_localtime : Z -> option Z;
  join : Path -> string -> Path;
  basename : Path -> string
}.
Arguments sys_stat {World Path} _ _ _.
Arguments sys_listdir {World Path} _ _ _.
Arguments sys_walk {World Path} _ _ _.
Arguments sys_now {World Path} _ _.
Arguments sys_localtime {World Path} _ _.
Arguments join {World Path} _ _ _.
Arguments basename {World Path} _ _.

Section Calls.

Context {World Path : Type}.
Variable sys : system World Path.

Definition of_syscall {A} (call : World -> World * (os_error + A)) : M World A :=
  fun w =>
    match call w with
    | (w', inl e) => (w', Raise (OSError e))
    | (w', inr a) => (w', Ret a)
    end.

Definition os_stat (path : Path) : M World stat_result :=
  of_syscall (sys_stat sys path).

Definition os_listdir (path : Path) : M World (list string) :=
  of_syscall (sys_listdir sys path).

Definition os_walk (top : Path) : M World (list (walk_entry Path)) :=
  fun w => let '(w', entries) := sys_walk sys top w in (w', Ret entries).

Definition time_time : M World Z :=
  fun w => let '(w', now) := sys_now sys w in (w', Ret now).

(** The states the world can be in after system calls made from [w]: what
    a program that starts in [w] can come to see. *)
Inductive after (w : World) : World -> Prop :=
| after_none : after w w
| after_stat path w1 : after w w1 -> after w (sys_stat sys path w1).1
| after_listdir path w1 : after w w1 -> after w (sys_listdir sys path w1).1
| after_walk top w1 : after w w1 -> after w (sys_walk sys top w1).1
| after_time w1 : after w w1 -> after w (sys_now sys w1).1.

(** [os.path.exists], [isfile], [isdir] and [getsize] as genericpath.py
    defines them: one [os.stat] each, whose failure the first three turn
    into [False] and [getsize] lets through. *)
Definition os_path_exists (path : Path) : M World bool :=
  try_except (os_stat path;; ret true) any_OSError (ret false).

Definition os_path_isfile (path : Path) : M World bool :=
  try_except
    (let* st := os_stat path in
     ret (match st_kind st with Regular => true | _ => false end))
    any_OSError (ret false).

Definition os_path_isdir (path : Path) : M World bool :=
  try_except
    (let* st := os_stat path in
     ret (match st_kind st with Directory => true | _ => false end))
    any_OSError (ret false).

Definition os_path_getsize (path : Path) : M World Z :=
  let* st := os_stat path in
  ret (Z.of_N (st_size st)).

End Calls.

End Os.

(* ===================================================================== *)
(** ** core/utils.py: [is_unused] and [get_size] *)
(* ===================================================================== *)

Module Utils.

Import Os.

(** *** [datetime] and [timedelta]

    A naive [datetime] is a date and a time of day with no zone: here the
    number of microseconds from 1970-01-01 00:00:00 to it, between
    [datetime.min] (0001-01-01 00:00:00) and [datetime.max]
    (9999-12-31 23:59:59.999999). Building one outside that range raises,
    and so does a [timedelta] of more than 999999999 days. Subtracting a
    [timedelta] and comparing two naive values are arithmetic on these
    numbers. *)
Definition usec_per_day : Z := 86400 * 1000000.
Definition datetime_min : Z := -62135596800 * 1000000.
Definition datetime_max : Z := 253402300800 * 1000000 - 1.
Definition timedelta_max_days : Z := 999999999.

Definition is_datetime (t : Z) : bool :=
  bool_decide (datetime_min <= t) && bool_decide (t <= datetime_max).


Definition timedelta {S} (days : Z) : M S Z :=
  if bool_decide (Z.abs days <= timedelta_max_days) then ret (days * usec_per_day)
  else raise (Exception "days must have magnitude <= 999999999").

Definition datetime_sub {S} (date delta : Z) : M S Z :=
  if is_datetime (date - delta) then ret (date - delta)
  else raise (Exception "date value out of range").

Section Utils.

Context {World Path : Type}.
Variable sys : system World Path.

(** [datetime.fromtimestamp(t)]: the local date and time at the timestamp
    [t], or an exception where the conversion fails or gives a year that
    [datetime] does not have. *)
Definition datetime_fromtimestamp {S} (t : Z) : M S Z :=
  match sys_localtime sys t with
  | Some local =>
      if is_datetime local then ret local
      else raise (Exception "year is out of range")
  | None => raise (Exception "timestamp out of range for platform time_t")
  end.

(** [datetime.now()]: the local date and time at the reading of the
    clock. *)
Definition datetime_now : M World Z :=
  let* t := time_time sys in
  datetime_fromtimestamp t.

(** [is_unused(path, days_threshold)] *)
Definition is_unused (path : Path) (days_threshold : Z) : M World bool :=
  try_except
    (let* stat_info := os_stat sys path in
     let last_access_time :=
       Z.max (Z.max (st_atime stat_info) (st_mtime stat_info)) (st_ctime stat_info) in
     let* last_access_date := datetime_fromtimestamp last_access_time in
     let* now := datetime_now in
     let* delta := timedelta days_threshold in
     let* threshold_date := datetime_sub now delta in
     ret (bool_decide (last_access_date < threshold_date)))
    any_Exception
    (ret false).

(** The inner loop of [get_size]: [for f in filenames]. *)
Fixpoint get_size_files (dirpath : Path) (filenames : list string)
    (total_size : Z) : M World Z :=
  match filenames with
  | [] => ret total_size
  | f :: rest =>
      let fp := join sys dirpath f in
      let* there := os_path_exists sys fp in
      if there then
        let* size := os_path_getsize sys fp in
        get_size_files dirpath rest (total_size + size)
      else get_size_files dirpath rest total_size
  end.

(** The outer loop: [for dirpath, dirnames, filenames in os.walk(path)]. *)
Fixpoint get_size_walk (entries : list (walk_entry Path)) (total_size : Z)
    : M World Z :=
  match entries with
  | [] => ret total_size
  | (dirpath, dirnames, filenames) :: rest =>
      let* total_size := get_size_files dirpath filenames total_size in
      get_size_walk rest total_size
  end.

(** [get_size(path)] *)
Definition get_size (path : Path) : M World Z :=
  let* is_file := os_path_isfile sys path in
  if is_file then os_path_getsize sys path
  else
    let* entries := os_walk sys path in
    get_size_walk entries 0.

End Utils.

End Utils.

(* ===================================================================== *)
(** ** A disk: directory trees, permissions, and other programs at work *)
(* ===================================================================== *)

Module Disk.

Import Os.

(** What [stat] reports about a file or a directory. *)
Record inode : Type := {
  i_size : N;
  i_atime : Z;
  i_mtime : Z;
  i_ctime : Z
}.

(** A regular file; a directory with its read permission (needed to list
    it), its search permission (needed to reach what is inside) and its
    entries; or a name that is listed but leads nowhere, as a broken
    symbolic link does. *)
Inductive node : Type :=
| File (i : inode)
| Dir (i : inode) (readable searchable : bool) (entries : list (string * node))
| Dangling.

Definition path : Type := list string.

Definition is_Dir (n : node) : bool :=
  match n with Dir _ _ _ _ => true | _ => false end.

Fixpoint find_entry (name : string) (entries : list (string * node)) : option node :=
  match entries with
  | [] => None
  | (name', child) :: rest =>
      if bool_decide (name' = name) then Some child else find_entry name rest
  end.

(** Following a path from a node: every directory on the way must be
    searchable. *)
Fixpoint resolve (n : node) (p : path) : os_error + node :=
  match p with
  | [] => inr n
  | name :: rest =>
      match n with
      | Dir _ _ searchable entries =>
          if searchable then
            match find_entry name entries with
            | Some child => resolve child rest
            | None => inl FileNotFoundError
            end
          else inl PermissionError
      | File _ => inl OtherOSError
      | Dangling => inl FileNotFoundError
      end
  end.

Definition stat_of (kind : file_kind) (i : inode) : stat_result :=
  {| st_kind := kind; st_size := i_size i;
     st_atime := i_atime i; st_mtime := i_mtime i; st_ctime := i_ctime i |}.

Definition stat (root : node) (p : path) : os_error + stat_result :=
  match resolve root p with
  | inl e => inl e
  | inr (File i) => inr (stat_of Regular i)
  | inr (Dir i _ _ _) => inr (stat_of Directory i)
  | inr Dangling => inl FileNotFoundError
  end.

Definition listdir (root : node) (p : path) : os_error + list string :=
  match resolve root p with
  | inl e => inl e
  | inr (Dir _ readable _ entries) =>
      if readable then inr (map fst entries) else inl PermissionError
  | inr (File _) => inl OtherOSError
  | inr Dangling => inl FileNotFoundError
  end.

Definition dirnames (entries : list (string * node)) : list string :=
  map fst (filter (fun e => is_Dir e.2 = true) entries).

Definition filenames (entries : list (string * node)) : list string :=
  map fst (filter (fun e => is_Dir e.2 = false) entries).

(** [os.walk(top)], top down, links not followed: a directory that can be
    read yields its entry and then, name by name, the walks of its
    sub-directories; one that cannot be read, or cannot be reached, yields
    nothing. *)
Fixpoint walk_node (top : path) (n : node) : list (walk_entry path) :=
  match n with
  | Dir _ true searchable entries =>
      (top, dirnames entries, filenames entries)
      :: (if searchable then
            flat_map
              (fun '(name, child) =>
                 if is_Dir child then walk_node (top ++ [name]) child else [])
              entries
          else [])
  | _ => []
  end.

Definition walk (root : node) (top : path) : list (walk_entry path) :=
  match resolve root top with
  | inr n => walk_node top n
  | inl _ => []
  end.

(** The disk now, and what other programs will have made of it by the time
    of each later system call. With no [later] the disk stays as it is. *)
Record disk : Type := { current : node; later : list node; clock : Z }.

Definition next (d : disk) : disk :=
  match later d with
  | [] => d
  | n :: rest => {| current := n; later := rest; clock := clock d |}
  end.

(** The local time of a machine whose time zone is UTC: the timestamp
    itself, within the years of [datetime] and a day after their start,
    since [datetime.fromtimestamp] also converts the timestamp of a day
    before, to see whether the clocks were set back in between. *)
Definition utc (t : Z) : option Z :=
  if Utils.is_datetime (t - Utils.usec_per_day) && Utils.is_datetime t
  then Some t else None.

(** A machine set to UTC, with a file system mounted without access-time
    updates, so that looking at a file or listing a directory changes no
    time; the names handed to [join] are single components, neither
    absolute nor [".."], so that it goes one level down. *)
Definition unix : system disk path := {|
  sys_stat := fun p d => (next d, stat (current d) p);
  sys_listdir := fun p d => (next d, listdir (current d) p);
  sys_walk := fun p d => (next d, walk (current d) p);
  sys_now := fun d => (next d, clock d);
  sys_localtime := utc;
  join := fun p name => p ++ [name];
  basename := fun p => List.last p ""
|}.

(** A disk nobody else is writing to. *)
Definition quiet (root : node) (now : Z) : disk :=
  {| current := root; later := []; clock := now |}.

(** Names are unique within a directory. *)
Fixpoint well_formed (n : node) : bool :=
  match n with
  | Dir _ _ _ entries =>
      bool_decide (NoDup (map fst entries))
      && forallb (fun '(_, child) => well_formed child) entries
  | _ => true
  end.

(** Nothing but regular files and directories open to reading and
    searching: no call on such a tree fails. *)
Fixpoint plain (n : node) : bool :=
  match n with
  | File _ => true
  | Dir _ readable searchable entries =>
      readable && searchable
      && forallb (fun '(_, child) => plain child) entries
  | Dangling => false
  end.

(** The bytes of the files that can be reached from a node. *)
Fixpoint reachable_bytes (n : node) : Z :=
  match n with
  | File i => Z.of_N (i_size i)
  | Dir _ readable searchable entries =>
      if readable && searchable then
        foldr (fun '(_, child) total => reachable_bytes child + total) 0 entries
      else 0
  | Dangling => 0
  end.

(** The bytes of all the files below a node, reachable or not. *)
Fixpoint total_bytes (n : node) : Z :=
  match n with
  | File i => Z.of_N (i_size i)
  | Dir _ _ _ entries =>
      foldr (fun '(_, child) total => total_bytes child + total) 0 entries
  | Dangling => 0
  end.

Definition sum_bytes (entries : list (string * node)) : Z :=
  foldr (fun '(_, child) total => reachable_bytes child + total) 0 entries.

Definition file (size : N) : node :=
  File {| i_size := size; i_atime := 0; i_mtime := 0; i_ctime := 0 |}.

Definition dir (entries : list (string * node)) : node :=
  Dir {| i_size := 64; i_atime := 0; i_mtime := 0; i_ctime := 0 |} true true entries.

(** A Maven repository with one artifact directory, last touched in
    September 2020 (times in microseconds since the epoch). *)
Definition old_jar : inode :=
  {| i_size := 2048;
     i_atime := 1600000000000000;
     i_mtime := 1599000000000000;
     i_ctime := 1599000000000000 |}.

Definition repository : node :=
  dir [("junit", dir [("junit-4.12.jar", File old_jar); ("junit-4.12.pom", file 512)]);
       ("README", file 100)].

(** 14 November 2023, 22:13:20 UTC. *)
Definition november_2023 : Z := 1700000000000000.

(** A home directory with one application of 1000 bytes that has an empty
    support directory and 50 bytes of cache, and no Info.plist. *)
Definition home : node :=
  dir [("Applications", dir [("Foo.app", dir [("Foo", file 1000)])]);
       ("Library",
        dir [("Application Support", dir [("Foo", dir [])]);
             ("Caches", dir [("com.unknown.foo", dir [("data", file 50)])]);
             ("Preferences", dir []);
             ("Logs", dir [])])].

(** The disk of somebody deleting README while it is being measured, and of
    somebody emptying the [junit] directory. *)
Definition readme_vanishes : disk :=
  {| current := repository; later := [dir []]; clock := november_2023 |}.

Definition junit_emptied : disk :=
  {| current := repository;
     later := [repository; repository; dir [("junit", dir [])]];
     clock := november_2023 |}.

End Disk.

(* ===================================================================== *)
(** ** Python string methods the analyzer uses *)
(* ===================================================================== *)

Module Str.

Definition startswith (s prefix : string) : bool := String.prefix prefix s.

Definition endswith (s suffix : string) : bool :=
  let n := String.length s in
  let k := String.length suffix in
  bool_decide (k <= n)%nat
  && bool_decide (String.substring (n - k) k s = suffix).

Definition lower_char (c : Ascii.ascii) : Ascii.ascii :=
  let n := Ascii.nat_of_ascii c in
  if bool_decide (65 <= n <= 90)%nat then Ascii.ascii_of_nat (n + 32) else c.

(** [s.lower()] on ASCII text, where only the letters from A to Z change.
    Python's [str.lower] knows the case of every character; the sources
    are modelled with a [lower] of their own, and this one stands in for it
    where the text is ASCII. *)
Fixpoint lower (s : string) : string :=
  match s with
  | EmptyString => EmptyString
  | String c rest => String (lower_char c) (lower rest)
  end.

Fixpoint drop (n : nat) (s : string) : string :=
  match n, s with
  | S n, String _ rest => drop n rest
  | _, _ => s
  end.

Fixpoint surround (new s : string) : string :=
  match s with
  | EmptyString => new
  | String c rest => new +:+ String c (surround new rest)
  end.

Fixpoint replace_from (fuel : nat) (s old new : string) : string :=
  match fuel, s with
  | S fuel, String c rest =>
      if String.prefix old s
      then new +:+ replace_from fuel (drop (String.length old) s) old new
      else String c (replace_from fuel rest old new)
  | _, _ => s
  end.

(** [s.replace(old, new)]: every occurrence, left to right. *)
Definition replace (s old new : string) : string :=
  if bool_decide (old = "") then surround new s
  else replace_from (String.length s) s old new.

End Str.

(* ===================================================================== *)
(** ** The floats of the Python runtime *)
(* ===================================================================== *)

Module Float.

(** A finite float that is not negative, as IEEE 754 binary64 has it: the
    number [mantissa * 2 ^ exponent], with a mantissa below [2 ^ 53] and an
    exponent from -1074 on; the mantissa is at least [2 ^ 52] unless the
    exponent is -1074. *)
Record double : Type := { mantissa : Z; exponent : Z }.

(** The integer nearest to [n / d], the even one of two that are equally
    near; [d] is positive. *)
Definition round_half_even (n d : Z) : Z :=
  let q := n / d in
  let r := n mod d in
  if 2 * r <? d then q
  else if d <? 2 * r then q + 1
  else if Z.even q then q
  else q + 1.

(** The power of two at or below [n / d]: the largest [k] with
    [2 ^ k <= n / d], for positive [n] and [d]. *)
Definition binade (n d : Z) : Z :=
  let s := Z.log2 n - Z.log2 d in
  if (if 0 <=? s then d * 2 ^ s <=? n else d <=? n * 2 ^ (- s))
  then s else s - 1.

(** [n / d] counted in units of [2 ^ e], to the nearest unit. *)
Definition scaled (n d e : Z) : Z :=
  if 0 <=? e then round_half_even n (d * 2 ^ e)
  else round_half_even (n * 2 ^ (- e)) d.

(** The float nearest to [n / d], ties to even, for [n] that is not
    negative and positive [d]: 53 bits from the leading one, or what there
    is above [2 ^ -1074]. A quotient of [2 ^ 1024] or more has no float:
    Python raises for it, and the analyzer never asks for one. *)
Definition nearest (n d : Z) : double :=
  if n =? 0 then {| mantissa := 0; exponent := -1074 |}
  else
    let e := Z.max (binade n d - 52) (-1074) in
    let m := scaled n d e in
    if m =? 2 ^ 53 then {| mantissa := 2 ^ 52; exponent := e + 1 |}
    else {| mantissa := m; exponent := e |}.

(** [a / b] on two ints: the quotient, correctly rounded. *)
Definition truediv (a b : Z) : double := nearest a b.

(** [x * k] for an int [k] that a float holds exactly. *)
Definition mul_int (x : double) (k : Z) : double :=
  if 0 <=? exponent x then nearest (mantissa x * k * 2 ^ exponent x) 1
  else nearest (mantissa x * k) (2 ^ (- exponent x)).

(** [round(x, 1)]: the decimal with one digit after the point that is
    nearest to [x], ties to the even digit, and then the float nearest to
    that decimal. [tenths x] is the decimal, in tenths. *)
Definition tenths (x : double) : Z := scaled (10 * mantissa x) 1 (- exponent x).

Definition round_1 (x : double) : double := nearest (tenths x) 10.

(** [round((size / total_size) * 100, 1)] *)
Definition percentage (size total_size : Z) : double :=
  round_1 (mul_int (truediv size total_size) 100).

(** [t] is [1000 * size / total_size] to the nearest integer, give or take
    the rounding of the division and of the multiplication before it:
    [|t - 1000 * size / total_size| <= 1/2 + 2 ^ -42]. *)
Definition share_in_tenths (t size total_size : Z) : Prop :=
  2 ^ 43 * Z.abs (t * total_size - 1000 * size) <= (2 ^ 42 + 2) * total_size.

End Float.

(* ===================================================================== *)
(** ** analyzers/app_analyzer.py: the report on one application *)
(* ===================================================================== *)

Module Analyzer.

Import Os.

Section Analyzer.

Context {World Path : Type} `{EqDecision Path}.
Variable sys : system World Path.

(** [format_size] prints a size with two decimals, and the percentages are
    [round((size / total_size) * 100, 1)]: both are floating-point
    computations of the Python runtime, taken as they come. *)
Variable format_size : Z -> string.
Context {float : Type}.
Variable percentage : Z -> Z -> float.

(** [s.lower()] of the Python runtime, which goes by the Unicode character
    database: taken as it comes. *)
Variable lower : string -> string.

(** [_get_bundle_id(app_path)] reads the bundle's Info.plist under a
    time-out and falls back on other sources; the report is built on
    whatever it answers. *)
Variable _get_bundle_id : Path -> M World (option string).

(** The directories [__init__] sets. *)
Record AppDiskAnalyzer : Type := {
  library_dir : Path;
  app_support_dir : Path;
  caches_dir : Path;
  containers_dir : Path;
  preferences_dir : Path;
  logs_dir : Path;
  saved_app_state_dir : Path
}.

(** A value of [result["locations"]]: a path, or a list of paths. *)
Inductive location : Type :=
| One (path : Path)
| Several (paths : list Path).

(** The [result] dict of [_analyze_single_app]. The last two keys are set
    at the end, ["percentages"] only when the total is positive. *)
Record report : Type := {
  name : string;
  bundle_id : string;
  path : Path;
  sizes : gmap string Z;
  sizes_formatted : gmap string string;
  total_size : Z;
  locations : gmap string location;
  total_size_formatted : option string;
  percentages : option (gmap string float)
}.

(** *** [_get_directory_size]

    The local [total_size] lives next to the world, so that what the loop
    has added is still there when an exception ends it. *)
Definition on_world {S A} (m : M World A) : M (World * S) A :=
  fun '(w, s) => let '(w', a) := m w in ((w', s), a).

Fixpoint _get_directory_size_files (dirpath : Path) (filenames : list string)
    : M (World * Z) unit :=
  match filenames with
  | [] => ret tt
  | f :: rest =>
      let fp := join sys dirpath f in
      try_except
        (let* file_size := on_world (os_path_getsize sys fp) in
         modify (fun '(w, total_size) => (w, total_size + file_size)))
        any_OSError
        (ret tt);;
      _get_directory_size_files dirpath rest
  end.

Fixpoint _get_directory_size_walk (entries : list (walk_entry Path))
    : M (World * Z) unit :=
  match entries with
  | [] => ret tt
  | (dirpath, dirnames, filenames) :: rest =>
      _get_directory_size_files dirpath filenames;;
      _get_directory_size_walk rest
  end.

Definition _get_directory_size (path : Path) : M World Z :=
  let* there := os_path_exists sys path in
  if negb there then ret 0
  else
    let* is_file := os_path_isfile sys path in
    if is_file then
      try_except (os_path_getsize sys path) any_OSError (ret 0)
    else
      fun w =>
        let '((w', total_size), outcome) :=
          try_except
            (let* entries := on_world (os_walk sys path) in
             _get_directory_size_walk entries)
            any_OSError
            (ret tt)
            (w, 0) in
        match outcome with
        | Ret _ => (w', Ret total_size)
        | Raise e => (w', Raise e)
        end.

(** *** The finders

    Each takes the [result] dict and updates it in place: the dict travels
    with the world. *)
Definition read {A} (f : report -> A) : M (World * report) A :=
  fun '(w, result) => ((w, result), Ret (f result)).

(** The four assignments that record a category:
    [result["sizes"][key] = size], the formatted size,
    [result["total_size"] += size] and the location. *)
Definition record (key : string) (size : Z) (where_ : location)
    : M (World * report) unit :=
  modify (fun '(w, result) =>
    (w, {| name := name result;
           bundle_id := bundle_id result;
           path := path result;
           sizes := <[key := size]> (sizes result);
           sizes_formatted := <[key := format_size size]> (sizes_formatted result);
           total_size := total_size result + size;
           locations := <[key := where_]> (locations result);
           total_size_formatted := total_size_formatted result;
           percentages := percentages result |})).

Definition _find_app_support_files (self : AppDiskAnalyzer) (bundle_id : string)
    : M (World * report) unit :=
  let* name := read name in
  let support_path := join sys (app_support_dir self) bundle_id in
  let alt_support_path := join sys (app_support_dir self) name in
  let* there := on_world (os_path_exists sys support_path) in
  if there then
    let* size := on_world (_get_directory_size support_path) in
    record "support" size (One support_path)
  else
    let* there := on_world (os_path_exists sys alt_support_path) in
    if there then
      let* size := on_world (_get_directory_size alt_support_path) in
      record "support" size (One alt_support_path)
    else ret tt.

(** [if os.path.exists(p): size = ...; total += size; locations.append(p)] *)
Definition add_if_exists (p : Path) (acc : Z * list Path) : M World (Z * list Path) :=
  let* there := os_path_exists sys p in
  if there then
    let* size := _get_directory_size p in
    ret (acc.1 + size, acc.2 ++ [p])
  else ret acc.

(** The loop over [os.listdir(self.caches_dir)]. *)
Fixpoint cache_dirs (self : AppDiskAnalyzer) (bundle_id : string)
    (listing : list string) (acc : Z * list Path) : M World (Z * list Path) :=
  match listing with
  | [] => ret acc
  | dirname :: rest =>
      if Str.startswith dirname (bundle_id +:+ ".") then
        let cache_path := join sys (caches_dir self) dirname in
        let* is_dir := os_path_isdir sys cache_path in
        if is_dir then
          let* size := _get_directory_size cache_path in
          cache_dirs self bundle_id rest (acc.1 + size, acc.2 ++ [cache_path])
        else cache_dirs self bundle_id rest acc
      else cache_dirs self bundle_id rest acc
  end.

Definition _find_cache_files (self : AppDiskAnalyzer) (bundle_id : string)
    : M (World * report) unit :=
  let* name := read name in
  let cache_path := join sys (caches_dir self) bundle_id in
  let alt_cache_path := join sys (caches_dir self) name in
  let* acc := on_world (add_if_exists cache_path (0, [])) in
  let* acc := on_world (add_if_exists alt_cache_path acc) in
  let* listing := on_world (os_listdir sys (caches_dir self)) in
  let* (total_cache_size, cache_locations) :=
    on_world (cache_dirs self bundle_id listing acc) in
  if bool_decide (0 < total_cache_size) then
    record "cache" total_cache_size (Several cache_locations)
  else ret tt.

(** The loop over [os.listdir(self.preferences_dir)]. *)
Fixpoint preference_files (self : AppDiskAnalyzer) (bundle_id : string)
    (primary_pref_path : Path) (listing : list string) (pref_paths : list Path)
    : list Path :=
  match listing with
  | [] => pref_paths
  | filename :: rest =>
      if Str.startswith filename (bundle_id +:+ ".")
         && Str.endswith filename ".plist" then
        let pref_path := join sys (preferences_dir self) filename in
        if bool_decide (pref_path <> primary_pref_path) then
          preference_files self bundle_id primary_pref_path rest
            (pref_paths ++ [pref_path])
        else preference_files self bundle_id primary_pref_path rest pref_paths
      else preference_files self bundle_id primary_pref_path rest pref_paths
  end.

(** [for path in pref_paths: try: total += getsize(path) except ...: pass] *)
Fixpoint sum_sizes (paths : list Path) (total : Z) : M World Z :=
  match paths with
  | [] => ret total
  | p :: rest =>
      let* total :=
        try_except
          (let* size := os_path_getsize sys p in ret (total + size))
          FileNotFound_or_Permission
          (ret total) in
      sum_sizes rest total
  end.

Definition _find_preferences (self : AppDiskAnalyzer) (bundle_id : string)
    : M (World * report) unit :=
  let primary_pref_path :=
    join sys (preferences_dir self) (bundle_id +:+ ".plist") in
  let* there := on_world (os_path_exists sys primary_pref_path) in
  let pref_paths := if there then [primary_pref_path] else [] in
  let* listing := on_world (os_listdir sys (preferences_dir self)) in
  let pref_paths :=
    preference_files self bundle_id primary_pref_path listing pref_paths in
  let* total_pref_size := on_world (sum_sizes pref_paths 0) in
  if bool_decide (0 < total_pref_size) then
    record "preferences" total_pref_size (Several pref_paths)
  else ret tt.

(** The loop over [os.listdir(crash_logs_dir)]. *)
Fixpoint crash_files (crash_logs_dir : Path) (name : string)
    (listing : list string) (acc : Z * list Path) : M World (Z * list Path) :=
  match listing with
  | [] => ret acc
  | filename :: rest =>
      if Str.startswith filename (name +:+ "_") then
        let crash_path := join sys crash_logs_dir filename in
        let* acc :=
          try_except
            (let* size := os_path_getsize sys crash_path in
             ret (acc.1 + size, acc.2 ++ [crash_path]))
            FileNotFound_or_Permission
            (ret acc) in
        crash_files crash_logs_dir name rest acc
      else crash_files crash_logs_dir name rest acc
  end.

Definition _find_logs (self : AppDiskAnalyzer) (bundle_id : string)
    : M (World * report) unit :=
  let* name := read name in
  let logs_path := join sys (logs_dir self) bundle_id in
  let alt_logs_path := join sys (logs_dir self) name in
  let* acc := on_world (add_if_exists logs_path (0, [])) in
  let* (total_logs_size, log_locations) :=
    on_world (add_if_exists alt_logs_path acc) in
  let crash_logs_dir :=
    join sys (join sys (library_dir self) "Logs") "DiagnosticReports" in
  let* there := on_world (os_path_exists sys crash_logs_dir) in
  (if there then
     let* listing := on_world (os_listdir sys crash_logs_dir) in
     let* (crash_size, crash_paths) :=
       on_world (crash_files crash_logs_dir name listing (0, [])) in
     if bool_decide (0 < crash_size) then
       record "crashes" crash_size (Several crash_paths)
     else ret tt
   else ret tt);;
  if bool_decide (0 < total_logs_size) then
    record "logs" total_logs_size (Several log_locations)
  else ret tt.

(** The loop over [os.listdir(self.containers_dir)]. *)
Fixpoint container_dirs (self : AppDiskAnalyzer) (bundle_id : string)
    (container_path : Path) (listing : list string) (acc : Z * list Path)
    : M World (Z * list Path) :=
  match listing with
  | [] => ret acc
  | dirname :: rest =>
      if Str.startswith dirname (bundle_id +:+ ".") then
        let path := join sys (containers_dir self) dirname in
        let* is_dir := os_path_isdir sys path in
        if is_dir && bool_decide (path <> container_path) then
          let* size := _get_directory_size path in
          container_dirs self bundle_id container_path rest
            (acc.1 + size, acc.2 ++ [path])
        else container_dirs self bundle_id container_path rest acc
      else container_dirs self bundle_id container_path rest acc
  end.

Definition _find_containers (self : AppDiskAnalyzer) (bundle_id : string)
    : M (World * report) unit :=
  let* there := on_world (os_path_exists sys (containers_dir self)) in
  if negb there then ret tt
  else
    let container_path := join sys (containers_dir self) bundle_id in
    let* acc := on_world (add_if_exists container_path (0, [])) in
    let* listing := on_world (os_listdir sys (containers_dir self)) in
    let* (total_container_size, container_locations) :=
      on_world (container_dirs self bundle_id container_path listing acc) in
    if bool_decide (0 < total_container_size) then
      record "containers" total_container_size (Several container_locations)
    else ret tt.

Definition _find_saved_state (self : AppDiskAnalyzer) (bundle_id : string)
    : M (World * report) unit :=
  let* there := on_world (os_path_exists sys (saved_app_state_dir self)) in
  if negb there then ret tt
  else
    let saved_state_path :=
      join sys (saved_app_state_dir self) (bundle_id +:+ ".savedState") in
    let* there := on_world (os_path_exists sys saved_state_path) in
    if there then
      let* size := on_world (_get_directory_size saved_state_path) in
      record "saved_state" size (One saved_state_path)
    else ret tt.

(** The end of [_analyze_single_app]: the formatted total, and the
    percentages when the total is positive. *)
Definition finish (result : report) : report :=
  {| name := name result;
     bundle_id := bundle_id result;
     path := path result;
     sizes := sizes result;
     sizes_formatted := sizes_formatted result;
     total_size := total_size result;
     locations := locations result;
     total_size_formatted := Some (format_size (total_size result));
     percentages :=
       let total_size := total_size result in
       if bool_decide (0 < total_size)
       then Some ((fun size => percentage size total_size) <$> sizes result)
       else None |}.

(** [_analyze_single_app(app_path)] *)
Definition _analyze_single_app (self : AppDiskAnalyzer) (app_path : Path)
    : M World (option report) :=
  let* there := os_path_exists sys app_path in
  if negb there then ret None
  else
    let app_name := Str.replace (basename sys app_path) ".app" "" in
    let* bundle_id := _get_bundle_id app_path in
    let bundle_id :=
      match bundle_id with
      | Some id =>
          if bool_decide (id = "")
          then "com.unknown." +:+ Str.replace (lower app_name) " " ""
          else id
      | None => "com.unknown." +:+ Str.replace (lower app_name) " " ""
      end in
    let* app_bundle_size :=
      try_except (_get_directory_size app_path) any_Exception (ret 0) in
    let result :=
      {| name := app_name;
         bundle_id := bundle_id;
         path := app_path;
         sizes := {[ "app" := app_bundle_size ]};
         sizes_formatted := {[ "app" := format_size app_bundle_size ]};
         total_size := app_bundle_size;
         locations := {[ "app" := One app_path ]};
         total_size_formatted := None;
         percentages := None |} in
    fun w =>
      let '((w', result), _) :=
        try_except
          (_find_app_support_files self bundle_id;;
           _find_cache_files self bundle_id;;
           _find_preferences self bundle_id;;
           _find_logs self bundle_id;;
           _find_containers self bundle_id;;
           _find_saved_state self bundle_id)
          any_Exception
          (ret tt)
          (w, result) in
      (w', Ret (Some (finish result))).

(** The sum of the sizes a report records. *)
Definition recorded_total (sizes : gmap string Z) : Z :=
  map_fold (fun _ size total => size + total) 0 sizes.


Definition aggregated : list string :=
  ["cache"; "preferences"; "logs"; "containers"; "crashes"].

(** What holds of the [result] dict all along, [keys] being the categories
    that may have been recorded so far. *)
Definition consistent (keys : list string) (result : report) : Prop :=
  total_size result = recorded_total (sizes result)
  /\ is_Some (sizes result !! "app")
  /\ (forall key size,
        sizes result !! key = Some size ->
        key ∈ keys /\ (key ∈ aggregated -> 0 < size))
  /\ dom (locations result) = dom (sizes result).

(** The same, as a predicate on the world and the dict together. *)
Definition kept (keys : list string) : World * report -> Prop :=
  fun s => consistent keys s.2.

(** The paths of a location. *)
Definition paths_of (where_ : location) : list Path :=
  match where_ with
  | One path => [path]
  | Several paths => paths
  end.

(** A path was there during a run that started in [w]: in a state the
    world came to, [os.stat] answered for it, or [os.listdir] of a
    directory gave the name it is made of. *)
Definition seen (w : World) (p : Path) : Prop :=
  exists w0,
    after sys w w0
    /\ ((exists st, (sys_stat sys p w0).2 = inr st)
        \/ exists directory names name,
             (sys_listdir sys directory w0).2 = inr names
             /\ name ∈ names
             /\ p = join sys directory name).

(** Every location of the dict names a path, and only paths that were
    there. *)
Definition located (w : World) (result : report) : Prop :=
  forall key where_,
    locations result !! key = Some where_ ->
    paths_of where_ <> [] /\ Forall (seen w) (paths_of where_).

End Analyzer.

Arguments report : clear implicits.
Arguments location : clear implicits.
Arguments AppDiskAnalyzer : clear implicits.

(** The analyzer of a user whose home directory is the root of the disk. *)
Definition at_home : AppDiskAnalyzer Disk.path :=
  {| library_dir := ["Library"];
     app_support_dir := ["Library"; "Application Support"];
     caches_dir := ["Library"; "Caches"];
     containers_dir := ["Library"; "Containers"];
     preferences_dir := ["Library"; "Preferences"];
     logs_dir := ["Library"; "Logs"];
     saved_app_state_dir := ["Library"; "Saved Application State"] |}.

(** Stand-ins for the two floating-point computations where their values
    do not matter, exact on integers: a size in bytes, and a share in
    tenths of a percent, rounded half up. *)
Definition bytes (size : Z) : string := pretty size +:+ " B".

Definition tenths_of_percent (size total_size : Z) : Z :=
  (2000 * size + total_size) / (2 * total_size).

(** An application without Info.plist has no bundle identifier. *)
Definition no_bundle_id : Disk.path -> M Disk.disk (option string) :=
  fun _ => ret None.

End Analyzer.

(* ===================================================================== *)
(** ** cleaners/k8s.py: discovery *)
(* ===================================================================== *)

Module K8sDiscovery.

Import K8s.

Section Discovery.

Context {Cluster : Type}.
Variable run_command : string -> Z -> Cluster -> Cluster * result (option string).

(** The four queries parse the JSON that [kubectl] prints; each returns the
    dicts of the resources it selected, without a ["type"] key. They are
    taken as they come. *)
Variable _get_completed_pods : KubernetesCleaner -> Z -> M (shell Cluster) (list item).
Variable _get_old_replicasets : KubernetesCleaner -> Z -> M (shell Cluster) (list item).
Variable _get_unused_configmaps : KubernetesCleaner -> Z -> M (shell Cluster) (list item).
Variable _get_unused_secrets : KubernetesCleaner -> Z -> M (shell Cluster) (list item).

Definition _get_current_context (self : KubernetesCleaner)
    : M (shell Cluster) (option string) :=
  _run_kubectl run_command self "kubectl config current-context" None.

(** [resource["type"] = kind] *)
Definition set_type (kind : string) (resource : item) : item :=
  {| type := kind;
     namespace := namespace resource;
     name := name resource;
     age_days := age_days resource;
     phase := phase resource |}.

(** [find_cleanable_items(days_threshold)] *)
Definition find_cleanable_items (self : KubernetesCleaner) (days_threshold : Z)
    : M (shell Cluster) (list item) :=
  let* current_context := _get_current_context self in
  if negb (truthy current_context) then ret []
  else
    let* completed_pods := _get_completed_pods self days_threshold in
    let* old_replicasets := _get_old_replicasets self days_threshold in
    let* unused_configmaps := _get_unused_configmaps self days_threshold in
    let* unused_secrets := _get_unused_secrets self days_threshold in
    ret (map (set_type "pod") completed_pods
         ++ map (set_type "replicaset") old_replicasets
         ++ map (set_type "configmap") unused_configmaps
         ++ map (set_type "secret") unused_secrets).

End Discovery.

(** A cluster with one finished pod and one stale secret, for the
    scenarios. *)
Definition finished_pod : item :=
  {| type := ""; namespace := "batch"; name := "nightly-report-5d9f";
     age_days := 90; phase := Some "Failed" |}.

Definition stale_secret : item :=
  {| type := ""; namespace := "batch"; name := "registry-token";
     age_days := 200; phase := None |}.

(** A cluster that is up: the health endpoint answers "ok", every other
    command prints a line, and all of them are remembered. *)
Definition healthy
    : string -> Z -> list string -> list string * result (option string) :=
  fun command _ done =>
    (done ++ [command],
     Ret (Some (if bool_decide (command = "kubectl get --raw /healthz")
                then "ok" else "done"))).

(** A machine without [kubectl]. *)
Definition no_kubectl
    : string -> Z -> list string -> list string * result (option string) :=
  fun command _ done => (done ++ [command], Ret None).

(** A machine whose working directory was removed: [run_command] raises
    before it runs anything. *)
Definition no_cwd
    : string -> Z -> list string -> list string * result (option string) :=
  fun _ _ done => (done, Raise (OSError FileNotFoundError)).

End K8sDiscovery.

(* ===================================================================== *)
(** ** cleaners/maven.py: the Maven provider *)
(* ===================================================================== *)

Module Maven.

Import Os Utils.

(** An artifact as [find_cleanable_items] describes it: the dict with the
    keys ["path"], ["rel_path"], ["size"] and ["human_size"]. *)
Record item (Path : Type) : Type := {
  path : Path;
  rel_path : string;
  size : Z;
  human_size : string
}.
Arguments path {Path} _.
Arguments rel_path {Path} _.
Arguments size {Path} _.
Arguments human_size {Path} _.

(** What the provider reads from its environment: the value of [M2_HOME]
    when it is set and not empty, and what "~/.m2/repository" expands to. *)
Record MavenCleaner (Path : Type) : Type := {
  M2_HOME : option Path;
  default_path : Path
}.
Arguments M2_HOME {Path} _.
Arguments default_path {Path} _.

Section Maven.

Context {World Path : Type}.
Variable sys : system World Path.

(** [human_readable_size] formats a float, [os.path.relpath] works on the
    text of two paths, and [shutil.rmtree] deletes a tree or raises: the
    three are taken as they come. *)
Variable human_readable_size : Z -> string.
Variable os_path_relpath : Path -> Path -> string.
Variable shutil_rmtree : Path -> M World unit.

(** [get_maven_repo_path()] *)
Definition get_maven_repo_path (self : MavenCleaner Path) : M World (option Path) :=
  let* custom :=
    match M2_HOME self with
    | Some m2_home =>
        let custom_path := join sys m2_home "repository" in
        let* there := os_path_exists sys custom_path in
        ret (if there then Some custom_path else None)
    | None => ret None
    end in
  match custom with
  | Some custom_path => ret (Some custom_path)
  | None =>
      let* there := os_path_exists sys (default_path self) in
      ret (if there then Some (default_path self) else None)
  end.

(** [check_prerequisites()] *)
Definition check_prerequisites (self : MavenCleaner Path) : M World bool :=
  let* repo_path := get_maven_repo_path self in
  match repo_path with
  | None => ret false
  | Some _ => ret true
  end.

(** [any(f.endswith(".jar") or f == "pom.xml" for f in files)] *)
Definition is_artifact_root (files : list string) : bool :=
  existsb (fun f => Str.endswith f ".jar" || bool_decide (f = "pom.xml")) files.

(** The loop [for root, dirs, files in os.walk(repo_path)], with the locals
    [unused_artifacts] and [total_size] as accumulators; [total_size] only
    feeds the closing log line. *)
Fixpoint scan (repo_path : Path) (days_threshold : Z)
    (entries : list (walk_entry Path)) (unused_artifacts : list (item Path))
    (total_size : Z) : M World (list (item Path)) :=
  match entries with
  | [] => ret unused_artifacts
  | (root, dirs, files) :: rest =>
      if is_artifact_root files then
        let* unused := is_unused sys root days_threshold in
        if unused then
          let* size := get_size sys root in
          scan repo_path days_threshold rest
            (unused_artifacts
             ++ [{| path := root;
                    rel_path := os_path_relpath root repo_path;
                    size := size;
                    human_size := human_readable_size size |}])
            (total_size + size)
        else scan repo_path days_threshold rest unused_artifacts total_size
      else scan repo_path days_threshold rest unused_artifacts total_size
  end.

(** [find_cleanable_items(days_threshold)] *)
Definition find_cleanable_items (self : MavenCleaner Path) (days_threshold : Z)
    : M World (list (item Path)) :=
  let* repo_path := get_maven_repo_path self in
  match repo_path with
  | None => ret []
  | Some repo_path =>
      let* entries := os_walk sys repo_path in
      scan repo_path days_threshold entries [] 0
  end.

(** [clean_item(item, dry_run)] *)
Definition clean_item (self : MavenCleaner Path) (item : item Path) (dry_run : bool)
    : M World bool :=
  if dry_run then ret true
  else
    try_except
      (shutil_rmtree (path item);; ret true)
      any_Exception
      (ret false).

(** [item_to_str(item)] *)
Definition item_to_str (item : item Path) : string :=
  rel_path item +:+ " (" +:+ human_size item +:+ ")".

(** The provider as the workflow of core/cleaner.py sees it. *)
Definition as_Cleaner (self : MavenCleaner Path) : Core.Cleaner (item Path) World := {|
  Core.name := "maven";
  Core.check_prerequisites := check_prerequisites self;
  Core.find_cleanable_items := find_cleanable_items self;
  Core.clean_item := clean_item self;
  Core.item_to_str := Some (Core.formats item_to_str)
|}.

End Maven.

(** *** The provider on a disk *)

Import Disk.

(** What [is_unused] comes to on a disk that stays as it is, on a machine
    set to UTC: the path can be examined, its latest time and the present
    moment can be converted, the threshold date is a date, and the first is
    before the last. *)
Definition unused_on (root : node) (now : Z) (days_threshold : Z) (p : Disk.path)
    : bool :=
  match stat root p with
  | inr stat_info =>
      let last := Z.max (Z.max (st_atime stat_info) (st_mtime stat_info))
                        (st_ctime stat_info) in
      match utc last, utc now with
      | Some last_access_date, Some today =>
          bool_decide (Z.abs days_threshold <= timedelta_max_days)
          && is_datetime (today - days_threshold * usec_per_day)
          && bool_decide (last_access_date < today - days_threshold * usec_per_day)
      | _, _ => false
      end
  | inl _ => false
  end.

Definition exists_on (root : node) (p : Disk.path) : bool :=
  match stat root p with inr _ => true | inl _ => false end.

(** The repository [get_maven_repo_path] settles on. *)
Definition repository_on (root : node) (self : MavenCleaner Disk.path)
    : option Disk.path :=
  match M2_HOME self with
  | Some m2_home =>
      if exists_on root (m2_home ++ ["repository"])
      then Some (m2_home ++ ["repository"])
      else if exists_on root (default_path self) then Some (default_path self)
      else None
  | None =>
      if exists_on root (default_path self) then Some (default_path self)
      else None
  end.

(** The bytes one can reach from a path. *)
Definition bytes_on (root : node) (p : Disk.path) : Z :=
  match resolve root p with
  | inr n => reachable_bytes n
  | inl _ => 0
  end.

(** The directories of a walk that hold a jar or a [pom.xml] and have not
    been touched since the threshold date. *)
Definition unused_artifact_roots (root : node) (now : Z) (days_threshold : Z)
    (entries : list (walk_entry Disk.path)) : list Disk.path :=
  map (fun e => e.1.1)
      (List.filter
         (fun e => is_artifact_root e.2 && unused_on root now days_threshold e.1.1)
         entries).

(** A repository in the current directory, and the text of a path relative
    to it. *)
Definition here : MavenCleaner Disk.path :=
  {| M2_HOME := None; default_path := [] |}.

Definition slashes (p repo_path : Disk.path) : string :=
  String.concat "/" (List.skipn (length repo_path) p).

Definition bytes_text (size : Z) : string := pretty size +:+ " bytes".

End Maven.

(* ===================================================================== *)
(** ** cleaners/brew.py: the workflow of the Homebrew provider *)
(* ===================================================================== *)

Module Brew.

Section Brew.

(** The items are dicts with a ["type"] key; [item_type] reads it. The four
    methods the workflow calls are the provider's, as in core/cleaner.py. *)
Context {Item W : Type}.
Variable item_type : Item -> string.

Local Abbreviation run := (Core.run Item W).

(** One of the three loops [for item in outdated_items] ...: the item is
    logged, then [clean_item(item, dry_run)] is called, outside any [try] of
    its own, and counted when it returns true. *)
Fixpoint process (self : Core.Cleaner Item W) (dry_run : bool)
    (items : list Item) (success_count : Z) : M run Z :=
  match items with
  | [] => ret success_count
  | item :: rest =>
      let* cleaned :=
        Core.call (Core.Call_clean_item item dry_run)
                  (Core.clean_item self item dry_run) in
      process self dry_run rest
        (if cleaned then success_count + 1 else success_count)
  end.

(** [[item for item in cleanable_items if item["type"] == kind]] *)
Definition of_type (kind : string) (cleanable_items : list Item) : list Item :=
  List.filter (fun item => bool_decide (item_type item = kind)) cleanable_items.

(** [HomebrewCleaner.clean(days_threshold, dry_run, args)]: the prerequisites
    are checked outside the [try], everything else inside. The sizes that
    are added up go to the log only. *)
Definition clean (self : Core.Cleaner Item W) (days_threshold : Z)
    (dry_run : bool) (args : option (list string)) : M run bool :=
  if K8s.wants_help args then ret true
  else
    let* prerequisites :=
      Core.call Core.Call_check_prerequisites (Core.check_prerequisites self) in
    if negb prerequisites then ret false
    else
      try_except
        (let* cleanable_items :=
           Core.call (Core.Call_find_cleanable_items days_threshold)
                     (Core.find_cleanable_items self days_threshold) in
         match cleanable_items with
         | [] => ret true
         | _ :: _ =>
             let outdated_items := of_type "outdated" cleanable_items in
             let download_items := of_type "download" cleanable_items in
             let keg_items := of_type "keg" cleanable_items in
             let* success_count := process self dry_run outdated_items 0 in
             let* success_count := process self dry_run download_items success_count in
             let* success_count := process self dry_run keg_items success_count in
             ret true
         end)
        any_Exception
        (ret false).

(** The order in which a run goes through what discovery returned. *)
Definition batches (cleanable_items : list Item) : list Item :=
  of_type "outdated" cleanable_items
  ++ of_type "download" cleanable_items
  ++ of_type "keg" cleanable_items.

End Brew.

(** A provider whose [clean_item] fails on everything, one that raises on
    the item "wget", and four items for them. *)
Definition refuses_all : Core.Cleaner (string * string) unit := {|
  Core.name := "brew";
  Core.check_prerequisites := ret true;
  Core.find_cleanable_items := fun _ =>
    ret [("keg", "openssl"); ("cask", "firefox"); ("outdated", "wget");
         ("download", "wget.tar.gz")];
  Core.clean_item := fun _ _ => ret false;
  Core.item_to_str := Some (Core.formats snd)
|}.

Definition raises_on_wget : Core.Cleaner (string * string) unit := {|
  Core.name := "brew";
  Core.check_prerequisites := ret true;
  Core.find_cleanable_items := fun _ =>
    ret [("keg", "openssl"); ("cask", "firefox"); ("outdated", "wget");
         ("download", "wget.tar.gz")];
  Core.clean_item := fun item _ =>
    if bool_decide (item.2 = "wget") then raise (Exception "brew upgrade failed")
    else ret true;
  Core.item_to_str := Some (Core.formats snd)
|}.

End Brew.

(* ===================================================================== *)
(** ** cli.py: running the cleaners *)
(* ===================================================================== *)

Module Cli.

Section Cli.

(** A cleaner class: its constructor, and the [clean] method of its
    instances. *)
Context {World : Type}.

Record cleaner_class : Type := {
  Instance : Type;
  construct : M World Instance;
  clean : Instance -> Z -> bool -> option (list string) -> M World bool
}.

(** [CLEANER_REGISTRY]: a dict, in the order of insertion. *)
Variable CLEANER_REGISTRY : list (string * cleaner_class).

(** [get_available_cleaners().get(cleaner_name)] *)
Definition registry_get (cleaner_name : string) : option cleaner_class :=
  snd <$> List.find (fun entry => bool_decide (entry.1 = cleaner_name)) CLEANER_REGISTRY.

(** [run_cleaner(cleaner_name, days_threshold, dry_run, args)] *)
Definition run_cleaner (cleaner_name : string) (days_threshold : Z)
    (dry_run : bool) (args : option (list string)) : M World bool :=
  match registry_get cleaner_name with
  | None => ret false
  | Some cleaner_class =>
      let* cleaner := construct cleaner_class in
      try_except
        (clean cleaner_class cleaner days_threshold dry_run args)
        any_Exception
        (ret false)
  end.




(** Every registered class can be instantiated. *)
Definition constructors_return : Prop :=
  forall cleaner_name cls w,
    registry_get cleaner_name = Some cls ->
    is_Ret (construct cls w).2 = true.

End Cli.

Arguments cleaner_class : clear implicits.

(** Three classes over a log of what was run: one whose [clean] succeeds,
    one whose [clean] fails, one whose [clean] raises. *)
Definition logging (name : string) (outcome : M (list string) bool)
    : cleaner_class (list string) := {|
  Instance := unit;
  construct := ret tt;
  clean := fun _ _ _ _ => modify (fun log => log ++ [name]);; outcome
|}.

Definition three_cleaners : list (string * cleaner_class (list string)) :=
  [("maven", logging "maven" (ret true));
   ("brew", logging "brew" (raise (Exception "brew exploded")));
   ("k8s", logging "k8s" (ret true))].

End Cli.

(* ===================================================================== *)
(** ** cleaners/git.py: the Git provider *)
(* ===================================================================== *)

Module Git.

(** The keys of an item dict that [clean_item] and [item_to_str] read.
    Discovery sets ["type"] to "repo" or "branch"; a repository has a
    ["path"] and may have ["has_branches"], a branch has a ["repo_path"], a
    ["repo_name"] and ["is_merged"]; the two keys read with [get] count as
    false when they are missing. *)
Record item : Type := {
  type : string;
  name : string;
  path : string;
  repo_path : string;
  repo_name : string;
  days_inactive : Z;
  is_merged : bool;
  has_branches : bool
}.

(** The fields [__init__] sets. *)
Record GitCleaner : Type := {
  target_repos : option (list string);
  clean_unmerged : bool
}.

(** [GitCleaner()], as the command line builds it. *)
Definition __init__ : GitCleaner :=
  {| target_repos := None; clean_unmerged := false |}.

Section Git.

(** Whatever a shell command can read and change: the machine with its
    repositories. *)
Context {Machine : Type}.

(** [run_command(command, cwd, timeout)] of core/utils.py: the stripped
    output of the command run in [cwd], or [None] when it fails, times out
    or cannot be started. *)
Variable run_command :
  string -> option string -> Z -> Machine -> Machine * option string.

(** The machine together with the commands issued so far and the directory
    each was run in, oldest first. *)
Record shell : Type := {
  machine : Machine;
  issued : list (string * option string)
}.

Definition run (command : string) (cwd : option string) : M shell (option string) :=
  fun s =>
    let '(m, output) := run_command command cwd 30 (machine s) in
    ({| machine := m; issued := issued s ++ [(command, cwd)] |}, Ret output).

(** [clean_item(item, dry_run)] *)
Definition clean_item (self : GitCleaner) (item : item) (dry_run : bool)
    : M shell bool :=
  if dry_run then ret true
  else if bool_decide (type item = "branch") then
    if is_merged item then
      let* result := run ("git branch -d " +:+ name item) (Some (repo_path item)) in
      match result with
      | None => ret false
      | Some _ => ret true
      end
    else if clean_unmerged self then
      let* result := run ("git branch -D " +:+ name item) (Some (repo_path item)) in
      match result with
      | None => ret false
      | Some _ => ret true
      end
    else ret false
  else ret true.

(** [item_to_str(item)] *)
Definition item_to_str (item : item) : string :=
  if bool_decide (type item = "branch") then
    let merge_status := if is_merged item then "merged" else "not merged" in
    "Branch: " +:+ name item +:+ " in " +:+ repo_name item
      +:+ " (inactive for " +:+ pretty (days_inactive item) +:+ " days, "
      +:+ merge_status +:+ ")"
  else
    let branch_info :=
      if has_branches item then "has unused branches" else "no unused branches" in
    "Repository: " +:+ name item +:+ " (" +:+ path item +:+ ") "
      +:+ "(inactive for " +:+ pretty (days_inactive item) +:+ " days, "
      +:+ branch_info +:+ ")".

(** [check_prerequisites] and [find_cleanable_items] look for [git] and for
    repositories and parse what [git] prints; the statements below hold
    whatever they do, so they are left open. *)
Variable check_prerequisites : GitCleaner -> M shell bool.
Variable find_cleanable_items : GitCleaner -> Z -> M shell (list item).

(** The provider as the workflow of core/cleaner.py sees it. *)
Definition as_Cleaner (self : GitCleaner) : Core.Cleaner item shell := {|
  Core.name := "git";
  Core.check_prerequisites := check_prerequisites self;
  Core.find_cleanable_items := find_cleanable_items self;
  Core.clean_item := clean_item self;
  Core.item_to_str := Some (Core.formats item_to_str)
|}.

(** [str(item)] of the Python runtime, which [_log_item] falls back on
    for a provider without [item_to_str]. *)
Variable py_str : item -> string.

(** [GitCleaner.clean(days_threshold, dry_run, args)] *)
Definition clean (self : GitCleaner) (days_threshold : Z) (dry_run : bool)
    (args : option (list string)) : M (Core.run item shell) bool :=
  if K8s.wants_help args then ret true
  else Core.clean py_str (as_Cleaner self) days_threshold dry_run.

(** The branches a real run has a command for, and the command. *)
Definition deletable (self : GitCleaner) (item : item) : bool :=
  bool_decide (type item = "branch") && (is_merged item || clean_unmerged self).

Definition delete_command (item : item) : string * option string :=
  ("git branch " +:+ (if is_merged item then "-d " else "-D ") +:+ name item,
   Some (repo_path item)).

End Git.

Arguments shell : clear implicits.

(** A machine on which every command succeeds, a stale repository and two
    of its branches. *)
Definition agreeable : string -> option string -> Z -> unit -> unit * option string :=
  fun _ _ _ _ => (tt, Some "").

Definition old_project : item :=
  {| type := "repo"; name := "old-project"; path := "/home/me/code/old-project";
     repo_path := ""; repo_name := ""; days_inactive := 400;
     is_merged := false; has_branches := true |}.

Definition merged_branch : item :=
  {| type := "branch"; name := "fix-typo"; path := "";
     repo_path := "/home/me/code/old-project"; repo_name := "old-project";
     days_inactive := 380; is_merged := true; has_branches := false |}.

Definition unmerged_branch : item :=
  {| type := "branch"; name := "experiment"; path := "";
     repo_path := "/home/me/code/old-project"; repo_name := "old-project";
     days_inactive := 390; is_merged := false; has_branches := false |}.

End Git.

(* ===================================================================== *)
(** ** cleaners/git.py: the search for repositories *)
(* ===================================================================== *)

Module GitRepos.

Import Os.

Section Search.

Context {World Path : Type}.
Variable sys : system World Path.

Local Abbreviation on_world := (Analyzer.on_world (World := World)).

(** [_is_git_repo(path)] *)
Definition _is_git_repo (path : Path) : M World bool :=
  os_path_isdir sys (join sys path ".git").

(** [repos.append(path)] and [repos.extend(paths)]: the local [repos]
    lives next to the world, so that what was found is still there when an
    exception ends the search of a directory. *)
Definition extend (paths : list Path) : M (World * list Path) unit :=
  modify (fun '(w, repos) => (w, repos ++ paths)).

(** The loop [for item in os.listdir(start_dir)]; [search] is
    [_find_git_repos] with the reduced depth. *)
Fixpoint search_entries (search : Path -> M World (list Path))
    (start_dir : Path) (entries : list string) : M (World * list Path) unit :=
  match entries with
  | [] => ret tt
  | item :: rest =>
      let item_path := join sys start_dir item in
      if Str.startswith item "." then search_entries search start_dir rest
      else
        let* is_dir := on_world (os_path_isdir sys item_path) in
        if negb is_dir then search_entries search start_dir rest
        else
          let* is_repo := on_world (_is_git_repo item_path) in
          (if is_repo then extend [item_path]
           else
             let* found := on_world (search item_path) in
             extend found);;
          search_entries search start_dir rest
  end.

(** [_find_git_repos(start_dir, max_depth)], by recursion on the depth
    that is left: [0] stands for every [max_depth <= 0]. *)
Fixpoint _find_git_repos (start_dir : Path) (max_depth : nat)
    : M World (list Path) :=
  match max_depth with
  | O => ret []
  | S depth =>
      fun w =>
        match
          try_except
            (let* is_repo := on_world (_is_git_repo start_dir) in
             if is_repo then extend [start_dir]
             else
               let* entries := on_world (os_listdir sys start_dir) in
               search_entries (fun item_path => _find_git_repos item_path depth)
                              start_dir entries)
            any_OSError
            (ret tt)
            (w, [])
        with
        | ((w', repos), Ret _) => (w', Ret repos)
        | ((w', _), Raise e) => (w', Raise e)
        end
  end.

End Search.

(** *** The search on a disk *)

Import Disk.

(** A directory with a [.git] directory in it. *)
Definition is_repo_on (root : node) (p : Disk.path) : bool :=
  match stat root (p ++ [".git"]) with
  | inr stat_info =>
      match st_kind stat_info with Directory => true | _ => false end
  | inl _ => false
  end.

(** What can be said of a path the search lists: it is a repository, at
    most [max_depth] names below [start_dir], none of them hidden, and no
    directory on the way to it, [start_dir] included, is a repository. *)
Definition listed (root : node) (start_dir : Disk.path) (max_depth : nat)
    (p : Disk.path) : Prop :=
  exists names,
    p = start_dir ++ names
    /\ (length names <= max_depth)%nat
    /\ Forall (fun name => Str.startswith name "." = false) names
    /\ is_repo_on root p = true
    /\ forall k, (k < length names)%nat ->
                 is_repo_on root (start_dir ++ take k names) = false.

(** A code directory: a repository with a vendored repository inside, a
    plain directory with a repository two levels down, and a repository in
    a hidden directory. *)
Definition code : node :=
  dir [("code",
        dir [("app", dir [(".git", dir []);
                          ("vendor", dir [("lib", dir [(".git", dir [])])])]);
             ("notes", dir [("2023", dir [("thesis", dir [(".git", dir [])])])]);
             (".cache", dir [("tool", dir [(".git", dir [])])]);
             ("TODO", file 10)])].

End GitRepos.

(* ===================================================================== *)
(** ** analyzers/app_analyzer.py: [analyze] for one application *)
(* ===================================================================== *)

Module Analyze.

Import Os Analyzer.

(** [s.strip()], on the ASCII characters: the blank, the five controls
    from tab to carriage return, and the four separators. *)
Definition is_space (c : Ascii.ascii) : bool :=
  let n := Ascii.nat_of_ascii c in
  bool_decide (9 <= n <= 13)%nat || bool_decide (28 <= n <= 32)%nat.

Fixpoint lstrip (s : string) : string :=
  match s with
  | String c rest => if is_space c then lstrip rest else s
  | EmptyString => EmptyString
  end.

Fixpoint rstrip (s : string) : string :=
  match s with
  | String c rest =>
      match rstrip rest with
      | EmptyString => if is_space c then EmptyString else String c EmptyString
      | kept => String c kept
      end
  | EmptyString => EmptyString
  end.

Definition strip (s : string) : string := lstrip (rstrip s).

Section Analyze.

Context {World Path : Type} `{EqDecision Path}.
Variable sys : system World Path.
Variable format_size : Z -> string.
Context {float : Type}.
Variable percentage : Z -> Z -> float.
Variable lower : string -> string.
Variable _get_bundle_id : Path -> M World (option string).

(** [run_command(command, timeout=timeout)] of core/utils.py: what the
    command printed, or [None] when it failed or ran out of time. Called
    without a working directory it asks for the current one before its
    [try], for its first log line, and raises when that one is gone. *)
Variable run_command : string -> Z -> M World (option string).

(** The path that a string given on the command line names. *)
Variable as_path : string -> Path.

(** The two directories of [__init__] in which applications are looked
    for. *)
Record Applications : Type := {
  applications_dir : Path;
  user_applications_dir : Path
}.

(** [check_prerequisites()] *)
Definition check_prerequisites (dirs : Applications) : M World bool :=
  let* platform_check := run_command "uname" 5 in
  if K8s.truthy platform_check
     && negb (bool_decide (strip <$> platform_check = Some "Darwin"))
  then ret false
  else
    let* there := os_path_exists sys (applications_dir dirs) in
    if negb there then ret false else ret true.

(** [os.listdir(directory)] with the handler of [_find_app_by_name]:
    [except (PermissionError, FileNotFoundError): entries = []]. *)
Definition entries_of (directory : Path) : M World (list string) :=
  try_except (os_listdir sys directory) FileNotFound_or_Permission (ret []).

(** The test of the loop [for entry in entries] of [_find_app_by_name]. *)
Definition is_match (app_name app_name_with_ext entry : string) : bool :=
  bool_decide (lower entry = lower app_name_with_ext)
  || bool_decide (lower entry = lower app_name +:+ ".app").

(** The loop, which returns at the first entry that passes the test. *)
Definition first_match (directory : Path) (app_name app_name_with_ext : string)
    (entries : list string) : option Path :=
  join sys directory
    <$> List.find (is_match app_name app_name_with_ext) entries.

(** The name without ".app" and the name with it. The four characters
    that [app_name[:-4]] takes off are ASCII, as their lower case is, and
    so four bytes. *)
Definition names_of (app_name : string) : string * string :=
  if negb (Str.endswith (lower app_name) ".app")
  then (app_name, app_name +:+ ".app")
  else (String.substring 0 (String.length app_name - 4) app_name, app_name).

(** [_find_app_by_name(app_name)] *)
Definition _find_app_by_name (dirs : Applications) (app_name : string)
    : M World (option Path) :=
  let '(app_name, app_name_with_ext) := names_of app_name in
  let exact_path := join sys (applications_dir dirs) app_name_with_ext in
  let* there := os_path_exists sys exact_path in
  if there then ret (Some exact_path)
  else
    let* entries := entries_of (applications_dir dirs) in
    match first_match (applications_dir dirs) app_name app_name_with_ext entries with
    | Some match_path => ret (Some match_path)
    | None =>
        let* there := os_path_exists sys (user_applications_dir dirs) in
        if there then
          let exact_path := join sys (user_applications_dir dirs) app_name_with_ext in
          let* there := os_path_exists sys exact_path in
          if there then ret (Some exact_path)
          else
            let* entries := entries_of (user_applications_dir dirs) in
            ret (first_match (user_applications_dir dirs) app_name
                   app_name_with_ext entries)
        else ret None
    end.

(** The text under ["error"], by the message it is made from. *)
Inductive error_text : Type :=
| Prerequisites_not_met
| Could_not_find_application (target : string)
| Could_not_analyze_application (app_path : Path)
| Error_analyzing (app_path : Path) (e : exn)
| Unexpected_error (e : exn).

(** The dict [analyze] returns; a failure has no ["total_size"]. *)
Record analysis : Type := {
  success : bool;
  error : option error_text;
  apps : list (report Path float);
  total_size : option Z;
  total_size_formatted : option string
}.

Definition failure (text : error_text) : analysis :=
  {| success := false; error := Some text; apps := [];
     total_size := None; total_size_formatted := None |}.

(** [analyze(target)] for a [target] that is not [None]: one application,
    given by its path or by its name. *)
Definition analyze (self : AppDiskAnalyzer Path) (dirs : Applications)
    (target : string) : M World analysis :=
  let* prerequisites := check_prerequisites dirs in
  if negb prerequisites then ret (failure Prerequisites_not_met)
  else
    let* outcome :=
      attempt
        (let* there := os_path_exists sys (as_path target) in
         let* app_path :=
           if there && Str.endswith target ".app" then ret (Some (as_path target))
           else _find_app_by_name dirs target in
         match app_path with
         | None => ret (failure (Could_not_find_application target))
         | Some app_path =>
             let* analyzed :=
               attempt (_analyze_single_app sys format_size percentage lower
                          _get_bundle_id self app_path) in
             match analyzed with
             | Ret (Some app_info) =>
                 ret {| success := true;
                        error := None;
                        apps := [app_info];
                        total_size := Some (Analyzer.total_size app_info);
                        total_size_formatted :=
                          Some (format_size (Analyzer.total_size app_info)) |}
             | Ret None => ret (failure (Could_not_analyze_application app_path))
             | Raise e => ret (failure (Error_analyzing app_path e))
             end
         end) in
    match outcome with
    | Ret result => ret result
    | Raise e => ret (failure (Unexpected_error e))
    end.

End Analyze.

Arguments Applications : clear implicits.
Arguments analysis : clear implicits.
Arguments error_text : clear implicits.



End Analyze.

(* ===================================================================== *)
(** * Properties *)
(* ===================================================================== *)

Section CoreFacts.

Import Core.

Context {Item W : Type}.
Variable py_str : Item -> string.
Implicit Types (self : Cleaner Item W) (r : run Item W) (w : W).

Lemma call_run {A} (e : event Item) (m : M W A) r :
  call e m r =
  ({| world := (m (world r)).1; trace := trace r ++ [e] |}, (m (world r)).2).
Proof.
  unfold call, emit, modify, bind; simpl.
  destruct (m (world r)) as [w a]; reflexivity.
Qed.

Lemma attempt_call_run {A} (e : event Item) (m : M W A) r :
  attempt (call e m) r =
  ({| world := (m (world r)).1; trace := trace r ++ [e] |}, Ret (m (world r)).2).
Proof. unfold attempt. rewrite call_run. reflexivity. Qed.

Lemma _log_item_run self item prefix r text :
  item_str py_str self item (world r) = Ret text ->
  _log_item py_str self item prefix r =
  ({| world := world r;
      trace := trace r ++ [Log_item prefix item (item_line prefix text)] |},
   Ret tt).
Proof. intros Htext. unfold _log_item. rewrite Htext. reflexivity. Qed.

(** [_log_item] inside a [try]: the line is written when [item_to_str]
    returns, and nothing else happens either way. *)
Lemma attempt_log_item_run self item prefix r :
  attempt (_log_item py_str self item prefix) r =
  ({| world := world r;
      trace := trace r ++
        match item_str py_str self item (world r) with
        | Ret text => [Log_item prefix item (item_line prefix text)]
        | Raise _ => []
        end |},
   Ret match item_str py_str self item (world r) with
       | Ret _ => Ret tt
       | Raise e => Raise e
       end).
Proof.
  unfold attempt, _log_item.
  destruct (item_str py_str self item (world r)) as [text|e]; [reflexivity|].
  rewrite app_nil_r. destruct r; reflexivity.
Qed.

Lemma bind_cases {S A B} (m : M S A) (k : A -> M S B) s :
  bind m k s =
  match m s with
  | (s', Ret a) => k a s'
  | (s', Raise e) => (s', Raise e)
  end.
Proof. reflexivity. Qed.

Lemma bind_run {S A B} (m : M S A) (k : A -> M S B) s s' a :
  m s = (s', Ret a) -> bind m k s = k a s'.
Proof. intros H. unfold bind. rewrite H. reflexivity. Qed.

(** The dry-run loop, when [item_to_str] returns on every item: one "Would
    clean" line per item, in order, and the world is left alone. *)
Lemma report_items_run self items texts r :
  Forall2 (fun item text => item_str py_str self item (world r) = Ret text)
          items texts ->
  report_items py_str self items r =
  ({| world := world r;
      trace := trace r ++
        zip_with (fun item text =>
                    Log_item "Would clean" item (item_line "Would clean" text))
                 items texts |},
   Ret tt).
Proof.
  intros Htexts. revert texts r Htexts.
  induction items as [|item rest IH]; intros texts r Htexts.
  - apply Forall2_nil_inv_l in Htexts as ->. cbn.
    unfold ret. rewrite app_nil_r. destruct r; reflexivity.
  - apply Forall2_cons_inv_l in Htexts as (text & texts' & Htext & Hrest & ->).
    cbn [report_items zip_with].
    erewrite bind_run by (apply _log_item_run; exact Htext).
    rewrite (IH texts') by exact Hrest. cbn [world trace].
    rewrite <- app_assoc. reflexivity.
Qed.

(** The dry-run loop in general: it writes "Would clean" lines and nothing
    else, and leaves the world alone, also when an exception ends it. *)
Lemma report_items_trace self items r :
  exists lines,
    (report_items py_str self items r).1
    = {| world := world r; trace := trace r ++ lines |}
    /\ Forall (fun e => match e with
                        | Log_item prefix _ _ => prefix = "Would clean"
                        | _ => False
                        end) lines.
Proof.
  revert r. induction items as [|item rest IH]; intros r.
  - exists []. rewrite app_nil_r. split; [destruct r; reflexivity | constructor].
  - cbn [report_items]. rewrite bind_cases. unfold _log_item at 1.
    destruct (item_str py_str self item (world r)) as [text|e].
    + cbn [emit modify].
      destruct (IH {| world := world r;
                      trace := trace r ++ [Log_item "Would clean" item
                                             (item_line "Would clean" text)] |})
        as (lines & Hrun & Hlines).
      eexists (_ :: lines). rewrite Hrun. cbn [world trace].
      rewrite <- app_assoc. split; [reflexivity|].
      constructor; [reflexivity | exact Hlines].
    + exists []. rewrite app_nil_r. split; [destruct r; reflexivity | constructor].
Qed.

(** Loop invariant of the real run: the accumulator grows by one for every
    call that returned true, whatever the other calls did. *)
Lemma successCount_cons self item rest w :
  successCount self (item :: rest) w =
  (if succeeded (clean_item self item false w).2 then 1 else 0)
  + successCount self rest (clean_item self item false w).1.
Proof.
  unfold successCount. cbn [item_outcomes].
  destruct (clean_item self item false w) as [w' o]. cbn [fst snd].
  destruct (succeeded o) eqn:E.
  - rewrite filter_cons_True by exact E. cbn [length]. lia.
  - rewrite filter_cons_False by congruence. lia.
Qed.

Lemma clean_items_count self items acc r :
  (clean_items py_str self items acc r).2 =
  Ret (acc + successCount self items (world r)).
Proof.
  revert acc r. induction items as [|item rest IH]; intros acc r.
  - cbn. f_equal. unfold successCount. cbn. lia.
  - cbn [clean_items]. erewrite bind_run by apply attempt_call_run.
    rewrite successCount_cons.
    destruct (clean_item self item false (world r)) as [w' [[|]|e]];
      cbn [fst snd succeeded].
    + erewrite bind_run by apply attempt_log_item_run. rewrite IH. cbn [world].
      f_equal. lia.
    + erewrite bind_run by apply attempt_log_item_run. rewrite IH. cbn [world].
      f_equal.
    + rewrite IH. cbn [world]. f_equal.
Qed.

Lemma successCount_pos self items w :
  0 < successCount self items w <-> Ret true ∈ item_outcomes self items w.
Proof.
  revert w. induction items as [|item rest IH]; intros w.
  - unfold successCount. cbn. split; [lia | intros H; inversion H].
  - rewrite successCount_cons. cbn [item_outcomes].
    specialize (IH (clean_item self item false w).1).
    destruct (clean_item self item false w) as [w' o]. cbn [fst snd] in *.
    rewrite elem_of_cons.
    assert (0 <= successCount self rest w') by (unfold successCount; lia).
    destruct o as [[|]|e]; cbn [succeeded].
    + split; [auto | lia].
    + split; [intros; right; apply IH; lia | intros [?|?]; [congruence | apply IH in H0; lia]].
    + split; [intros; right; apply IH; lia | intros [?|?]; [congruence | apply IH in H0; lia]].
Qed.

(** Stepping through the two guarded calls that open [clean]. *)
Lemma clean_after_discovery self days_threshold dry_run w w1 w2 found :
  check_prerequisites self w = (w1, Ret true) ->
  find_cleanable_items self days_threshold w1 = (w2, found) ->
  clean py_str self days_threshold dry_run (start w) =
  let r2 := {| world := w2;
               trace := [Call_check_prerequisites;
                         Call_find_cleanable_items days_threshold] |} in
  match found with
  | Raise _ => (r2, Ret false)
  | Ret [] => (r2, Ret true)
  | Ret (item :: rest) =>
      if dry_run then
        (report_items py_str self (item :: rest);; ret true) r2
      else
        (let* success_count := clean_items py_str self (item :: rest) 0 in
         ret (bool_decide (0 < success_count)
              || bool_decide (Z.of_nat (length (item :: rest)) = 0))) r2
  end.
Proof.
  intros Hpre Hfind. unfold clean.
  erewrite bind_run
    by (rewrite attempt_call_run; cbn [world start]; rewrite Hpre; reflexivity).
  cbn [fst snd trace start app].
  erewrite bind_run
    by (rewrite attempt_call_run; cbn [world]; rewrite Hfind; reflexivity).
  cbn [fst snd trace app].
  destruct found as [[|item rest]|e]; try reflexivity.
  destruct dry_run; reflexivity.
Qed.

(** The first guarded call of [clean]. *)
Lemma clean_prerequisites_not_met self days_threshold dry_run w w1 outcome :
  check_prerequisites self w = (w1, outcome) ->
  outcome <> Ret true ->
  clean py_str self days_threshold dry_run (start w) =
  ({| world := w1; trace := [Call_check_prerequisites] |}, Ret false).
Proof.
  intros Hpre Hfail. unfold clean.
  erewrite bind_run
    by (rewrite attempt_call_run; cbn [world start]; rewrite Hpre; reflexivity).
  cbn [fst snd trace start app].
  destruct outcome as [[|]|e]; [congruence | reflexivity | reflexivity].
Qed.

(** A "Cleaned" line is written only after a [clean_item(item, False)] call
    on that very item returned true. *)
Lemma clean_items_cleaned_line self items acc r item line :
  Log_item "Cleaned" item line ∈ trace (clean_items py_str self items acc r).1 ->
  Log_item "Cleaned" item line ∈ trace r
  \/ exists w, (clean_item self item false w).2 = Ret true.
Proof.
  revert acc r. induction items as [|item0 rest IH]; intros acc r.
  - cbn. auto.
  - cbn [clean_items]. erewrite bind_run by apply attempt_call_run.
    destruct (clean_item self item0 false (world r)) as [w' [[|]|e]] eqn:Hcall;
      cbn [fst snd].
    + erewrite bind_run by apply attempt_log_item_run. intros Hin.
      apply IH in Hin as [Hin|Hin]; [|auto]. cbn [trace] in Hin.
      rewrite !elem_of_app, !list_elem_of_singleton in Hin.
      destruct Hin as [[Hin|Hin]|Hin]; [auto | discriminate |].
      right. exists (world r).
      cbn [world] in Hin.
      destruct (item_str py_str self item0 w') as [text|e];
        [|inversion Hin].
      apply list_elem_of_singleton in Hin.
      injection Hin as -> _. rewrite Hcall. reflexivity.
    + erewrite bind_run by apply attempt_log_item_run. intros Hin.
      apply IH in Hin as [Hin|Hin]; [|auto]. cbn [trace] in Hin.
      rewrite !elem_of_app, !list_elem_of_singleton in Hin.
      destruct Hin as [[Hin|Hin]|Hin]; [auto | discriminate |].
      cbn [world] in Hin.
      destruct (item_str py_str self item0 w') as [text|e];
        [|inversion Hin].
      apply list_elem_of_singleton in Hin. discriminate.
    + intros Hin.
      apply IH in Hin as [Hin|Hin]; [|auto]. cbn [trace] in Hin.
      rewrite !elem_of_app, !list_elem_of_singleton in Hin.
      destruct Hin as [Hin|Hin]; [auto | discriminate].
Qed.

Lemma clean_cleaned_line self days_threshold dry_run w item line :
  Log_item "Cleaned" item line
    ∈ trace (clean py_str self days_threshold dry_run (start w)).1 ->
  exists w', (clean_item self item false w').2 = Ret true.
Proof.
  destruct (check_prerequisites self w) as [w1 outcome] eqn:Hpre.
  assert (Hcases : outcome = Ret true \/ outcome <> Ret true)
    by (destruct outcome as [[|]|e]; auto; right; discriminate).
  destruct Hcases as [->|Hfail].
  - destruct (find_cleanable_items self days_threshold w1) as [w2 found] eqn:Hfind.
    rewrite (clean_after_discovery _ _ _ _ _ _ _ Hpre Hfind). cbv zeta.
    assert (Hopening : forall e : event Item,
      e ∈ [Call_check_prerequisites; Call_find_cleanable_items days_threshold] ->
      e <> Log_item "Cleaned" item line).
    { intros e He. apply list_elem_of_In in He. cbn in He.
      intuition (subst; discriminate). }
    destruct found as [[|item0 rest]|e]; cbn [fst trace].
    + intros Hin. exfalso. exact (Hopening _ Hin eq_refl).
    + destruct dry_run.
      * rewrite bind_cases.
        match goal with
        | |- context [report_items py_str self ?items ?r2] =>
            destruct (report_items_trace self items r2) as (lines & Hrun & Hlines);
            destruct (report_items py_str self items r2) as [r3 [[]|e]]
        end; cbn [fst] in Hrun; subst r3; unfold ret; cbn [fst trace];
          rewrite elem_of_app; (intros [Hin|Hin];
          [exfalso; exact (Hopening _ Hin eq_refl)|]);
          rewrite Forall_forall in Hlines; specialize (Hlines _ Hin);
          discriminate Hlines.
      * unfold bind.
        pose proof (clean_items_cleaned_line self (item0 :: rest) 0
          {| world := w2;
             trace := [Call_check_prerequisites;
                       Call_find_cleanable_items days_threshold] |} item line) as Hloop.
        destruct (clean_items py_str self (item0 :: rest) 0 _) as [r' [n|e]];
          cbn [fst trace] in *; intros Hin;
          (destruct (Hloop Hin) as [Hopen|Hcall];
           [exfalso; exact (Hopening _ Hopen eq_refl) | exact Hcall]).
    + intros Hin. exfalso. exact (Hopening _ Hin eq_refl).
  - rewrite (clean_prerequisites_not_met _ _ _ _ _ _ Hpre Hfail). cbn [fst trace].
    rewrite list_elem_of_singleton. discriminate.
Qed.

(** C1. In a real run ([dry_run] false) whose prerequisites pass and whose
    discovery returns a list of items, [clean] returns
    [(successCount > 0) or (totalItems == 0)]; so it returns true as soon as
    one [clean_item] call returned true, whatever the others did (two
    successes and one raise among three items, say), and false when the list
    is not empty and every call returned false or raised. *)
Theorem clean_success_flag self days_threshold w w1 w2 cleanable_items :
  check_prerequisites self w = (w1, Ret true) ->
  find_cleanable_items self days_threshold w1 = (w2, Ret cleanable_items) ->
  let outcome := (clean py_str self days_threshold false (start w)).2 in
  outcome = Ret (bool_decide (0 < successCount self cleanable_items w2)
                 || bool_decide (totalItems cleanable_items = 0))
  /\ (Ret true ∈ item_outcomes self cleanable_items w2 -> outcome = Ret true)
  /\ (cleanable_items <> [] ->
      Ret true ∉ item_outcomes self cleanable_items w2 ->
      outcome = Ret false).
Proof.
  intros Hpre Hfind outcome.
  assert (Hflag : outcome =
      Ret (bool_decide (0 < successCount self cleanable_items w2)
           || bool_decide (totalItems cleanable_items = 0))).
  { subst outcome. rewrite (clean_after_discovery _ _ _ _ _ _ _ Hpre Hfind).
    cbv zeta. destruct cleanable_items as [|item rest].
    - cbn [snd]. rewrite orb_true_r. reflexivity.
    - unfold bind.
      pose proof (clean_items_count self (item :: rest) 0
        {| world := w2;
           trace := [Call_check_prerequisites;
                     Call_find_cleanable_items days_threshold] |}) as Hloop.
      destruct (clean_items py_str self (item :: rest) 0 _) as [r' [n|e]];
        cbn [snd world] in Hloop; [|discriminate].
      injection Hloop as ->. rewrite Z.add_0_l. reflexivity. }
  split; [exact Hflag|]. split.
  - intros Hsome. rewrite Hflag.
    apply successCount_pos in Hsome.
    rewrite bool_decide_eq_true_2 by exact Hsome. reflexivity.
  - intros Hne Hnone. rewrite Hflag.
    rewrite bool_decide_eq_false_2
      by (intros Hpos; apply Hnone, successCount_pos, Hpos).
    rewrite bool_decide_eq_false_2; [reflexivity|].
    unfold totalItems. destruct cleanable_items; [congruence | cbn; lia].
Qed.


(** C4. When [check_prerequisites] returns false or raises, [clean] returns
    false at once, in a dry run as in a real one: the only call made on the
    provider is [check_prerequisites], so discovery never runs. *)
Theorem prerequisites_fail_fast self days_threshold dry_run w w1 outcome :
  check_prerequisites self w = (w1, outcome) ->
  outcome <> Ret true ->
  clean py_str self days_threshold dry_run (start w) =
  ({| world := w1; trace := [Call_check_prerequisites] |}, Ret false).
Proof. apply clean_prerequisites_not_met. Qed.

(** C5. When prerequisites pass and [find_cleanable_items] raises, [clean]
    catches the exception and returns false to its caller, in a dry run as
    in a real one: the run consists of the two opening calls, so it has made
    no [clean_item] call and written no item line. When discovery returns
    the empty list, [clean] returns true. *)
Theorem discovery_failure_is_caught self days_threshold dry_run w w1 :
  check_prerequisites self w = (w1, Ret true) ->
  let after_discovery w2 :=
    {| world := w2;
       trace := [Call_check_prerequisites;
                 Call_find_cleanable_items days_threshold] |} in
  (forall w2 e,
     find_cleanable_items self days_threshold w1 = (w2, Raise e) ->
     clean py_str self days_threshold dry_run (start w) =
     (after_discovery w2, Ret false))
  /\ (forall w2,
     find_cleanable_items self days_threshold w1 = (w2, Ret []) ->
     clean py_str self days_threshold dry_run (start w) =
     (after_discovery w2, Ret true)).
Proof.
  intros Hpre after_discovery. split.
  - intros w2 e Hfind.
    rewrite (clean_after_discovery _ _ _ _ _ _ _ Hpre Hfind). reflexivity.
  - intros w2 Hfind.
    rewrite (clean_after_discovery _ _ _ _ _ _ _ Hpre Hfind). reflexivity.
Qed.

End CoreFacts.

Section CoreScenarios.

Import Core.

(** The scenario of the specification: three items, the second raises, the
    other two are cleaned; the run still succeeds. *)
Lemma clean_success_flag_witness :
  (clean mock_str scenario 30 false (start scenario_three_items)).2 = Ret true.
Proof.
  apply (clean_success_flag mock_str scenario 30
           scenario_three_items scenario_three_items scenario_three_items
           [item1; item2; item3]).
  - reflexivity.
  - reflexivity.
  - vm_compute. apply list_elem_of_here.
Defined.

(** The same provider when every call raises: overall failure. *)
Example clean_all_items_fail :
  clean mock_str scenario 30 false
    (start {| items := [item2; item2]; cleaned_items := [] |}) =
  ({| world := {| items := [item2; item2]; cleaned_items := [] |};
      trace := [Call_check_prerequisites; Call_find_cleanable_items 30;
                Call_clean_item item2 false; Call_clean_item item2 false] |},
   Ret false).
Proof. reflexivity. Qed.

(** tests/test_core.py, [test_cleaner_actual_run]. *)
Example test_cleaner_actual_run :
  let '(r, result) := clean mock_str mock 30 false (start mock_two_items) in
  result = Ret true /\ cleaned_items (world r) = [item1; item2].
Proof. split; reflexivity. Qed.



(** The dry-run loop has no [try] around it: an item without the key that
    [item_to_str] reads ends the run with the exception, after the line of
    the item before it. *)
Example dry_run_item_to_str_raises :
  clean mock_str scenario 30 true
    (start {| items := [item1; {[ "id" := "4" ]}; item3]; cleaned_items := [] |}) =
  ({| world := {| items := [item1; {[ "id" := "4" ]}; item3]; cleaned_items := [] |};
      trace := [Call_check_prerequisites; Call_find_cleanable_items 30;
                Log_item "Would clean" item1 "Would clean: item1"] |},
   Raise (Exception "KeyError: 'name'")).
Proof. vm_compute. reflexivity. Qed.

(** A provider whose prerequisites are not met. *)
Lemma prerequisites_fail_fast_witness :
  clean mock_str
    {| name := "offline"; check_prerequisites := raise (Exception "kubectl: not found");
       find_cleanable_items := find_cleanable_items mock;
       clean_item := clean_item mock; item_to_str := None |}
    30 false (start mock_two_items) =
  ({| world := mock_two_items; trace := [Call_check_prerequisites] |}, Ret false).
Proof.
  apply (prerequisites_fail_fast mock_str _ 30 false
           mock_two_items mock_two_items (Raise (Exception "kubectl: not found"))).
  - reflexivity.
  - discriminate.
Defined.

Lemma discovery_failure_is_caught_witness :
  clean mock_str mock 30 false (start {| items := []; cleaned_items := [] |}) =
  ({| world := {| items := []; cleaned_items := [] |};
      trace := [Call_check_prerequisites; Call_find_cleanable_items 30] |},
   Ret true).
Proof.
  refine (proj2 (discovery_failure_is_caught mock_str mock 30 false
           {| items := []; cleaned_items := [] |}
           {| items := []; cleaned_items := [] |} _) _ _); reflexivity.
Defined.

End CoreScenarios.

(* --------------------------------------------------------------------- *)
(** ** The Kubernetes provider *)
(* --------------------------------------------------------------------- *)

Section K8sFacts.

Context {Cluster : Type}.
Variable run_command : string -> Z -> Cluster -> Cluster * result (option string).
Variable py_str : K8s.item -> string.
Variable find_cleanable_items :
  K8s.KubernetesCleaner -> Z -> M (K8s.shell Cluster) (list K8s.item).
Implicit Types (self : K8s.KubernetesCleaner) (item : K8s.item)
  (s : K8s.shell Cluster).

(** The two protection rules, as membership and as the test the code runs. *)
Lemma protected_spec self item :
  K8s.protected self item = true <->
  K8s.namespace item ∈ K8s.protected_namespaces self
  \/ exists prefix, prefix ∈ K8s.protected_prefixes self
                    /\ String.prefix prefix (K8s.name item) = true.
Proof.
  unfold K8s.protected, K8s.has_protected_prefix.
  rewrite orb_true_iff, bool_decide_eq_true, existsb_exists.
  split; intros [Hns|(prefix & Hin & Hpre)]; auto; right; exists prefix;
    (split; [|exact Hpre]).
  - apply elem_of_elements, list_elem_of_In, Hin.
  - apply list_elem_of_In, elem_of_elements, Hin.
Qed.

(** A protected item is refused before anything else is looked at. *)
Lemma clean_item_protected self item dry_run s :
  K8s.protected self item = true ->
  K8s.clean_item run_command self item dry_run s = (s, Ret false).
Proof.
  unfold K8s.protected, K8s.clean_item. intros Hprot.
  destruct (bool_decide (K8s.namespace item ∈ K8s.protected_namespaces self));
    [reflexivity|].
  cbn [orb] in Hprot. rewrite Hprot. reflexivity.
Qed.

Lemma clean_item_unprotected self item dry_run :
  K8s.protected self item = false ->
  K8s.clean_item run_command self item dry_run =
  if dry_run then ret true
  else
    match
      (if bool_decide (K8s.type item = "pod") then
         Some ("kubectl delete pod " +:+ K8s.name item +:+ " -n "
               +:+ K8s.namespace item +:+ " --grace-period=30")
       else if bool_decide (K8s.type item = "replicaset") then
         Some ("kubectl delete rs " +:+ K8s.name item +:+ " -n "
               +:+ K8s.namespace item +:+ " --grace-period=30")
       else if bool_decide (K8s.type item = "configmap") then
         Some ("kubectl delete configmap " +:+ K8s.name item +:+ " -n "
               +:+ K8s.namespace item)
       else if bool_decide (K8s.type item = "secret") then
         Some ("kubectl delete secret " +:+ K8s.name item +:+ " -n "
               +:+ K8s.namespace item)
       else None)
    with
    | None => ret false
    | Some cmd =>
        let* result := K8s._run_kubectl run_command self cmd (Some 45) in
        match result with
        | None => ret false
        | Some _ => ret true
        end
    end.
Proof.
  unfold K8s.protected, K8s.clean_item. intros Hprot.
  apply orb_false_iff in Hprot as [-> ->]. reflexivity.
Qed.

(** C3. An item whose namespace is in the protected set, or whose name starts
    with a protected prefix, is never cleaned: [clean_item] returns false on
    it, for a dry run and for a real one, and leaves the cluster and the list
    of issued commands as they were; and whatever discovery returned, no run
    of the provider's [clean] writes a "Cleaned" line for it. *)
Theorem protected_item_is_never_cleaned self item :
  (K8s.namespace item ∈ K8s.protected_namespaces self
   \/ exists prefix, prefix ∈ K8s.protected_prefixes self
                     /\ String.prefix prefix (K8s.name item) = true) ->
  (forall dry_run s,
     K8s.clean_item run_command self item dry_run s = (s, Ret false))
  /\ (forall days_threshold dry_run args s line,
        Core.Log_item "Cleaned" item line
          ∉ Core.trace (K8s.clean run_command py_str find_cleanable_items
                          self days_threshold dry_run args (Core.start s)).1).
Proof.
  intros Hprot. apply protected_spec in Hprot. split.
  - intros dry_run s. apply clean_item_protected, Hprot.
  - intros days_threshold dry_run args s line Hin.
    assert (Hrun : exists s',
      (K8s.clean_item run_command self item false s').2 = Ret true).
    { unfold K8s.clean in Hin. destruct (K8s.wants_help args).
      - cbn in Hin. inversion Hin.
      - apply clean_cleaned_line in Hin. exact Hin. }
    destruct Hrun as [s' Hrun].
    rewrite (clean_item_protected _ _ _ _ Hprot) in Hrun. discriminate.
Qed.

(** C10. On an item that no protection rule covers, [clean_item] with
    [dry_run] true returns true whatever the item's type, and issues nothing;
    with [dry_run] false and a type other than pod, replicaset, configmap and
    secret it returns false, again without issuing a command. A dry run thus
    reports success for items a real run cannot clean. *)
Theorem dry_run_accepts_unknown_type self item :
  K8s.namespace item ∉ K8s.protected_namespaces self ->
  (forall prefix, prefix ∈ K8s.protected_prefixes self ->
                  String.prefix prefix (K8s.name item) = false) ->
  (forall s, K8s.clean_item run_command self item true s = (s, Ret true))
  /\ (K8s.type item ∉ ["pod"; "replicaset"; "configmap"; "secret"] ->
      forall s, K8s.clean_item run_command self item false s = (s, Ret false)).
Proof using run_command.
  clear py_str find_cleanable_items. intros Hns Hprefix.
  assert (Hprot : K8s.protected self item = false).
  { apply not_true_is_false. rewrite protected_spec.
    intros [Hin|(prefix & Hin & Hpre)]; [exact (Hns Hin)|].
    rewrite (Hprefix _ Hin) in Hpre. discriminate. }
  rewrite !(clean_item_unprotected _ _ _ Hprot). split.
  - reflexivity.
  - intros Htype s.
    rewrite !bool_decide_eq_false_2; [reflexivity | | | |];
      intros Heq; apply Htype; rewrite Heq; apply list_elem_of_In; cbn; tauto.
Qed.

End K8sFacts.

Section K8sScenarios.

(** The provider as [__init__] builds it, a pod of the [kube-system]
    namespace that discovery let through, a real run: nothing is deleted. *)
Lemma protected_item_is_never_cleaned_witness :
  K8s.clean_item K8s.obedient (K8s.__init__ 30) K8s.kube_proxy false
    {| K8s.cluster := []; K8s.issued := [] |}
  = ({| K8s.cluster := []; K8s.issued := [] |}, Ret false).
Proof.
  refine (proj1 (protected_item_is_never_cleaned K8s.obedient
                   (fun _ => "") (fun _ _ => ret [K8s.kube_proxy])
                   (K8s.__init__ 30) K8s.kube_proxy _) false _).
  left. vm_compute. reflexivity.
Defined.

(** The same pod of a real run outside the protected namespaces: one delete
    command goes out. *)
Example clean_item_deletes_old_pod :
  K8s.clean_item K8s.obedient (K8s.__init__ 30) K8s.old_pod false
    {| K8s.cluster := []; K8s.issued := [] |}
  = (let cmd := "kubectl delete pod nightly-report-5d9f -n batch --grace-period=30" in
     {| K8s.cluster := [cmd]; K8s.issued := [cmd] |}, Ret true).
Proof. vm_compute. reflexivity. Qed.

(** An item of a type the provider has no delete command for: the dry run
    says yes, the real run says no, and neither issues a command. *)
Lemma dry_run_accepts_unknown_type_witness :
  let s := {| K8s.cluster := []; K8s.issued := [] |} in
  K8s.clean_item K8s.obedient (K8s.__init__ 30) K8s.old_job true s = (s, Ret true)
  /\ K8s.clean_item K8s.obedient (K8s.__init__ 30) K8s.old_job false s = (s, Ret false).
Proof.
  intros s.
  assert (Hns : K8s.namespace K8s.old_job ∉ K8s.protected_namespaces (K8s.__init__ 30)).
  { intros Hin. apply (bool_decide_pack _) in Hin. vm_compute in Hin. exact Hin. }
  assert (Hprefix : forall prefix,
    prefix ∈ K8s.protected_prefixes (K8s.__init__ 30) ->
    String.prefix prefix (K8s.name K8s.old_job) = false).
  { intros prefix Hin. apply elem_of_elements, list_elem_of_In in Hin.
    vm_compute in Hin. intuition (subst; reflexivity). }
  assert (Htype : K8s.type K8s.old_job ∉ ["pod"; "replicaset"; "configmap"; "secret"]).
  { intros Hin. apply list_elem_of_In in Hin. cbn in Hin. intuition discriminate. }
  pose proof (dry_run_accepts_unknown_type K8s.obedient (K8s.__init__ 30)
                K8s.old_job Hns Hprefix) as [Hdry Hreal].
  split; [apply Hdry | apply Hreal, Htype].
Defined.

End K8sScenarios.

(* --------------------------------------------------------------------- *)
(** ** The age test *)
(* --------------------------------------------------------------------- *)

Section AgeFacts.

Import Os Utils.

Context {World Path : Type}.
Variable sys : system World Path.



(** What a run of [is_unused] comes to: after a [stat] that answered, the
    conversion of the latest time, the reading of the clock and its
    conversion, the [timedelta], the subtraction and the comparison, with
    [False] for whichever raises first. *)
Lemma is_unused_after_stat path days_threshold w w1 stat_info w2 now :
  sys_stat sys path w = (w1, inr stat_info) ->
  sys_now sys w1 = (w2, now) ->
  let last := Z.max (Z.max (st_atime stat_info) (st_mtime stat_info))
                    (st_ctime stat_info) in
  is_unused sys path days_threshold w =
  match sys_localtime sys last with
  | Some last_access_date =>
      if is_datetime last_access_date then
        (w2, Ret match sys_localtime sys now with
                 | Some today =>
                     is_datetime today
                     && bool_decide (Z.abs days_threshold <= timedelta_max_days)
                     && is_datetime (today - days_threshold * usec_per_day)
                     && bool_decide
                          (last_access_date < today - days_threshold * usec_per_day)
                 | None => false
                 end)
      else (w1, Ret false)
  | None => (w1, Ret false)
  end.
Proof.
  intros Hstat Hnow last.
  unfold is_unused, try_except, bind, os_stat, of_syscall, datetime_now, time_time.
  rewrite Hstat. fold last. unfold datetime_fromtimestamp at 1.
  destruct (sys_localtime sys last) as [last_access_date|]; [|reflexivity].
  destruct (is_datetime last_access_date); [|reflexivity].
  unfold ret at 1. unfold bind. rewrite Hnow. unfold datetime_fromtimestamp.
  destruct (sys_localtime sys now) as [today|]; [|reflexivity].
  destruct (is_datetime today); [|reflexivity].
  unfold ret at 1. unfold timedelta.
  destruct (bool_decide (Z.abs days_threshold <= timedelta_max_days));
    [|reflexivity].
  unfold ret at 1. unfold datetime_sub.
  destruct (is_datetime (today - days_threshold * usec_per_day)); reflexivity.
Qed.


End AgeFacts.

Section AgeScenario.

Import Os Utils Disk.


(** A path that is not there is not unused. *)
Example is_unused_missing :
  is_unused unix ["junit"; "gone.jar"] 30 (quiet repository november_2023)
  = (quiet repository november_2023, Ret false).
Proof. reflexivity. Qed.

End AgeScenario.

(* --------------------------------------------------------------------- *)
(** ** The size scanner of core/utils.py on a quiet disk *)
(* --------------------------------------------------------------------- *)

Section NodeInduction.

Import Disk.

Variable P : node -> Prop.
Hypothesis P_File : forall i, P (File i).
Hypothesis P_Dangling : P Dangling.
Hypothesis P_Dir : forall i readable searchable entries,
  Forall (fun e => P e.2) entries -> P (Dir i readable searchable entries).

(** Induction on a tree, with the hypothesis on every entry of a
    directory. *)
Lemma node_induction : forall n, P n.
Proof.
  fix IH 1. intros [i|i readable searchable entries|].
  - apply P_File.
  - apply P_Dir.
    induction entries as [|[name child] rest IHrest]; constructor.
    + apply IH.
    + apply IHrest.
  - apply P_Dangling.
Qed.

End NodeInduction.

Section WalkFacts.

Import Os Utils.

Context {World Path : Type}.
Variable sys : system World Path.

Lemma get_size_walk_app (l1 l2 : list (walk_entry Path)) total_size w :
  get_size_walk sys (l1 ++ l2) total_size w =
  (let* total_size := get_size_walk sys l1 total_size in
   get_size_walk sys l2 total_size) w.
Proof.
  revert total_size w.
  induction l1 as [|[[dirpath dirnames] filenames] rest IH];
    intros total_size w; cbn [get_size_walk app].
  - reflexivity.
  - unfold bind.
    destruct (get_size_files sys dirpath filenames total_size w) as [w' [t|e]].
    + rewrite IH. reflexivity.
    + reflexivity.
Qed.

Lemma _get_directory_size_walk_app (l1 l2 : list (walk_entry Path)) s :
  Analyzer._get_directory_size_walk sys (l1 ++ l2) s =
  (Analyzer._get_directory_size_walk sys l1;;
   Analyzer._get_directory_size_walk sys l2) s.
Proof.
  revert s.
  induction l1 as [|[[dirpath dirnames] filenames] rest IH];
    intros s; cbn [Analyzer._get_directory_size_walk app].
  - reflexivity.
  - unfold bind.
    destruct (Analyzer._get_directory_size_files sys dirpath filenames s)
      as [s' [[]|e]].
    + rewrite IH. reflexivity.
    + reflexivity.
Qed.

End WalkFacts.

Section TreeFacts.

Import Os Disk.

Lemma find_entry_NoDup entries name child :
  NoDup (map fst entries) ->
  (name, child) ∈ entries ->
  find_entry name entries = Some child.
Proof.
  induction entries as [|[name' child'] rest IH]; intros Hnodup Hin.
  - inversion Hin.
  - cbn [map fst] in Hnodup. apply NoDup_cons in Hnodup as [Hfresh Hnodup].
    cbn [find_entry]. apply elem_of_cons in Hin as [Heq|Hin].
    + injection Heq as -> ->. rewrite bool_decide_eq_true_2 by reflexivity.
      reflexivity.
    + rewrite bool_decide_eq_false_2; [apply IH; assumption|].
      intros ->. apply Hfresh.
      apply (list_elem_of_fmap_2 fst) in Hin. exact Hin.
Qed.

Lemma find_entry_elem_of entries name child :
  find_entry name entries = Some child -> (name, child) ∈ entries.
Proof.
  induction entries as [|[name' child'] rest IH]; cbn [find_entry]; [discriminate|].
  destruct (bool_decide (name' = name)) eqn:Hname.
  - apply bool_decide_eq_true in Hname as ->. intros [= ->]. apply list_elem_of_here.
  - intros Hfind. apply list_elem_of_further, IH, Hfind.
Qed.

Lemma well_formed_Dir i readable searchable entries :
  well_formed (Dir i readable searchable entries) = true <->
  NoDup (map fst entries) /\ Forall (fun e => well_formed e.2 = true) entries.
Proof.
  cbn [well_formed]. rewrite andb_true_iff, bool_decide_eq_true.
  apply and_iff_compat_l.
  induction entries as [|[name child] rest IH].
  - split; [constructor | reflexivity].
  - cbn [forallb]. rewrite andb_true_iff, IH, Forall_cons. reflexivity.
Qed.

Lemma well_formed_resolve n p m :
  well_formed n = true -> resolve n p = inr m -> well_formed m = true.
Proof.
  revert n. induction p as [|name rest IH]; intros n Hwf; cbn [resolve].
  - intros [= <-]. exact Hwf.
  - destruct n as [i|i readable searchable entries|]; try discriminate.
    destruct searchable; [|discriminate].
    destruct (find_entry name entries) as [child|] eqn:Hfind; [|discriminate].
    apply IH. apply well_formed_Dir in Hwf as [_ Hall].
    rewrite Forall_forall in Hall.
    exact (Hall _ (find_entry_elem_of _ _ _ Hfind)).
Qed.

Lemma resolve_app n p q :
  resolve n (p ++ q) =
  match resolve n p with
  | inl e => inl e
  | inr m => resolve m q
  end.
Proof.
  revert n. induction p as [|name rest IH]; intros n; cbn [resolve app].
  - reflexivity.
  - destruct n as [i|i readable searchable entries|]; try reflexivity.
    destruct searchable; [|reflexivity].
    destruct (find_entry name entries); [apply IH | reflexivity].
Qed.

Lemma resolve_entry root top i readable searchable entries name :
  resolve root top = inr (Dir i readable searchable entries) ->
  resolve root (top ++ [name]) =
  if searchable then
    match find_entry name entries with
    | Some child => inr child
    | None => inl FileNotFoundError
    end
  else inl PermissionError.
Proof.
  intros Htop. rewrite resolve_app, Htop. cbn [resolve].
  destruct searchable; [|reflexivity].
  destruct (find_entry name entries); reflexivity.
Qed.

Lemma reachable_bytes_Dir i readable searchable entries :
  reachable_bytes (Dir i readable searchable entries) =
  if readable && searchable then sum_bytes entries else 0.
Proof.
  reflexivity.
Qed.

Lemma reachable_bytes_nonneg n : 0 <= reachable_bytes n.
Proof.
  induction n as [i| |i readable searchable entries IH] using node_induction.
  - cbn. lia.
  - cbn. lia.
  - rewrite reachable_bytes_Dir. destruct (readable && searchable); [|lia].
    induction IH as [|[name child] rest Hchild _ IHrest]; unfold sum_bytes;
      cbn [foldr snd] in *; [lia|].
    fold (sum_bytes rest). lia.
Qed.

Lemma plain_Dir i readable searchable entries :
  plain (Dir i readable searchable entries) = true <->
  readable = true /\ searchable = true
  /\ Forall (fun e => plain e.2 = true) entries.
Proof.
  cbn [plain]. rewrite !andb_true_iff.
  assert (Hall : forallb (fun '(_, child) => plain child) entries = true
                 <-> Forall (fun e => plain e.2 = true) entries).
  { induction entries as [|[name child] rest IH].
    - split; [constructor | reflexivity].
    - cbn [forallb]. rewrite andb_true_iff, IH, Forall_cons. reflexivity. }
  rewrite Hall. tauto.
Qed.

(** Where every directory is open, every file is reached. *)
Lemma plain_reachable_bytes n :
  plain n = true -> reachable_bytes n = total_bytes n.
Proof.
  induction n as [i| |i readable searchable entries IH] using node_induction;
    intros Hplain.
  - reflexivity.
  - reflexivity.
  - apply plain_Dir in Hplain as (-> & -> & Hall).
    cbn [reachable_bytes total_bytes andb].
    induction entries as [|[name child] rest IHrest]; [reflexivity|].
    apply Forall_cons in IH as [IHchild IH].
    apply Forall_cons in Hall as [Hchild Hall].
    cbn [foldr]. cbn [snd] in IHchild, Hchild.
    rewrite (IHchild Hchild), (IHrest IH Hall). reflexivity.
Qed.

Lemma sum_bytes_split entries :
  sum_bytes entries =
  sum_bytes (filter (fun e => is_Dir e.2 = false) entries)
  + sum_bytes (filter (fun e => is_Dir e.2 = true) entries).
Proof.
  induction entries as [|[name child] rest IH]; [reflexivity|].
  rewrite !filter_cons. cbn [snd].
  destruct (is_Dir child) eqn:Hdir.
  - rewrite decide_False by discriminate. rewrite decide_True by reflexivity.
    unfold sum_bytes in *. cbn [foldr snd]. lia.
  - rewrite decide_True by reflexivity. rewrite decide_False by discriminate.
    unfold sum_bytes in *. cbn [foldr snd]. lia.
Qed.

End TreeFacts.

Section QuietDisk.

Import Os Utils Disk.

Variable root : node.
Variable now : Z.
Local Abbreviation d := (quiet root now).

Lemma os_stat_quiet p :
  os_stat unix p d =
  (d, match stat root p with
      | inl e => Raise (OSError e)
      | inr st => Ret st
      end).
Proof.
  unfold os_stat, of_syscall. cbn. destruct (stat root p); reflexivity.
Qed.

Lemma os_path_exists_quiet p :
  os_path_exists unix p d =
  (d, Ret (match stat root p with inr _ => true | inl _ => false end)).
Proof.
  unfold os_path_exists, try_except, bind. rewrite os_stat_quiet.
  destruct (stat root p); reflexivity.
Qed.

Lemma os_path_isfile_quiet p :
  os_path_isfile unix p d =
  (d, Ret (match stat root p with
           | inr st => match st_kind st with Regular => true | _ => false end
           | inl _ => false
           end)).
Proof.
  unfold os_path_isfile, try_except, bind. rewrite os_stat_quiet.
  destruct (stat root p); reflexivity.
Qed.

Lemma os_path_getsize_quiet p :
  os_path_getsize unix p d =
  (d, match stat root p with
      | inl e => Raise (OSError e)
      | inr st => Ret (Z.of_N (st_size st))
      end).
Proof.
  unfold os_path_getsize, bind. rewrite os_stat_quiet.
  destruct (stat root p); reflexivity.
Qed.

Lemma os_walk_quiet p : os_walk unix p d = (d, Ret (walk root p)).
Proof. reflexivity. Qed.

(** What [stat] answers for an entry of a directory that was reached. *)
Lemma stat_entry top i readable entries name child :
  resolve root top = inr (Dir i readable true entries) ->
  find_entry name entries = Some child ->
  stat root (top ++ [name]) =
  match child with
  | File i' => inr (stat_of Regular i')
  | Dir i' _ _ _ => inr (stat_of Directory i')
  | Dangling => inl FileNotFoundError
  end.
Proof.
  intros Htop Hfind. unfold stat.
  rewrite (resolve_entry _ _ _ _ _ _ _ Htop), Hfind.
  destruct child; reflexivity.
Qed.

(** The files of a directory that can be searched: each is counted with
    its length, and a dangling name is passed over. *)
Lemma get_size_files_quiet top i readable entries sub total_size :
  resolve root top = inr (Dir i readable true entries) ->
  (forall name child, (name, child) ∈ sub -> find_entry name entries = Some child) ->
  get_size_files unix top (filenames sub) total_size d =
  (d, Ret (total_size + sum_bytes (filter (fun e => is_Dir e.2 = false) sub))).
Proof.
  intros Htop. revert total_size.
  induction sub as [|[name child] rest IH]; intros total_size Hsub.
  - unfold sum_bytes. cbn. unfold ret. f_equal. f_equal. lia.
  - assert (Hrest : forall name child,
      (name, child) ∈ rest -> find_entry name entries = Some child)
      by (intros; apply Hsub, list_elem_of_further; assumption).
    pose proof (stat_entry top i readable entries name child Htop
                  (Hsub _ _ (list_elem_of_here _ _))) as Hstat.
    unfold filenames in *. rewrite !filter_cons. cbn [snd].
    destruct child as [i'|i' r' s' entries'|]; cbn [is_Dir].
    + rewrite decide_True by reflexivity. cbn [map fst get_size_files].
      change (join unix top name) with (top ++ [name]).
      erewrite bind_run by (rewrite os_path_exists_quiet, Hstat; reflexivity).
      lazy iota beta.
      erewrite bind_run by (rewrite os_path_getsize_quiet, Hstat; reflexivity).
      rewrite (IH _ Hrest). f_equal. f_equal.
      unfold sum_bytes. cbn [foldr snd reachable_bytes stat_of st_size]. lia.
    + rewrite decide_False by discriminate. apply IH, Hrest.
    + rewrite decide_True by reflexivity. cbn [map fst get_size_files].
      change (join unix top name) with (top ++ [name]).
      erewrite bind_run by (rewrite os_path_exists_quiet, Hstat; reflexivity).
      lazy iota beta.
      rewrite (IH _ Hrest). reflexivity.
Qed.

(** The files of a directory that cannot be searched: none can be
    reached. *)
Lemma get_size_files_locked top i readable entries names total_size :
  resolve root top = inr (Dir i readable false entries) ->
  get_size_files unix top names total_size d = (d, Ret total_size).
Proof.
  intros Htop. induction names as [|name rest IH]; [reflexivity|].
  cbn [get_size_files]. change (join unix top name) with (top ++ [name]).
  erewrite bind_run.
  2:{ rewrite os_path_exists_quiet. unfold stat.
      rewrite (resolve_entry _ _ _ _ _ _ _ Htop). reflexivity. }
  lazy iota beta. exact IH.
Qed.

(** The walk from a node that was reached adds the bytes that can be
    reached from it, when it is a directory, and nothing otherwise. *)
Lemma get_size_walk_quiet n :
  forall top total_size,
    resolve root top = inr n ->
    well_formed n = true ->
    get_size_walk unix (walk_node top n) total_size d =
    (d, Ret (total_size + if is_Dir n then reachable_bytes n else 0)).
Proof.
  induction n as [i| |i readable searchable entries IH] using node_induction;
    intros top total_size Htop Hwf.
  - cbn. unfold ret. f_equal. f_equal. lia.
  - cbn. unfold ret. f_equal. f_equal. lia.
  - cbn [is_Dir]. rewrite reachable_bytes_Dir.
    destruct readable; [|cbn; unfold ret; f_equal; f_equal; lia].
    cbn [walk_node get_size_walk andb].
    destruct searchable.
    + apply well_formed_Dir in Hwf as [Hnodup Hall].
      erewrite bind_run.
      2:{ apply (get_size_files_quiet top i true entries entries); [exact Htop|].
          intros name child. apply find_entry_NoDup, Hnodup. }
      rewrite (sum_bytes_split entries), Z.add_assoc.
      generalize (total_size
                  + sum_bytes (filter (fun e => is_Dir e.2 = false) entries)).
      assert (Hsub : forall name child,
        (name, child) ∈ entries -> find_entry name entries = Some child)
        by (intros name child; apply find_entry_NoDup, Hnodup).
      clear Hnodup total_size.
      assert (Hdirs : forall sub,
        Forall (fun e => forall top total_size,
                  resolve root top = inr e.2 ->
                  well_formed e.2 = true ->
                  get_size_walk unix (walk_node top e.2) total_size d =
                  (d, Ret (total_size
                           + if is_Dir e.2 then reachable_bytes e.2 else 0))) sub ->
        Forall (fun e => well_formed e.2 = true) sub ->
        (forall name child,
           (name, child) ∈ sub -> find_entry name entries = Some child) ->
        forall total_size,
          get_size_walk unix
            (flat_map
               (fun '(name, child) =>
                  if is_Dir child then walk_node (top ++ [name]) child else [])
               sub) total_size d =
          (d, Ret (total_size
                   + sum_bytes (filter (fun e => is_Dir e.2 = true) sub)))).
      { clear IH Hall.
        induction sub as [|[name child] rest IHrest];
          intros IH Hall Hin total_size.
        - cbn. unfold ret, sum_bytes. cbn. f_equal. f_equal. lia.
        - cbn [flat_map]. rewrite get_size_walk_app.
          apply Forall_cons in IH as [IHchild IH].
          apply Forall_cons in Hall as [Hchild Hall].
          cbn [snd] in IHchild, Hchild.
          assert (Hrest : forall name child,
            (name, child) ∈ rest -> find_entry name entries = Some child)
            by (intros; apply Hin, list_elem_of_further; assumption).
          assert (Hresolve : resolve root (top ++ [name]) = inr child).
          { rewrite (resolve_entry _ _ _ _ _ _ _ Htop).
            rewrite (Hin _ _ (list_elem_of_here _ _)). reflexivity. }
          rewrite filter_cons. cbn [snd].
          destruct (is_Dir child) eqn:Hdir.
          + erewrite bind_run by apply (IHchild _ _ Hresolve Hchild).
            rewrite (IHrest IH Hall Hrest).
            rewrite decide_True by reflexivity. unfold sum_bytes. cbn [foldr].
            f_equal. f_equal. lia.
          + erewrite bind_run by reflexivity.
            rewrite (IHrest IH Hall Hrest).
            rewrite decide_False by discriminate. reflexivity. }
      intros total_size. apply (Hdirs entries IH Hall Hsub).
    + erewrite bind_run
        by (apply (get_size_files_locked top i true entries); exact Htop).
      cbn. unfold ret. f_equal. f_equal. lia.
Qed.

(** On a quiet disk [get_size] returns the bytes that can be reached from
    the node the path leads to; what cannot be listed or reached counts for
    nothing. *)
Lemma get_size_quiet p n :
  well_formed root = true ->
  resolve root p = inr n ->
  get_size unix p d = (d, Ret (reachable_bytes n)).
Proof.
  intros Hwf Hresolve. unfold get_size.
  erewrite bind_run by apply os_path_isfile_quiet.
  pose proof (well_formed_resolve _ _ _ Hwf Hresolve) as Hwf_n.
  unfold stat. rewrite Hresolve.
  destruct n as [i|i readable searchable entries|]; cbn [stat_of st_kind].
  - rewrite os_path_getsize_quiet. unfold stat. rewrite Hresolve. reflexivity.
  - erewrite bind_run by apply os_walk_quiet.
    unfold walk. rewrite Hresolve.
    rewrite (get_size_walk_quiet _ _ _ Hresolve Hwf_n). reflexivity.
  - erewrite bind_run by apply os_walk_quiet.
    unfold walk. rewrite Hresolve. reflexivity.
Qed.

Lemma get_size_unreachable p e :
  resolve root p = inl e ->
  get_size unix p d = (d, Ret 0).
Proof.
  intros Hresolve. unfold get_size.
  erewrite bind_run by apply os_path_isfile_quiet.
  unfold stat. rewrite Hresolve.
  erewrite bind_run by apply os_walk_quiet.
  unfold walk. rewrite Hresolve. reflexivity.
Qed.

(** *** The analyzer's scanner on the same disk *)

(** One turn of the inner loop: the length is added, or the failure of
    [os.path.getsize] is passed over. *)
Lemma _get_directory_size_file_quiet fp total_size :
  try_except
    (let* file_size := Analyzer.on_world (os_path_getsize unix fp) in
     modify (fun '(w, total_size) => (w, total_size + file_size)))
    any_OSError (ret tt) (d, total_size)
  = ((d, total_size
         + match stat root fp with
           | inr st => Z.of_N (st_size st)
           | inl _ => 0
           end), Ret tt).
Proof.
  unfold try_except, bind, Analyzer.on_world.
  rewrite os_path_getsize_quiet.
  destruct (stat root fp); cbn; [rewrite Z.add_0_r|]; reflexivity.
Qed.

Lemma _get_directory_size_files_quiet top i readable entries sub total_size :
  resolve root top = inr (Dir i readable true entries) ->
  (forall name child, (name, child) ∈ sub -> find_entry name entries = Some child) ->
  Analyzer._get_directory_size_files unix top (filenames sub) (d, total_size) =
  ((d, total_size + sum_bytes (filter (fun e => is_Dir e.2 = false) sub)), Ret tt).
Proof.
  intros Htop. revert total_size.
  induction sub as [|[name child] rest IH]; intros total_size Hsub.
  - unfold sum_bytes. cbn. unfold ret. rewrite Z.add_0_r. reflexivity.
  - assert (Hrest : forall name child,
      (name, child) ∈ rest -> find_entry name entries = Some child)
      by (intros; apply Hsub, list_elem_of_further; assumption).
    pose proof (stat_entry top i readable entries name child Htop
                  (Hsub _ _ (list_elem_of_here _ _))) as Hstat.
    unfold filenames in *. rewrite !filter_cons. cbn [snd].
    destruct child as [i'|i' r' s' entries'|]; cbn [is_Dir].
    + rewrite decide_True by reflexivity.
      cbn [map fst Analyzer._get_directory_size_files].
      change (join unix top name) with (top ++ [name]).
      erewrite bind_run by apply _get_directory_size_file_quiet.
      rewrite Hstat. rewrite (IH _ Hrest). f_equal. f_equal.
      unfold sum_bytes. cbn [foldr reachable_bytes stat_of st_size]. lia.
    + rewrite decide_False by discriminate. apply IH, Hrest.
    + rewrite decide_True by reflexivity.
      cbn [map fst Analyzer._get_directory_size_files].
      change (join unix top name) with (top ++ [name]).
      erewrite bind_run by apply _get_directory_size_file_quiet.
      rewrite Hstat. rewrite (IH _ Hrest). f_equal. f_equal.
      unfold sum_bytes. cbn [foldr reachable_bytes]. lia.
Qed.

Lemma _get_directory_size_files_locked top i readable entries names total_size :
  resolve root top = inr (Dir i readable false entries) ->
  Analyzer._get_directory_size_files unix top names (d, total_size)
  = ((d, total_size), Ret tt).
Proof.
  intros Htop. induction names as [|name rest IH]; [reflexivity|].
  cbn [Analyzer._get_directory_size_files].
  change (join unix top name) with (top ++ [name]).
  erewrite bind_run by apply _get_directory_size_file_quiet.
  unfold stat. rewrite (resolve_entry _ _ _ _ _ _ _ Htop), Z.add_0_r.
  exact IH.
Qed.

Lemma _get_directory_size_walk_quiet n :
  forall top total_size,
    resolve root top = inr n ->
    well_formed n = true ->
    Analyzer._get_directory_size_walk unix (walk_node top n) (d, total_size) =
    ((d, total_size + if is_Dir n then reachable_bytes n else 0), Ret tt).
Proof.
  induction n as [i| |i readable searchable entries IH] using node_induction;
    intros top total_size Htop Hwf.
  - cbn. unfold ret. rewrite Z.add_0_r. reflexivity.
  - cbn. unfold ret. rewrite Z.add_0_r. reflexivity.
  - cbn [is_Dir]. rewrite reachable_bytes_Dir.
    destruct readable; [|cbn; unfold ret; rewrite Z.add_0_r; reflexivity].
    cbn [walk_node Analyzer._get_directory_size_walk andb].
    destruct searchable.
    + apply well_formed_Dir in Hwf as [Hnodup Hall].
      erewrite bind_run.
      2:{ apply (_get_directory_size_files_quiet top i true entries entries);
            [exact Htop|].
          intros name child. apply find_entry_NoDup, Hnodup. }
      rewrite (sum_bytes_split entries), Z.add_assoc.
      generalize (total_size
                  + sum_bytes (filter (fun e => is_Dir e.2 = false) entries)).
      assert (Hsub : forall name child,
        (name, child) ∈ entries -> find_entry name entries = Some child)
        by (intros name child; apply find_entry_NoDup, Hnodup).
      clear Hnodup total_size.
      assert (Hdirs : forall sub,
        Forall (fun e => forall top total_size,
                  resolve root top = inr e.2 ->
                  well_formed e.2 = true ->
                  Analyzer._get_directory_size_walk unix (walk_node top e.2)
                    (d, total_size) =
                  ((d, total_size
                       + if is_Dir e.2 then reachable_bytes e.2 else 0),
                   Ret tt)) sub ->
        Forall (fun e => well_formed e.2 = true) sub ->
        (forall name child,
           (name, child) ∈ sub -> find_entry name entries = Some child) ->
        forall total_size,
          Analyzer._get_directory_size_walk unix
            (flat_map
               (fun '(name, child) =>
                  if is_Dir child then walk_node (top ++ [name]) child else [])
               sub) (d, total_size) =
          ((d, total_size
               + sum_bytes (filter (fun e => is_Dir e.2 = true) sub)), Ret tt)).
      { clear IH Hall.
        induction sub as [|[name child] rest IHrest];
          intros IH Hall Hin total_size.
        - unfold sum_bytes. cbn. unfold ret. rewrite Z.add_0_r. reflexivity.
        - cbn [flat_map]. rewrite _get_directory_size_walk_app.
          apply Forall_cons in IH as [IHchild IH].
          apply Forall_cons in Hall as [Hchild Hall].
          cbn [snd] in IHchild, Hchild.
          assert (Hrest : forall name child,
            (name, child) ∈ rest -> find_entry name entries = Some child)
            by (intros; apply Hin, list_elem_of_further; assumption).
          assert (Hresolve : resolve root (top ++ [name]) = inr child).
          { rewrite (resolve_entry _ _ _ _ _ _ _ Htop).
            rewrite (Hin _ _ (list_elem_of_here _ _)). reflexivity. }
          rewrite filter_cons. cbn [snd].
          destruct (is_Dir child) eqn:Hdir.
          + erewrite bind_run by apply (IHchild _ _ Hresolve Hchild).
            rewrite (IHrest IH Hall Hrest).
            rewrite decide_True by reflexivity. unfold sum_bytes. cbn [foldr].
            f_equal. f_equal. lia.
          + erewrite bind_run by reflexivity.
            rewrite (IHrest IH Hall Hrest).
            rewrite decide_False by discriminate. reflexivity. }
      intros total_size. apply (Hdirs entries IH Hall Hsub).
    + erewrite bind_run
        by (apply (_get_directory_size_files_locked top i true entries);
            exact Htop).
      cbn. unfold ret. rewrite Z.add_0_r. reflexivity.
Qed.

(** On a quiet disk the two scanners return the same size: the bytes that
    can be reached, with nothing for what cannot be listed or read. *)
Lemma _get_directory_size_quiet p n :
  well_formed root = true ->
  resolve root p = inr n ->
  Analyzer._get_directory_size unix p d = (d, Ret (reachable_bytes n)).
Proof.
  intros Hwf Hresolve. unfold Analyzer._get_directory_size.
  erewrite bind_run by apply os_path_exists_quiet.
  pose proof (well_formed_resolve _ _ _ Hwf Hresolve) as Hwf_n.
  unfold stat. rewrite Hresolve.
  destruct n as [i|i readable searchable entries|]; cbn [negb].
  - erewrite bind_run by apply os_path_isfile_quiet.
    unfold stat. rewrite Hresolve. cbn [stat_of st_kind].
    unfold try_except. rewrite os_path_getsize_quiet.
    unfold stat. rewrite Hresolve. reflexivity.
  - erewrite bind_run by apply os_path_isfile_quiet.
    unfold stat. rewrite Hresolve. cbn [stat_of st_kind].
    unfold try_except.
    erewrite bind_run by reflexivity.
    change (walk (current d) p) with (walk root p).
    unfold walk. rewrite Hresolve.
    rewrite (_get_directory_size_walk_quiet _ _ _ Hresolve Hwf_n). reflexivity.
  - reflexivity.
Qed.

(** C9. On a disk nobody else is writing to, for a directory under which
    there are only regular files and directories open to reading and
    searching, [get_size] of the directory is the sum of [get_size] of its
    entries, and neither is negative; that sum is the length of all the
    files below the directory. *)
Theorem get_size_additive p i entries :
  well_formed root = true ->
  resolve root p = inr (Dir i true true entries) ->
  plain (Dir i true true entries) = true ->
  exists sizes : list Z,
    Forall2 (fun name size =>
               get_size unix (p ++ [name]) d = (d, Ret size) /\ 0 <= size)
            (map fst entries) sizes
    /\ get_size unix p d = (d, Ret (foldr Z.add 0 sizes))
    /\ 0 <= foldr Z.add 0 sizes
    /\ foldr Z.add 0 sizes = total_bytes (Dir i true true entries).
Proof.
  intros Hwf Hresolve Hplain.
  exists (map (fun e => reachable_bytes e.2) entries).
  pose proof (well_formed_resolve _ _ _ Hwf Hresolve) as Hwf_dir.
  apply well_formed_Dir in Hwf_dir as [Hnodup _].
  assert (Hsum : foldr Z.add 0 (map (fun e => reachable_bytes e.2) entries)
                 = sum_bytes entries).
  { clear. induction entries as [|[name child] rest IH]; [reflexivity|].
    unfold sum_bytes in *. cbn [map foldr snd]. rewrite IH. reflexivity. }
  split; [|split; [|split]].
  - apply Forall2_fmap, Forall_Forall2_diag, Forall_forall.
    intros [name child] Hin. cbn [fst snd]. split.
    + apply get_size_quiet; [exact Hwf|].
      rewrite (resolve_entry _ _ _ _ _ _ _ Hresolve).
      rewrite (find_entry_NoDup _ _ _ Hnodup Hin). reflexivity.
    + apply reachable_bytes_nonneg.
  - rewrite Hsum. rewrite (get_size_quiet _ _ Hwf Hresolve).
    rewrite reachable_bytes_Dir. reflexivity.
  - rewrite Hsum.
    pose proof (reachable_bytes_nonneg (Dir i true true entries)) as Hnonneg.
    rewrite reachable_bytes_Dir in Hnonneg. exact Hnonneg.
  - rewrite Hsum, <- (plain_reachable_bytes _ Hplain), reachable_bytes_Dir.
    reflexivity.
Qed.

End QuietDisk.

Section SizeScenarios.

Import Os Utils Disk.

(** The [junit] directory of the repository: a jar of 2048 bytes and a pom
    of 512. *)
Lemma get_size_additive_witness :
  let d := quiet repository november_2023 in
  exists sizes : list Z,
    Forall2 (fun name size =>
               get_size unix (["junit"] ++ [name]) d = (d, Ret size) /\ 0 <= size)
            ["junit-4.12.jar"; "junit-4.12.pom"] sizes
    /\ get_size unix ["junit"] d = (d, Ret (foldr Z.add 0 sizes))
    /\ 0 <= foldr Z.add 0 sizes
    /\ foldr Z.add 0 sizes = 2560.
Proof.
  apply (get_size_additive repository november_2023 ["junit"]
           {| i_size := 64; i_atime := 0; i_mtime := 0; i_ctime := 0 |}
           [("junit-4.12.jar", File old_jar); ("junit-4.12.pom", file 512)]).
  - vm_compute. reflexivity.
  - reflexivity.
  - reflexivity.
Defined.

End SizeScenarios.

(* --------------------------------------------------------------------- *)
(** ** The size scanner of the analyzer, in any world *)
(* --------------------------------------------------------------------- *)

Section ScannerFacts.

Import Os Analyzer.

Context {World Path : Type}.
Variable sys : system World Path.

(** [os.stat] raises nothing but [OSError]. *)
Lemma os_stat_cases path w :
  (exists w' st, os_stat sys path w = (w', Ret st))
  \/ (exists w' e, os_stat sys path w = (w', Raise (OSError e))).
Proof.
  unfold os_stat, of_syscall.
  destruct (sys_stat sys path w) as [w' [e|st]]; eauto.
Qed.

Lemma os_path_exists_returns path w :
  exists w' there, os_path_exists sys path w = (w', Ret there).
Proof.
  unfold os_path_exists, try_except, bind.
  destruct (os_stat_cases path w) as [(w' & st & ->)|(w' & e & ->)];
    cbn; eauto.
Qed.

Lemma os_path_isfile_returns path w :
  exists w' is_file, os_path_isfile sys path w = (w', Ret is_file).
Proof.
  unfold os_path_isfile, try_except, bind.
  destruct (os_stat_cases path w) as [(w' & st & ->)|(w' & e & ->)];
    cbn; eauto.
Qed.

Lemma os_path_isdir_returns path w :
  exists w' is_dir, os_path_isdir sys path w = (w', Ret is_dir).
Proof.
  unfold os_path_isdir, try_except, bind.
  destruct (os_stat_cases path w) as [(w' & st & ->)|(w' & e & ->)];
    cbn; eauto.
Qed.

Lemma os_path_getsize_cases path w :
  (exists w' size, os_path_getsize sys path w = (w', Ret size) /\ 0 <= size)
  \/ (exists w' e, os_path_getsize sys path w = (w', Raise (OSError e))).
Proof.
  unfold os_path_getsize, bind.
  destruct (os_stat_cases path w) as [(w' & st & ->)|(w' & e & ->)].
  - left. exists w', (Z.of_N (st_size st)). split; [reflexivity | lia].
  - right. eauto.
Qed.

(** The inner loop of [_get_directory_size] goes through every name: a
    file whose length cannot be read adds nothing. *)
Lemma _get_directory_size_files_returns dirpath filenames w total_size :
  exists w' total_size',
    _get_directory_size_files sys dirpath filenames (w, total_size)
    = ((w', total_size'), Ret tt)
    /\ total_size <= total_size'.
Proof.
  revert w total_size.
  induction filenames as [|f rest IH]; intros w total_size.
  - exists w, total_size. split; [reflexivity | lia].
  - cbn [_get_directory_size_files].
    destruct (os_path_getsize_cases (join sys dirpath f) w)
      as [(w1 & size & Hsize & Hnonneg)|(w1 & e & Hsize)].
    + destruct (IH w1 (total_size + size)) as (w' & total' & Hrest & Hle).
      exists w', total'. split; [|lia].
      erewrite bind_run; [exact Hrest|].
      unfold try_except, bind, on_world, modify. rewrite Hsize. reflexivity.
    + destruct (IH w1 total_size) as (w' & total' & Hrest & Hle).
      exists w', total'. split; [|lia].
      erewrite bind_run; [exact Hrest|].
      unfold try_except, bind, on_world, modify. rewrite Hsize. reflexivity.
Qed.

Lemma _get_directory_size_walk_returns entries w total_size :
  exists w' total_size',
    _get_directory_size_walk sys entries (w, total_size)
    = ((w', total_size'), Ret tt)
    /\ total_size <= total_size'.
Proof.
  revert w total_size.
  induction entries as [|[[dirpath dirnames] filenames] rest IH];
    intros w total_size.
  - exists w, total_size. split; [reflexivity | lia].
  - cbn [_get_directory_size_walk].
    destruct (_get_directory_size_files_returns dirpath filenames w total_size)
      as (w1 & total1 & Hfiles & Hle1).
    destruct (IH w1 total1) as (w' & total' & Hrest & Hle).
    exists w', total'. split; [|lia].
    erewrite bind_run by exact Hfiles. exact Hrest.
Qed.

(** In every world, whatever fails and whenever, [_get_directory_size]
    returns a size, and the size is not negative. *)
Lemma _get_directory_size_returns path w :
  exists w' size,
    _get_directory_size sys path w = (w', Ret size) /\ 0 <= size.
Proof.
  unfold _get_directory_size.
  destruct (os_path_exists_returns path w) as (w1 & there & Hthere).
  erewrite bind_run by exact Hthere.
  destruct there; cbn [negb]; [|exists w1, 0; split; [reflexivity | lia]].
  destruct (os_path_isfile_returns path w1) as (w2 & is_file & Hfile).
  erewrite bind_run by exact Hfile.
  destruct is_file.
  - unfold try_except.
    destruct (os_path_getsize_cases path w2)
      as [(w3 & size & -> & Hnonneg)|(w3 & e & ->)].
    + exists w3, size. split; [reflexivity | assumption].
    + exists w3, 0. split; [reflexivity | lia].
  - unfold try_except, bind, on_world, os_walk.
    destruct (sys_walk sys path w2) as [w3 entries].
    destruct (_get_directory_size_walk_returns entries w3 0)
      as (w' & total & -> & Hle).
    exists w', total. split; [reflexivity | assumption].
Qed.

End ScannerFacts.

(* --------------------------------------------------------------------- *)
(** ** The report on one application *)
(* --------------------------------------------------------------------- *)

Section Preserves.

Context {S : Type}.
Implicit Types Q : S -> Prop.

Lemma preserves_ret {A} Q Q' (a : A) :
  (forall s, Q s -> Q' s) -> preserves Q Q' (ret a).
Proof. intros Hweaken s Hs. apply Hweaken, Hs. Qed.

Lemma preserves_bind {A B} Q Q1 Q' (m : M S A) (k : A -> M S B) :
  preserves Q Q1 m ->
  (forall s, Q1 s -> Q' s) ->
  (forall a, preserves Q1 Q' (k a)) ->
  preserves Q Q' (bind m k).
Proof.
  intros Hm Hweaken Hk s Hs. unfold bind. specialize (Hm s Hs).
  destruct (m s) as [s1 [a|e]]; cbn [fst] in *.
  - apply Hk, Hm.
  - apply Hweaken, Hm.
Qed.

Lemma preserves_try_except {A} Q Q1 Q' (m : M S A) catches (h : M S A) :
  preserves Q Q1 m ->
  (forall s, Q1 s -> Q' s) ->
  preserves Q1 Q' h ->
  preserves Q Q' (try_except m catches h).
Proof.
  intros Hm Hweaken Hh s Hs. unfold try_except. specialize (Hm s Hs).
  destruct (m s) as [s1 [a|e]]; cbn [fst] in *.
  - apply Hweaken, Hm.
  - destruct (catches e); [apply Hh, Hm | apply Hweaken, Hm].
Qed.

Lemma preserves_weaken {A} Q Q1 Q' (m : M S A) :
  preserves Q Q1 m -> (forall s, Q1 s -> Q' s) -> preserves Q Q' m.
Proof. intros Hm Hweaken s Hs. apply Hweaken, Hm, Hs. Qed.

End Preserves.

Section ReportFacts.

Import Os Analyzer.

Context {World Path : Type} `{EqDecision Path}.
Variable sys : system World Path.
Variable format_size : Z -> string.
Context {float : Type}.
Variable percentage : Z -> Z -> float.
Variable lower : string -> string.
Variable _get_bundle_id : Path -> M World (option string).
Implicit Types (self : AppDiskAnalyzer Path) (result : report Path float).
Local Abbreviation kept := (@Analyzer.kept World Path float).

Lemma recorded_total_insert (sizes : gmap string Z) key size :
  sizes !! key = None ->
  recorded_total (<[key := size]> sizes) = size + recorded_total sizes.
Proof.
  intros Hfresh. unfold recorded_total.
  apply (map_fold_insert_L (fun _ size total => size + total)); [|exact Hfresh].
  intros. lia.
Qed.

Lemma recorded_total_singleton key size :
  recorded_total {[ key := size ]} = size.
Proof.
  rewrite <- insert_empty, recorded_total_insert by apply lookup_empty.
  unfold recorded_total. rewrite map_fold_empty. lia.
Qed.

Lemma consistent_weaken keys keys' result :
  (forall key, key ∈ keys -> key ∈ keys') ->
  consistent keys result -> consistent keys' result.
Proof.
  intros Hsub (Htotal & Happ & Hkeys & Hdom).
  split; [exact Htotal|]. split; [exact Happ|]. split; [|exact Hdom].
  intros key size Hlookup. destruct (Hkeys _ _ Hlookup) as [Hin Hpositive].
  split; [apply Hsub, Hin | exact Hpositive].
Qed.

Lemma kept_weaken keys key s : kept keys s -> kept (key :: keys) s.
Proof.
  apply consistent_weaken. intros k Hk. apply list_elem_of_further, Hk.
Qed.

Lemma preserves_on_world {A} keys (m : M World A) :
  preserves (kept keys) (kept keys) (on_world m).
Proof.
  intros [w result] Hs. unfold on_world.
  destruct (m w) as [w' a]. exact Hs.
Qed.

Lemma preserves_read {A} keys (f : report Path float -> A) :
  preserves (kept keys) (kept keys) (read f).
Proof. intros [w result] Hs. exact Hs. Qed.

(** Recording a category that was not recorded before keeps the total
    equal to the sum. *)
Lemma preserves_record keys key size where_ :
  key ∉ keys ->
  (key ∈ aggregated -> 0 < size) ->
  preserves (kept keys) (kept (key :: keys)) (record format_size key size where_).
Proof.
  intros Hfresh Hpositive [w result] (Htotal & Happ & Hkeys & Hdom).
  cbn [snd] in Htotal, Happ, Hkeys, Hdom.
  assert (Hnone : sizes result !! key = None).
  { destruct (sizes result !! key) as [size'|] eqn:Hlookup; [|reflexivity].
    exfalso. apply Hfresh. exact (proj1 (Hkeys _ _ Hlookup)). }
  unfold kept, record, modify, consistent. cbn [fst snd sizes total_size locations].
  split; [|split; [|split]].
  - rewrite recorded_total_insert by exact Hnone. lia.
  - destruct Happ as [size' Happ]. exists size'.
    rewrite lookup_insert_ne; [exact Happ|]. intros ->. congruence.
  - intros key' size' Hlookup.
    destruct (decide (key = key')) as [<-|Hne].
    + rewrite lookup_insert_eq in Hlookup. injection Hlookup as <-.
      split; [apply list_elem_of_here | exact Hpositive].
    + rewrite lookup_insert_ne in Hlookup by exact Hne.
      destruct (Hkeys _ _ Hlookup) as [Hin Hpos].
      split; [apply list_elem_of_further, Hin | exact Hpos].
  - rewrite !dom_insert_L, Hdom. reflexivity.
Qed.

(** Proof steps for the finders: a call on the world or a read of the
    dict leaves the dict alone; an assignment-free exit keeps what holds. *)
Ltac weaken :=
  let s := fresh "s" in
  let Hs := fresh "Hs" in
  let k := fresh "k" in
  let Hk := fresh "Hk" in
  intros s Hs; revert Hs; apply consistent_weaken; intros k Hk;
  repeat first [exact Hk | apply list_elem_of_further].

Ltac through keys :=
  eapply (preserves_bind (kept keys) (kept keys));
  [first [apply preserves_on_world | apply preserves_read] | weaken |].

Ltac not_among :=
  let Hin := fresh "Hin" in
  intros Hin; apply list_elem_of_In in Hin; cbn in Hin; intuition discriminate.

Ltac exit_unchanged := apply preserves_ret; weaken.

Lemma _find_app_support_files_kept self bundle_id keys :
  "support" ∉ keys ->
  preserves (kept keys) (kept ("support" :: keys))
    (_find_app_support_files sys format_size self bundle_id).
Proof.
  intros Hfresh. unfold _find_app_support_files.
  through keys. intros name.
  through keys. intros [|].
  - through keys. intros size. apply preserves_record; [exact Hfresh | not_among].
  - through keys. intros [|].
    + through keys. intros size.
      apply preserves_record; [exact Hfresh | not_among].
    + exit_unchanged.
Qed.

Lemma _find_cache_files_kept self bundle_id keys :
  "cache" ∉ keys ->
  preserves (kept keys) (kept ("cache" :: keys))
    (_find_cache_files sys format_size self bundle_id).
Proof.
  intros Hfresh. unfold _find_cache_files.
  through keys. intros name.
  through keys. intros acc.
  through keys. intros acc'.
  through keys. intros listing.
  through keys. intros [total_cache_size cache_locations].
  destruct (bool_decide (0 < total_cache_size)) eqn:Hpositive.
  - apply bool_decide_eq_true in Hpositive.
    apply preserves_record; [exact Hfresh | intros _; exact Hpositive].
  - exit_unchanged.
Qed.

Lemma _find_preferences_kept self bundle_id keys :
  "preferences" ∉ keys ->
  preserves (kept keys) (kept ("preferences" :: keys))
    (_find_preferences sys format_size self bundle_id).
Proof.
  intros Hfresh. unfold _find_preferences.
  through keys. intros there.
  through keys. intros listing.
  through keys. intros total_pref_size.
  destruct (bool_decide (0 < total_pref_size)) eqn:Hpositive.
  - apply bool_decide_eq_true in Hpositive.
    apply preserves_record; [exact Hfresh | intros _; exact Hpositive].
  - exit_unchanged.
Qed.

Lemma _find_logs_kept self bundle_id keys :
  "crashes" ∉ keys ->
  "logs" ∉ "crashes" :: keys ->
  preserves (kept keys) (kept ("logs" :: "crashes" :: keys))
    (_find_logs sys format_size self bundle_id).
Proof.
  intros Hcrashes Hlogs. unfold _find_logs.
  through keys. intros name.
  through keys. intros acc.
  through keys. intros [total_logs_size log_locations].
  through keys. intros there.
  eapply (preserves_bind (kept keys) (kept ("crashes" :: keys))); [|weaken|].
  - destruct there; [|exit_unchanged].
    through keys. intros listing.
    through keys. intros [crash_size crash_paths].
    destruct (bool_decide (0 < crash_size)) eqn:Hpositive.
    + apply bool_decide_eq_true in Hpositive.
      apply preserves_record; [exact Hcrashes | intros _; exact Hpositive].
    + exit_unchanged.
  - intros _.
    destruct (bool_decide (0 < total_logs_size)) eqn:Hpositive.
    + apply bool_decide_eq_true in Hpositive.
      apply preserves_record; [exact Hlogs | intros _; exact Hpositive].
    + exit_unchanged.
Qed.

Lemma _find_containers_kept self bundle_id keys :
  "containers" ∉ keys ->
  preserves (kept keys) (kept ("containers" :: keys))
    (_find_containers sys format_size self bundle_id).
Proof.
  intros Hfresh. unfold _find_containers.
  through keys. intros there.
  destruct there; cbn [negb]; [|exit_unchanged].
  through keys. intros acc.
  through keys. intros listing.
  through keys. intros [total_container_size container_locations].
  destruct (bool_decide (0 < total_container_size)) eqn:Hpositive.
  - apply bool_decide_eq_true in Hpositive.
    apply preserves_record; [exact Hfresh | intros _; exact Hpositive].
  - exit_unchanged.
Qed.

Lemma _find_saved_state_kept self bundle_id keys :
  "saved_state" ∉ keys ->
  preserves (kept keys) (kept ("saved_state" :: keys))
    (_find_saved_state sys format_size self bundle_id).
Proof.
  intros Hfresh. unfold _find_saved_state.
  through keys. intros there.
  destruct there; cbn [negb]; [|exit_unchanged].
  through keys. intros there.
  destruct there; [|exit_unchanged].
  through keys. intros size.
  apply preserves_record; [exact Hfresh | not_among].
Qed.

(** The finders in a row, under the [try] of [_analyze_single_app]:
    wherever one of them raises, the dict is consistent. *)
Lemma finders_kept self bundle_id :
  preserves (kept ["app"])
    (kept ["saved_state"; "containers"; "logs"; "crashes"; "preferences";
           "cache"; "support"; "app"])
    (try_except
       (_find_app_support_files sys format_size self bundle_id;;
        _find_cache_files sys format_size self bundle_id;;
        _find_preferences sys format_size self bundle_id;;
        _find_logs sys format_size self bundle_id;;
        _find_containers sys format_size self bundle_id;;
        _find_saved_state sys format_size self bundle_id)
       any_Exception
       (ret tt)).
Proof.
  eapply preserves_try_except; [|intros s Hs; exact Hs | exit_unchanged].
  eapply preserves_bind;
    [apply _find_app_support_files_kept; not_among | weaken | intros _].
  eapply preserves_bind;
    [apply _find_cache_files_kept; not_among | weaken | intros _].
  eapply preserves_bind;
    [apply _find_preferences_kept; not_among | weaken | intros _].
  eapply preserves_bind;
    [apply _find_logs_kept; not_among | weaken | intros _].
  eapply preserves_bind;
    [apply _find_containers_kept; not_among | weaken | intros _].
  apply _find_saved_state_kept; not_among.
Qed.


End ReportFacts.

Section ReportScenarios.

Import Os Disk Analyzer.



End ReportScenarios.

(* --------------------------------------------------------------------- *)
(** ** The size scanner of core/utils.py while the disk changes *)
(* --------------------------------------------------------------------- *)

Section RaceScenarios.

Import Os Utils Disk.

(** C7. [get_size] of core/utils.py checks before it measures and does not
    guard the measuring. When README, a regular file, is deleted between
    [os.path.isfile] and [os.path.getsize], and when the [junit] directory
    is emptied between [os.path.exists] and [os.path.getsize] on one of its
    files, the [FileNotFoundError] of [os.path.getsize] leaves [get_size]:
    the scan raises, it returns neither 0 nor a sum. *)
Theorem get_size_raises_when_a_file_vanishes :
  (get_size unix ["README"] readme_vanishes).2 = Raise (OSError FileNotFoundError)
  /\ (get_size unix ["junit"] junit_emptied).2 = Raise (OSError FileNotFoundError).
Proof. split; reflexivity. Qed.

(** On the same disks [_get_directory_size] of the analyzer returns. *)
Example _get_directory_size_when_a_file_vanishes :
  (Analyzer._get_directory_size unix ["README"]
     {| current := repository; later := [repository; dir []];
        clock := november_2023 |}).2 = Ret 0
  /\ (Analyzer._get_directory_size unix ["junit"]
        {| current := repository;
           later := [repository; repository; dir [("junit", dir [])]];
           clock := november_2023 |}).2 = Ret 0.
Proof. split; reflexivity. Qed.

(** With nobody else writing, both scanners agree on the repository. *)
Example scanners_on_a_quiet_disk :
  (get_size unix [] (quiet repository november_2023)).2 = Ret 2660
  /\ (Analyzer._get_directory_size unix [] (quiet repository november_2023)).2
     = Ret 2660.
Proof. split; reflexivity. Qed.

End RaceScenarios.

(* ===================================================================== *)
(** * Further properties of the workflow *)
(* ===================================================================== *)

Section WorkflowTrace.

Import Core.

Context {Item W : Type}.
Variable py_str : Item -> string.
Implicit Types (self : Cleaner Item W) (r : run Item W) (w : W).

(** One turn of the real-run loop. *)
Lemma clean_items_cons self item rest acc r :
  clean_items py_str self (item :: rest) acc r =
  let '(w', outcome) := clean_item self item false (world r) in
  let called := trace r ++ [Call_clean_item item false] in
  let line prefix :=
    match item_str py_str self item w' with
    | Ret text => [Log_item prefix item (item_line prefix text)]
    | Raise _ => []
    end in
  match outcome with
  | Ret true =>
      clean_items py_str self rest (acc + 1)
        {| world := w'; trace := called ++ line "Cleaned" |}
  | Ret false =>
      clean_items py_str self rest acc
        {| world := w'; trace := called ++ line "Failed to clean" |}
  | Raise _ =>
      clean_items py_str self rest acc {| world := w'; trace := called |}
  end.
Proof.
  cbn [clean_items]. erewrite bind_run by apply attempt_call_run.
  destruct (clean_item self item false (world r)) as [w' [[|]|e]];
    cbn [fst snd]; try reflexivity;
    erewrite bind_run by apply attempt_log_item_run; reflexivity.
Qed.

(** The calls of the loop: one per item, in order, each on the world the
    previous one left. *)
Lemma clean_items_calls self items acc r :
  let r' := (clean_items py_str self items acc r).1 in
  filter (fun e => is_clean_item_call e = true) (trace r')
  = filter (fun e => is_clean_item_call e = true) (trace r)
    ++ map (fun item => Call_clean_item item false) items
  /\ world r' = foldl (fun w item => (clean_item self item false w).1) (world r) items.
Proof.
  revert acc r. induction items as [|item rest IH]; intros acc r.
  - cbn. rewrite app_nil_r. auto.
  - rewrite clean_items_cons. cbn [foldl map].
    destruct (clean_item self item false (world r)) as [w' [[|]|e]]; cbv zeta;
      cbn [fst];
      match goal with
      | |- context [clean_items py_str self rest ?a ?r1] =>
          destruct (IH a r1) as [IHcalls IHworld]
      end;
      rewrite IHcalls, IHworld; cbn [trace world];
      destruct (item_str py_str self item w') as [text|e'];
      rewrite ?filter_app, ?filter_cons, ?filter_nil; cbn [is_clean_item_call];
      rewrite ?decide_True by reflexivity;
      rewrite ?decide_False by discriminate;
      rewrite ?app_nil_r, <- ?app_assoc; auto.
Qed.

(** The lines of the loop when [item_to_str] returns on its items:
    "Cleaned" after a call that returned true, "Failed to clean" after one
    that returned false, nothing after one that raised. *)
Lemma clean_items_lines self items acc r :
  Forall (fun item => forall w, is_Ret (item_str py_str self item w) = true) items ->
  omap (fun e => match e with
                 | Log_item prefix item _ => Some (prefix, item)
                 | _ => None
                 end)
       (trace (clean_items py_str self items acc r).1)
  = omap (fun e => match e with
                   | Log_item prefix item _ => Some (prefix, item)
                   | _ => None
                   end) (trace r)
    ++ omap (fun '(item, outcome) =>
               match outcome with
               | Ret true => Some ("Cleaned", item)
               | Ret false => Some ("Failed to clean", item)
               | Raise _ => None
               end)
            (zip items (item_outcomes self items (world r))).
Proof.
  intros Htexts. revert acc r.
  induction Htexts as [|item rest Htext _ IH]; intros acc r.
  - cbn. rewrite app_nil_r. reflexivity.
  - rewrite clean_items_cons. cbn [item_outcomes].
    destruct (clean_item self item false (world r)) as [w' [[|]|e]]; cbv zeta;
      rewrite IH; cbn [trace world zip zip_with omap];
      try (specialize (Htext w');
           destruct (item_str py_str self item w') as [text|e']; [|discriminate]);
      rewrite ?omap_app; cbn [omap]; rewrite ?app_nil_r, <- ?app_assoc;
      reflexivity.
Qed.

(** X1. In a real run whose prerequisites pass and whose discovery returns a
    list, [clean] calls [clean_item(item, dry_run=False)] once on every
    discovered item, in discovery order, whatever the earlier calls returned
    or raised, and each call works on the world the previous one left. *)
Theorem real_run_tries_every_item_in_order self days_threshold w w1 w2 cleanable_items :
  check_prerequisites self w = (w1, Ret true) ->
  find_cleanable_items self days_threshold w1 = (w2, Ret cleanable_items) ->
  let r := (clean py_str self days_threshold false (start w)).1 in
  filter (fun e => is_clean_item_call e = true) (trace r)
  = map (fun item => Call_clean_item item false) cleanable_items
  /\ world r
     = foldl (fun w item => (clean_item self item false w).1) w2 cleanable_items.
Proof.
  intros Hpre Hfind.
  rewrite (clean_after_discovery _ _ _ _ _ _ _ _ Hpre Hfind). cbv zeta.
  destruct cleanable_items as [|item rest]; [split; reflexivity|].
  pose proof (clean_items_calls self (item :: rest) 0
    {| world := w2;
       trace := [Call_check_prerequisites;
                 Call_find_cleanable_items days_threshold] |}) as Hloop.
  unfold bind.
  destruct (clean_items py_str self (item :: rest) 0 _) as [r' [n|e]];
    cbn [fst] in *; exact Hloop.
Qed.

(** X2. Whatever the provider and the mode, every [clean_item] call that
    [clean] makes has [dry_run=False], and a dry run makes none. *)
Theorem clean_item_is_called_only_in_a_real_run self days_threshold dry_run w :
  Forall (fun e => match e with
                   | Call_clean_item _ flag => flag = false /\ dry_run = false
                   | _ => True
                   end)
         (trace (clean py_str self days_threshold dry_run (start w)).1).
Proof.
  destruct (check_prerequisites self w) as [w1 outcome] eqn:Hpre.
  assert (Hcases : outcome = Ret true \/ outcome <> Ret true)
    by (destruct outcome as [[|]|e]; auto; right; discriminate).
  destruct Hcases as [->|Hfail].
  2:{ rewrite (clean_prerequisites_not_met _ _ _ _ _ _ _ Hpre Hfail).
      repeat constructor. }
  destruct (find_cleanable_items self days_threshold w1) as [w2 found] eqn:Hfind.
  rewrite (clean_after_discovery _ _ _ _ _ _ _ _ Hpre Hfind). cbv zeta.
  destruct found as [[|item rest]|e]; try (repeat constructor).
  destruct dry_run.
  - rewrite bind_cases.
    match goal with
    | |- context [report_items py_str self ?items ?r2] =>
        destruct (report_items_trace py_str self items r2) as (lines & Hrun & Hlines);
        destruct (report_items py_str self items r2) as [r3 [[]|e]]
    end; cbn [fst] in Hrun; subst r3; unfold ret; cbn [fst trace];
      (apply Forall_app; split; [repeat constructor|]);
      (eapply Forall_impl; [exact Hlines|]);
      intros [| | |prefix it line]; cbn; tauto.
  - pose proof (clean_items_calls self (item :: rest) 0
      {| world := w2;
         trace := [Call_check_prerequisites;
                   Call_find_cleanable_items days_threshold] |}) as [Hcalls _].
    unfold bind.
    destruct (clean_items py_str self (item :: rest) 0 _) as [r' [n|e]];
      cbn [fst] in *;
      apply Forall_forall; intros ev Hin; destruct ev as [| |it flag|]; try exact I;
      (assert (Hin' : Call_clean_item it flag
                       ∈ filter (fun e => is_clean_item_call e = true) (trace r'))
         by (apply list_elem_of_filter; split; [reflexivity | exact Hin]);
       rewrite Hcalls in Hin'; apply list_elem_of_fmap in Hin' as (it' & Heq & _);
       injection Heq as _ ->; split; reflexivity).
Qed.


End WorkflowTrace.

Section WorkflowTraceScenarios.

Import Core.

(** Three items, the second raises: all three are tried, and the two that
    were cleaned are in [cleaned_items]. *)
Lemma real_run_tries_every_item_in_order_witness :
  let r := (clean mock_str scenario 30 false (start scenario_three_items)).1 in
  filter (fun e => is_clean_item_call e = true) (trace r)
  = [Call_clean_item item1 false; Call_clean_item item2 false;
     Call_clean_item item3 false]
  /\ world r = {| items := [item1; item2; item3]; cleaned_items := [item1; item3] |}.
Proof.
  apply (real_run_tries_every_item_in_order mock_str scenario 30
           scenario_three_items scenario_three_items scenario_three_items
           [item1; item2; item3]); reflexivity.
Defined.


End WorkflowTraceScenarios.

(* --------------------------------------------------------------------- *)
(** ** Further properties of the Kubernetes provider *)
(* --------------------------------------------------------------------- *)

Section WorkflowLines.

Import Core.

Context {Item W : Type}.
Variable py_str : Item -> string.
Implicit Types (self : Cleaner Item W) (r : run Item W) (w : W).

(** A provider whose [item_to_str] reads only keys that every item has:
    every item has its text. *)
Lemma item_str_formats self to_str item w :
  item_to_str self = Some (formats to_str) ->
  item_str py_str self item w = Ret (to_str item).
Proof. intros Hto_str. unfold item_str. rewrite Hto_str. reflexivity. Qed.

Lemma report_items_formats self to_str items r :
  item_to_str self = Some (formats to_str) ->
  report_items py_str self items r =
  ({| world := world r;
      trace := trace r ++
        map (fun item => Log_item "Would clean" item
                           (item_line "Would clean" (to_str item))) items |},
   Ret tt).
Proof.
  intros Hto_str.
  rewrite (report_items_run py_str self items (map to_str items)).
  - rewrite zip_with_fmap_r, zip_with_diag. reflexivity.
  - apply Forall2_fmap_r, Forall_Forall2_diag, Forall_forall.
    intros item _. apply item_str_formats, Hto_str.
Qed.

(** An item that [clean_item] refuses in every world gets its "Failed to
    clean" line. *)
Lemma refused_item_line self items item w :
  item ∈ items ->
  (forall w, (clean_item self item false w).2 = Ret false) ->
  ("Failed to clean", item)
    ∈ omap (fun '(item, outcome) =>
              match outcome with
              | Ret true => Some ("Cleaned", item)
              | Ret false => Some ("Failed to clean", item)
              | Raise _ => None
              end)
           (zip items (item_outcomes self items w)).
Proof.
  intros Hin Hrefused. revert w.
  induction items as [|item0 rest IH]; intros w; [inversion Hin|].
  cbn [item_outcomes].
  destruct (clean_item self item0 false w) as [w' outcome] eqn:Hcall.
  cbn [zip zip_with omap].
  apply elem_of_cons in Hin as [->|Hin].
  - pose proof (Hrefused w) as Hw. rewrite Hcall in Hw. cbn [snd] in Hw.
    subst outcome. apply list_elem_of_here.
  - destruct outcome as [[|]|e];
      try apply list_elem_of_further; apply IH, Hin.
Qed.

Lemma real_run_lines self days_threshold w w1 w2 cleanable_items :
  check_prerequisites self w = (w1, Ret true) ->
  find_cleanable_items self days_threshold w1 = (w2, Ret cleanable_items) ->
  Forall (fun item => forall w', is_Ret (item_str py_str self item w') = true)
         cleanable_items ->
  omap (fun e => match e with
                 | Log_item prefix item _ => Some (prefix, item)
                 | _ => None
                 end)
       (trace (clean py_str self days_threshold false (start w)).1)
  = omap (fun '(item, outcome) =>
            match outcome with
            | Ret true => Some ("Cleaned", item)
            | Ret false => Some ("Failed to clean", item)
            | Raise _ => None
            end)
         (zip cleanable_items (item_outcomes self cleanable_items w2)).
Proof.
  intros Hpre Hfind Htexts.
  rewrite (clean_after_discovery _ _ _ _ _ _ _ _ Hpre Hfind). cbv zeta.
  destruct cleanable_items as [|item rest]; [reflexivity|].
  pose proof (clean_items_lines py_str self (item :: rest) 0
    {| world := w2;
       trace := [Call_check_prerequisites;
                 Call_find_cleanable_items days_threshold] |} Htexts) as Hloop.
  unfold bind.
  destruct (clean_items py_str self (item :: rest) 0 _) as [r' [n|e]];
    cbn [fst] in *; exact Hloop.
Qed.

End WorkflowLines.

Section K8sMore.

Context {Cluster : Type}.
Variable run_command : string -> Z -> Cluster -> Cluster * result (option string).
Implicit Types (self : K8s.KubernetesCleaner) (item : K8s.item)
  (s : K8s.shell Cluster).



(** A real-run [clean_item] on an item that is not protected and has a
    known type issues one command. *)
Lemma k8s_clean_item_issues_one self item s :
  K8s.protected self item = false ->
  K8s.deletable_type (K8s.type item) = true ->
  exists cmd,
    K8s.issued (K8s.clean_item run_command self item false s).1
    = K8s.issued s ++ [cmd].
Proof.
  intros Hprot Htype.
  rewrite (clean_item_unprotected run_command self item false Hprot).
  unfold K8s.deletable_type in Htype.
  apply bool_decide_eq_true, list_elem_of_In in Htype. cbn in Htype.
  assert (Hrun : forall cmd, exists cmd',
    K8s.issued
      ((let* result := K8s._run_kubectl run_command self cmd (Some 45) in
        match result with
        | None => ret false
        | Some _ => ret true
        end) s).1
    = K8s.issued s ++ [cmd']).
  { intros cmd. exists cmd. unfold bind, K8s._run_kubectl, K8s.run.
    destruct (run_command cmd 45 (K8s.cluster s)) as [c [[output|]|e]];
      reflexivity. }
  destruct Htype as [<-|[<-|[<-|[<-|[]]]]]; cbn; apply Hrun.
Qed.

End K8sMore.

Section K8sWorkflow.

Context {Cluster : Type}.
Variable run_command : string -> Z -> Cluster -> Cluster * result (option string).
Variable py_str : K8s.item -> string.
Implicit Types (self : K8s.KubernetesCleaner) (item : K8s.item)
  (s : K8s.shell Cluster).

(** X6. When discovery returns an item that a protection rule covers, a
    dry run of the Kubernetes provider lists it as "Would clean", whereas a
    real run on the same cluster logs "Failed to clean" for it: the dry run
    does not consult the protection rules of [clean_item]. *)
Theorem k8s_dry_run_lists_what_a_real_run_refuses
    (find_cleanable_items :
       K8s.KubernetesCleaner -> Z -> M (K8s.shell Cluster) (list K8s.item))
    self item days_threshold args s s1 s2 cleanable_items :
  K8s.protected self item = true ->
  K8s.wants_help args = false ->
  K8s.check_prerequisites run_command self s = (s1, Ret true) ->
  find_cleanable_items self days_threshold s1 = (s2, Ret cleanable_items) ->
  item ∈ cleanable_items ->
  (exists line,
     Core.Log_item "Would clean" item line
       ∈ Core.trace (K8s.clean run_command py_str find_cleanable_items self
                       days_threshold true args (Core.start s)).1)
  /\ (exists line,
        Core.Log_item "Failed to clean" item line
          ∈ Core.trace (K8s.clean run_command py_str find_cleanable_items self
                          days_threshold false args (Core.start s)).1).
Proof.
  intros Hprot Hhelp Hpre Hfind Hin. unfold K8s.clean. rewrite Hhelp.
  set (provider := K8s.as_Cleaner run_command py_str find_cleanable_items self).
  split.
  - exists (Core.item_line "Would clean" (K8s.item_to_str py_str item)).
    rewrite (clean_after_discovery py_str provider days_threshold true
               s s1 s2 (Ret cleanable_items) Hpre Hfind). cbv zeta.
    destruct cleanable_items as [|item0 rest]; [inversion Hin|].
    erewrite bind_run
      by exact (report_items_formats py_str provider (K8s.item_to_str py_str)
                  _ _ eq_refl).
    unfold ret. cbn [fst Core.trace Core.world].
    apply elem_of_app. right.
    apply (list_elem_of_fmap_2
             (fun item => Core.Log_item "Would clean" item
                            (Core.item_line "Would clean"
                               (K8s.item_to_str py_str item)))).
    exact Hin.
  - pose proof (real_run_lines py_str provider days_threshold
                  s s1 s2 cleanable_items Hpre Hfind
                  ltac:(apply Forall_forall; intros; reflexivity)) as Hlines.
    pose proof (refused_item_line provider cleanable_items item s2 Hin) as Hline.
    rewrite <- Hlines in Hline.
    apply list_elem_of_omap in Hline as (e & He & Hshape).
    + destruct e as [| | |prefix item' line]; try discriminate.
      injection Hshape as -> ->. exists line. exact He.
    + intros w. cbn [Core.clean_item provider K8s.as_Cleaner].
      rewrite (clean_item_protected run_command self item false w Hprot).
      reflexivity.
Qed.

(** X7. Every item that [find_cleanable_items] of the Kubernetes provider
    returns carries one of the four types [clean_item] has a delete command
    for; so on a discovered item that no protection rule covers, a real-run
    [clean_item] always issues its delete command. And when the current
    context cannot be read, discovery returns the empty list after that one
    command, without running any of the four queries. *)
Theorem k8s_discovered_items_have_a_delete_command
    (pods replicasets configmaps secrets :
       K8s.KubernetesCleaner -> Z -> M (K8s.shell Cluster) (list K8s.item))
    self days_threshold s :
  let discovery :=
    K8sDiscovery.find_cleanable_items run_command pods replicasets configmaps
      secrets self days_threshold s in
  (forall cleanable_items item,
     discovery.2 = Ret cleanable_items ->
     item ∈ cleanable_items ->
     K8s.deletable_type (K8s.type item) = true
     /\ (K8s.protected self item = false ->
         forall s0, exists cmd,
           K8s.issued (K8s.clean_item run_command self item false s0).1
           = K8s.issued s0 ++ [cmd]))
  /\ (forall printed,
        (run_command "kubectl config current-context"
           (K8s.timeout self) (K8s.cluster s)).2 = Ret printed ->
        K8s.truthy printed = false ->
      discovery
      = ({| K8s.cluster := (run_command "kubectl config current-context"
                              (K8s.timeout self) (K8s.cluster s)).1;
            K8s.issued := K8s.issued s ++ ["kubectl config current-context"] |},
         Ret [])).
Proof.
  cbv zeta. split.
  - intros cleanable_items item Hfound Hin.
    assert (Htype : K8s.deletable_type (K8s.type item) = true).
    { unfold K8sDiscovery.find_cleanable_items in Hfound.
      rewrite bind_cases in Hfound.
      destruct (K8sDiscovery._get_current_context run_command self s)
        as [s1 [context|e]]; [|discriminate].
      destruct (K8s.truthy context); cbn [negb] in Hfound.
      2:{ injection Hfound as <-. inversion Hin. }
      rewrite bind_cases in Hfound.
      destruct (pods self days_threshold s1) as [s2 [l1|e]]; [|discriminate].
      rewrite bind_cases in Hfound.
      destruct (replicasets self days_threshold s2) as [s3 [l2|e]]; [|discriminate].
      rewrite bind_cases in Hfound.
      destruct (configmaps self days_threshold s3) as [s4 [l3|e]]; [|discriminate].
      rewrite bind_cases in Hfound.
      destruct (secrets self days_threshold s4) as [s5 [l4|e]]; [|discriminate].
      injection Hfound as <-.
      rewrite !elem_of_app, !list_elem_of_fmap in Hin.
      destruct Hin as [(r & -> & _)|[(r & -> & _)|[(r & -> & _)|(r & -> & _)]]];
        reflexivity. }
    split; [exact Htype|]. intros Hprot s0.
    pose proof (k8s_clean_item_issues_one run_command self item s0 Hprot Htype)
      as Hissued.
    exact Hissued.
  - intros printed Hprinted Hcontext.
    unfold K8sDiscovery.find_cleanable_items, K8sDiscovery._get_current_context,
      K8s._run_kubectl, K8s.run, bind.
    destruct (run_command "kubectl config current-context" (K8s.timeout self)
                (K8s.cluster s)) as [c context].
    cbn [fst snd] in *. subst context. rewrite Hcontext. reflexivity.
Qed.

End K8sWorkflow.

Section K8sWorkflowScenarios.

(** Discovery lets a pod of [kube-system] through on a cluster that is up:
    the dry run announces it, the real run refuses it. *)
Lemma k8s_dry_run_lists_what_a_real_run_refuses_witness :
  let discovery : K8s.KubernetesCleaner -> Z
                  -> M (K8s.shell (list string)) (list K8s.item) :=
    fun _ _ => ret [K8s.kube_proxy; K8s.old_pod] in
  let s := {| K8s.cluster := []; K8s.issued := [] |} in
  (exists line,
     Core.Log_item "Would clean" K8s.kube_proxy line
       ∈ Core.trace (K8s.clean K8sDiscovery.healthy (fun _ => "") discovery
                       (K8s.__init__ 30) 30 true None (Core.start s)).1)
  /\ (exists line,
        Core.Log_item "Failed to clean" K8s.kube_proxy line
          ∈ Core.trace (K8s.clean K8sDiscovery.healthy (fun _ => "") discovery
                          (K8s.__init__ 30) 30 false None (Core.start s)).1).
Proof.
  intros discovery s.
  eapply (k8s_dry_run_lists_what_a_real_run_refuses K8sDiscovery.healthy
            (fun _ => "") discovery (K8s.__init__ 30) K8s.kube_proxy 30 None s).
  - vm_compute. reflexivity.
  - reflexivity.
  - vm_compute. reflexivity.
  - reflexivity.
  - apply list_elem_of_here.
Defined.

(** A finished pod and a stale secret are discovered as a pod and a
    secret. *)
Lemma k8s_discovered_items_have_a_delete_command_witness :
  K8s.deletable_type
    (K8s.type (K8sDiscovery.set_type "secret" K8sDiscovery.stale_secret)) = true.
Proof.
  refine (proj1 (proj1 (k8s_discovered_items_have_a_delete_command
            K8sDiscovery.healthy
            (fun _ _ => ret [K8sDiscovery.finished_pod]) (fun _ _ => ret [])
            (fun _ _ => ret []) (fun _ _ => ret [K8sDiscovery.stale_secret])
            (K8s.__init__ 30) 30 {| K8s.cluster := []; K8s.issued := [] |})
          [K8sDiscovery.set_type "pod" K8sDiscovery.finished_pod;
           K8sDiscovery.set_type "secret" K8sDiscovery.stale_secret]
          (K8sDiscovery.set_type "secret" K8sDiscovery.stale_secret) _ _)).
  - vm_compute. reflexivity.
  - apply list_elem_of_further, list_elem_of_here.
Defined.

End K8sWorkflowScenarios.

(* --------------------------------------------------------------------- *)
(** ** Further properties of the age test and of the scanners *)
(* --------------------------------------------------------------------- *)

Section AgeMore.

Import Os Utils.

Context {World Path : Type}.
Variable sys : system World Path.

(** X8. [is_unused] never raises, whatever the path, the threshold, the
    time zone and the state of the disk; and for a threshold of more than
    999999999 days, in either direction, it answers false whatever the age
    of the file. *)
Theorem is_unused_never_raises path days_threshold w :
  let outcome := (is_unused sys path days_threshold w).2 in
  (exists answer, outcome = Ret answer)
  /\ (timedelta_max_days < Z.abs days_threshold -> outcome = Ret false).
Proof.
  cbv zeta.
  destruct (sys_stat sys path w) as [w1 [e|stat_info]] eqn:Hstat.
  - unfold is_unused, try_except, bind, os_stat, of_syscall. rewrite Hstat.
    cbn. eauto.
  - destruct (sys_now sys w1) as [w2 now] eqn:Hnow.
    rewrite (is_unused_after_stat _ _ _ _ _ _ _ _ Hstat Hnow). cbv zeta.
    destruct (sys_localtime sys (Z.max _ _)) as [last_access_date|];
      cbn [snd]; [|eauto].
    destruct (is_datetime last_access_date); cbn [snd]; [|eauto].
    split; [eauto|]. intros Hbig.
    destruct (sys_localtime sys now) as [today|]; [|reflexivity].
    rewrite (bool_decide_eq_false_2 (Z.abs days_threshold <= timedelta_max_days))
      by lia.
    rewrite andb_false_r. reflexivity.
Qed.

(** X9. A stricter threshold never finds more: when [is_unused] answers
    true for a threshold, it answers true, on the same answers of the
    system, for every smaller threshold that is not negative. *)
Theorem is_unused_monotone path days_threshold days_threshold' w w' :
  0 <= days_threshold' <= days_threshold ->
  is_unused sys path days_threshold w = (w', Ret true) ->
  is_unused sys path days_threshold' w = (w', Ret true).
Proof.
  intros Hdays Hunused.
  destruct (sys_stat sys path w) as [w1 [e|stat_info]] eqn:Hstat.
  - unfold is_unused, try_except, bind, os_stat, of_syscall in Hunused.
    rewrite Hstat in Hunused. discriminate.
  - destruct (sys_now sys w1) as [w2 now] eqn:Hnow.
    rewrite (is_unused_after_stat _ path days_threshold _ _ _ _ _ Hstat Hnow)
      in Hunused.
    rewrite (is_unused_after_stat _ path days_threshold' _ _ _ _ _ Hstat Hnow).
    cbv zeta in *.
    destruct (sys_localtime sys (Z.max _ _)) as [last_access_date|];
      [|discriminate].
    destruct (is_datetime last_access_date) eqn:Hlast; [|discriminate].
    injection Hunused as <- Hanswer. f_equal. f_equal.
    destruct (sys_localtime sys now) as [today|]; [|discriminate].
    rewrite !andb_true_iff, !bool_decide_eq_true in Hanswer |- *.
    destruct Hanswer as [[[Htoday Hdelta] Hsub] Hold].
    unfold is_datetime, usec_per_day, timedelta_max_days in *.
    rewrite !andb_true_iff, !bool_decide_eq_true in *. lia.
Qed.

End AgeMore.

Section AgeMoreScenario.

Import Os Utils Disk.

(** The jar that is unused under a threshold of ninety days is unused
    under thirty. *)
Lemma is_unused_monotone_witness :
  is_unused unix ["junit"; "junit-4.12.jar"] 30 (quiet repository november_2023)
  = (quiet repository november_2023, Ret true).
Proof.
  apply (is_unused_monotone unix ["junit"; "junit-4.12.jar"] 90 30).
  - lia.
  - reflexivity.
Defined.

End AgeMoreScenario.

Section ScannersMore.

Import Os Utils Disk.

(** X10. In every state of the world, changing or not, whatever fails and
    whenever, [_get_directory_size] of the analyzer returns a size, and the
    size is not negative. *)
Theorem analyzer_scanner_always_returns {World Path : Type}
    (sys : system World Path) path w :
  exists w' size,
    Analyzer._get_directory_size sys path w = (w', Ret size) /\ 0 <= size.
Proof. apply _get_directory_size_returns. Qed.

Lemma _get_directory_size_unreachable root now p e :
  resolve root p = inl e ->
  Analyzer._get_directory_size unix p (quiet root now) = (quiet root now, Ret 0).
Proof.
  intros Hresolve. unfold Analyzer._get_directory_size.
  erewrite bind_run by apply os_path_exists_quiet.
  unfold stat. rewrite Hresolve. reflexivity.
Qed.

(** X11. On a disk nobody else is writing to, with unique names in every
    directory, [get_size] of core/utils.py and [_get_directory_size] of the
    analyzer return the same size for every path, neither raises, and
    neither changes the disk: the length of a regular file, the bytes that
    can be reached below a directory, and 0 for a path that does not exist
    or cannot be reached. *)
Theorem scanners_agree_on_a_quiet_disk root now p :
  well_formed root = true ->
  let d := quiet root now in
  let size :=
    match resolve root p with
    | inr n => reachable_bytes n
    | inl _ => 0
    end in
  get_size unix p d = (d, Ret size)
  /\ Analyzer._get_directory_size unix p d = (d, Ret size)
  /\ 0 <= size.
Proof.
  intros Hwf d size. subst d size.
  destruct (resolve root p) as [e|n] eqn:Hresolve.
  - rewrite (get_size_unreachable _ _ _ _ Hresolve).
    rewrite (_get_directory_size_unreachable _ _ _ _ Hresolve).
    repeat split; lia.
  - rewrite (get_size_quiet _ _ _ _ Hwf Hresolve).
    rewrite (_get_directory_size_quiet _ _ _ _ Hwf Hresolve).
    repeat split. apply reachable_bytes_nonneg.
Qed.

(** The repository, its README, and a path that is not there. *)
Lemma scanners_agree_on_a_quiet_disk_witness :
  let d := quiet repository november_2023 in
  get_size unix ["junit"] d = (d, Ret 2560)
  /\ Analyzer._get_directory_size unix ["junit"] d = (d, Ret 2560)
  /\ 0 <= 2560.
Proof.
  apply (scanners_agree_on_a_quiet_disk repository november_2023 ["junit"]).
  vm_compute. reflexivity.
Defined.

End ScannersMore.

(* --------------------------------------------------------------------- *)
(** ** Further properties of the application report *)
(* --------------------------------------------------------------------- *)

Section ReportMore.

Import Os Analyzer.

Context {World Path : Type} `{EqDecision Path}.
Variable sys : system World Path.
Variable format_size : Z -> string.
Context {float : Type}.
Variable percentage : Z -> Z -> float.
Variable lower : string -> string.
Variable _get_bundle_id : Path -> M World (option string).
Implicit Types (self : AppDiskAnalyzer Path) (result : report Path float).

(** A property [Q] of the dict, as a predicate on the world and the dict
    together. *)
Local Abbreviation on_dict Q := (fun s : World * report Path float => Q s.2).

Lemma stable_on_world {A B} (Q : report Path float -> Prop) (m : M World A)
    (k : A -> M (World * report Path float) B) :
  (forall a, preserves (on_dict Q) (on_dict Q) (k a)) ->
  preserves (on_dict Q) (on_dict Q) (bind (on_world m) k).
Proof.
  intros Hk [w result] Hs. unfold bind, on_world.
  destruct (m w) as [w' [a|e]]; [apply (Hk a (w', result)) | ]; exact Hs.
Qed.

Lemma stable_measure {B} (Q : report Path float -> Prop) p
    (k : Z -> M (World * report Path float) B) :
  (forall size, 0 <= size -> preserves (on_dict Q) (on_dict Q) (k size)) ->
  preserves (on_dict Q) (on_dict Q)
    (bind (on_world (_get_directory_size sys p)) k).
Proof.
  intros Hk [w result] Hs. unfold bind, on_world.
  destruct (_get_directory_size_returns sys p w) as (w' & size & -> & Hnonneg).
  apply (Hk size Hnonneg (w', result)). exact Hs.
Qed.

Lemma stable_read {A B} (Q : report Path float -> Prop)
    (f : report Path float -> A) (k : A -> M (World * report Path float) B) :
  (forall a, preserves (on_dict Q) (on_dict Q) (k a)) ->
  preserves (on_dict Q) (on_dict Q) (bind (read f) k).
Proof. intros Hk [w result] Hs. apply (Hk (f result) (w, result)). exact Hs. Qed.

Lemma stable_seq {A B} (Q : report Path float -> Prop)
    (m : M (World * report Path float) A) (k : A -> M (World * report Path float) B) :
  preserves (on_dict Q) (on_dict Q) m ->
  (forall a, preserves (on_dict Q) (on_dict Q) (k a)) ->
  preserves (on_dict Q) (on_dict Q) (bind m k).
Proof.
  intros Hm Hk. eapply preserves_bind; [exact Hm | intros s Hs; exact Hs | exact Hk].
Qed.

Lemma stable_ret {A} (Q : report Path float -> Prop) (a : A) :
  preserves (on_dict Q) (on_dict Q) (ret a).
Proof. intros s Hs. exact Hs. Qed.

(** One step through a finder, for a property that every recording of a
    size that is not negative keeps. *)
Ltac stable_step Hrecord :=
  lazymatch goal with
  | |- preserves _ _ (bind (on_world (_get_directory_size _ _)) _) =>
      apply stable_measure; intros ? ?
  | |- preserves _ _ (bind (on_world _) _) => apply stable_on_world; intros ?
  | |- preserves _ _ (bind (read _) _) => apply stable_read; intros ?
  | |- preserves _ _ (bind _ _) => apply stable_seq; [|intros ?]
  | |- preserves _ _ (ret _) => apply stable_ret
  | |- preserves _ _ (record _ _ _ _) => apply Hrecord; lia
  | |- preserves _ _ (if bool_decide (0 < ?x) then _ else _) =>
      let Hpositive := fresh "Hpositive" in
      destruct (bool_decide (0 < x)) eqn:Hpositive;
      [apply bool_decide_eq_true in Hpositive|]
  | |- preserves _ _ (if negb ?b then _ else _) => destruct b; cbn [negb]
  | |- preserves _ _ (if ?b then _ else _) => destruct b
  | |- preserves _ _ (match ?x with pair _ _ => _ end) => destruct x
  end.

(** The finders keep every property of the dict that recording a size
    that is not negative keeps, wherever they stop. *)
Lemma finders_stable (Q : report Path float -> Prop) self bundle_id :
  (forall key size where_,
     0 <= size ->
     preserves (on_dict Q) (on_dict Q) (record format_size key size where_)) ->
  preserves (on_dict Q) (on_dict Q)
    (try_except
       (_find_app_support_files sys format_size self bundle_id;;
        _find_cache_files sys format_size self bundle_id;;
        _find_preferences sys format_size self bundle_id;;
        _find_logs sys format_size self bundle_id;;
        _find_containers sys format_size self bundle_id;;
        _find_saved_state sys format_size self bundle_id)
       any_Exception
       (ret tt)).
Proof.
  intros Hrecord.
  eapply preserves_try_except; [|intros s Hs; exact Hs | apply stable_ret].
  unfold _find_app_support_files, _find_cache_files, _find_preferences,
    _find_logs, _find_containers, _find_saved_state.
  repeat stable_step Hrecord.
Qed.

(** Sizes that are not negative add up to at least each of them. *)
Lemma recorded_total_nonneg (sizes : gmap string Z) :
  (forall key size, sizes !! key = Some size -> 0 <= size) ->
  0 <= recorded_total sizes.
Proof.
  induction sizes as [|key size sizes Hfresh _ IH] using map_first_key_ind.
  - intros _. unfold recorded_total. rewrite map_fold_empty. lia.
  - intros Hall. rewrite recorded_total_insert by exact Hfresh.
    assert (0 <= size) by (apply (Hall key); apply lookup_insert_eq).
    assert (0 <= recorded_total sizes); [|lia].
    apply IH. intros key' size' Hlookup. apply (Hall key').
    rewrite lookup_insert_ne; [exact Hlookup|]. intros ->. congruence.
Qed.

Lemma recorded_total_bound (sizes : gmap string Z) key size :
  (forall key size, sizes !! key = Some size -> 0 <= size) ->
  sizes !! key = Some size ->
  size <= recorded_total sizes.
Proof.
  intros Hall Hlookup.
  rewrite <- (insert_delete_id sizes key size Hlookup).
  rewrite recorded_total_insert by apply lookup_delete_eq.
  assert (0 <= recorded_total (delete key sizes)); [|lia].
  apply recorded_total_nonneg. intros key' size' Hlookup'.
  apply lookup_delete_Some in Hlookup' as [_ Hlookup']. exact (Hall _ _ Hlookup').
Qed.

(** The steps of a run of [_analyze_single_app] that returned a report. *)
Lemma _analyze_single_app_steps self app_path w w' result :
  _analyze_single_app sys format_size percentage lower _get_bundle_id self app_path w
  = (w', Ret (Some result)) ->
  exists w1 w2 found w3 app_bundle_size final outcome,
    let app_name := Str.replace (basename sys app_path) ".app" "" in
    let made_up := "com.unknown." +:+ Str.replace (lower app_name) " " "" in
    let bundle_id :=
      match found with
      | Some id => if bool_decide (id = "") then made_up else id
      | None => made_up
      end in
    os_path_exists sys app_path w = (w1, Ret true)
    /\ _get_bundle_id app_path w1 = (w2, Ret found)
    /\ try_except (_get_directory_size sys app_path) any_Exception (ret 0) w2
       = (w3, Ret app_bundle_size)
    /\ try_except
         (_find_app_support_files sys format_size self bundle_id;;
          _find_cache_files sys format_size self bundle_id;;
          _find_preferences sys format_size self bundle_id;;
          _find_logs sys format_size self bundle_id;;
          _find_containers sys format_size self bundle_id;;
          _find_saved_state sys format_size self bundle_id)
         any_Exception (ret tt)
         (w3, {| name := app_name;
                 bundle_id := bundle_id;
                 path := app_path;
                 sizes := {[ "app" := app_bundle_size ]};
                 sizes_formatted := {[ "app" := format_size app_bundle_size ]};
                 total_size := app_bundle_size;
                 locations := {[ "app" := One app_path ]};
                 total_size_formatted := None;
                 percentages := None |})
       = ((w', final), outcome)
    /\ result = finish format_size percentage final.
Proof.
  unfold _analyze_single_app. intros Hrun.
  rewrite bind_cases in Hrun.
  destruct (os_path_exists sys app_path w) as [w1 [[|]|e]] eqn:Hexists;
    cbn [negb] in Hrun; try discriminate.
  rewrite bind_cases in Hrun.
  destruct (_get_bundle_id app_path w1) as [w2 [found|e]] eqn:Hid;
    try discriminate.
  rewrite bind_cases in Hrun.
  destruct (try_except (_get_directory_size sys app_path) any_Exception (ret 0) w2)
    as [w3 [app_bundle_size|e]] eqn:Hsize; try discriminate.
  match type of Hrun with
  | context [try_except ?finders _ _ (w3, ?initial)] =>
      destruct (try_except finders any_Exception (ret tt) (w3, initial))
        as [[w4 final] outcome] eqn:Hfinders
  end.
  injection Hrun as <- <-.
  exists w1, w2, found, w3, app_bundle_size, final, outcome. cbv zeta.
  split; [reflexivity|]. split; [exact Hid|]. split; [exact Hsize|].
  split; [exact Hfinders | reflexivity].
Qed.

(** X12. Provided [_get_bundle_id] returns, [_analyze_single_app] never
    raises, in any state of the world: whatever fails while the support
    files, caches, preferences, logs, containers and saved state are looked
    for, a report is returned whenever the bundle was found to exist, and
    [None] exactly when it was not. *)
Theorem report_survives_failing_finders self app_path w :
  (forall w1, exists w2 found, _get_bundle_id app_path w1 = (w2, Ret found)) ->
  exists w' answer,
    _analyze_single_app sys format_size percentage lower _get_bundle_id self app_path w
    = (w', Ret answer)
    /\ (answer = None <-> (os_path_exists sys app_path w).2 = Ret false).
Proof.
  intros Hid. unfold _analyze_single_app. rewrite bind_cases.
  destruct (os_path_exists_returns sys app_path w) as (w1 & there & ->).
  destruct there; cbn [negb snd].
  2:{ exists w1, None. split; [reflexivity | tauto]. }
  rewrite bind_cases. destruct (Hid w1) as (w2 & found & ->).
  rewrite bind_cases.
  destruct (_get_directory_size_returns sys app_path w2) as (w3 & size & Hsize & _).
  unfold try_except at 1. rewrite Hsize.
  match goal with
  | |- context [try_except ?finders _ _ (w3, ?initial)] =>
      destruct (try_except finders any_Exception (ret tt) (w3, initial))
        as [[w4 final] outcome]
  end.
  eexists _, _. split; [reflexivity|]. split; discriminate.
Qed.

(** X13. A report carries the path it was asked about, the bundle's file
    name without ".app" as its name, and a bundle identifier that is never
    empty: the one [_get_bundle_id] found, or, when it found none or an
    empty one, "com.unknown." followed by the name in lower case without
    spaces. No finder changes any of the three. *)
Theorem report_identity self app_path w w' result :
  _analyze_single_app sys format_size percentage lower _get_bundle_id self app_path w
  = (w', Ret (Some result)) ->
  path result = app_path
  /\ name result = Str.replace (basename sys app_path) ".app" ""
  /\ bundle_id result <> ""
  /\ (bundle_id result
      = "com.unknown." +:+ Str.replace (lower (name result)) " " ""
      \/ exists w1 w2,
           _get_bundle_id app_path w1 = (w2, Ret (Some (bundle_id result)))).
Proof.
  intros Hrun.
  apply _analyze_single_app_steps in Hrun
    as (w1 & w2 & found & w3 & size & final & outcome & Hsteps).
  cbv zeta in Hsteps. destruct Hsteps as (_ & Hid & _ & Hfinders & ->).
  match type of Hfinders with
  | try_except _ _ _ (_, ?initial) = _ =>
      pose proof (finders_stable
        (fun r => name r = name initial /\ bundle_id r = bundle_id initial
                  /\ path r = path initial)
        self (bundle_id initial)) as Hstable
  end.
  cbn [name bundle_id path] in Hstable.
  match type of Hfinders with
  | try_except _ _ _ ?start = _ => specialize (Hstable ltac:(
      intros key sz where_ _ [w0 r0] Hs; exact Hs) start)
  end.
  rewrite Hfinders in Hstable. cbn [fst snd name bundle_id path] in Hstable.
  destruct Hstable as (Hname & Hbundle & Hpath); [auto|].
  unfold finish. cbn [name bundle_id path].
  rewrite Hname, Hbundle, Hpath.
  split; [reflexivity|]. split; [reflexivity|].
  destruct found as [id|].
  - destruct (bool_decide (id = "")) eqn:Hempty.
    + split; [discriminate | left; reflexivity].
    + apply bool_decide_eq_false in Hempty.
      split; [exact Hempty | right; eauto].
  - split; [discriminate | left; reflexivity].
Qed.

(** X14. In every report, every recorded size lies between 0 and
    [total_size]: no category weighs more than the whole. *)
Theorem recorded_sizes_are_within_total self app_path w w' result :
  _analyze_single_app sys format_size percentage lower _get_bundle_id self app_path w
  = (w', Ret (Some result)) ->
  forall key size,
    sizes result !! key = Some size -> 0 <= size <= total_size result.
Proof.
  intros Hrun.
  apply _analyze_single_app_steps in Hrun
    as (w1 & w2 & found & w3 & app_size & final & outcome & Hsteps).
  cbv zeta in Hsteps. destruct Hsteps as (_ & _ & Hsize & Hfinders & ->).
  assert (Happ : 0 <= app_size).
  { destruct (_get_directory_size_returns sys app_path w2)
      as (w3' & size' & Hreturns & Hnonneg).
    unfold try_except in Hsize. rewrite Hreturns in Hsize.
    injection Hsize as _ <-. exact Hnonneg. }
  match type of Hfinders with
  | try_except _ _ _ (?w0, ?initial) = _ =>
      pose proof (finders_stable
        (fun r => forall key size, sizes r !! key = Some size -> 0 <= size)
        self (bundle_id initial)) as Hstable;
      pose proof (finders_kept sys format_size percentage lower self
                    (bundle_id initial) (w0, initial)) as Hkept
  end.
  cbn [bundle_id] in Hstable, Hkept.
  match type of Hfinders with
  | try_except _ _ _ ?start = _ => specialize (Hstable ltac:(
      intros key sz where_ Hsz [w0 r0] Hs key' size'; cbn;
      intros Hlookup;
      destruct (decide (key = key')) as [<-|Hne];
      [rewrite lookup_insert_eq in Hlookup; injection Hlookup as <-; exact Hsz
      |rewrite lookup_insert_ne in Hlookup by exact Hne; exact (Hs _ _ Hlookup)])
      start)
  end.
  rewrite Hfinders in Hstable, Hkept. cbn [fst snd sizes] in Hstable.
  assert (Hnonneg : forall key size, sizes final !! key = Some size -> 0 <= size).
  { apply Hstable. intros key size Hlookup.
    apply lookup_singleton_Some in Hlookup as [_ <-]. exact Happ. }
  destruct Hkept as (Htotal & _).
  { unfold kept, consistent. cbn [snd sizes total_size locations].
    split; [|split; [|split]].
    - rewrite recorded_total_singleton. reflexivity.
    - rewrite lookup_singleton_eq. eauto.
    - intros key size Hlookup.
      apply lookup_singleton_Some in Hlookup as [<- _].
      split; [apply list_elem_of_here|].
      intros Hin. apply list_elem_of_In in Hin. cbn in Hin.
      intuition discriminate.
    - rewrite !dom_singleton_L. reflexivity. }
  cbn [fst snd] in Htotal. unfold finish. cbn [sizes total_size].
  intros key size Hlookup. split.
  - exact (Hnonneg _ _ Hlookup).
  - rewrite Htotal. exact (recorded_total_bound _ _ _ Hnonneg Hlookup).
Qed.

End ReportMore.

Section ReportMoreScenarios.

Import Os Disk Analyzer.

Lemma report_survives_failing_finders_witness :
  exists w' answer,
    _analyze_single_app unix bytes tenths_of_percent Str.lower no_bundle_id at_home
      ["Applications"; "Foo.app"] (quiet home november_2023)
    = (w', Ret answer)
    /\ (answer = None
        <-> (os_path_exists unix ["Applications"; "Foo.app"]
               (quiet home november_2023)).2 = Ret false).
Proof.
  apply (report_survives_failing_finders unix bytes tenths_of_percent Str.lower
           no_bundle_id at_home ["Applications"; "Foo.app"]
           (quiet home november_2023)).
  intros w1. eexists _, _. reflexivity.
Defined.

(** Foo.app has no Info.plist: the report is filed under
    "com.unknown.foo". *)
Lemma report_identity_witness :
  exists w' result,
    _analyze_single_app unix bytes tenths_of_percent Str.lower no_bundle_id at_home
      ["Applications"; "Foo.app"] (quiet home november_2023)
    = (w', Ret (Some result))
    /\ bundle_id result = "com.unknown.foo"
    /\ name result = "Foo"
    /\ path result = ["Applications"; "Foo.app"].
Proof.
  eexists _, _. split; [vm_compute; reflexivity|].
  split; [reflexivity|]. split; [reflexivity|].
  refine (proj1 (report_identity unix bytes tenths_of_percent Str.lower no_bundle_id
                   at_home ["Applications"; "Foo.app"]
                   (quiet home november_2023) _ _ _)).
  vm_compute. reflexivity.
Defined.

Lemma recorded_sizes_are_within_total_witness :
  exists w' result,
    _analyze_single_app unix bytes tenths_of_percent Str.lower no_bundle_id at_home
      ["Applications"; "Foo.app"] (quiet home november_2023)
    = (w', Ret (Some result))
    /\ sizes result !! "cache" = Some 50
    /\ 0 <= 50 <= total_size result.
Proof.
  eexists _, _. split; [vm_compute; reflexivity|].
  split; [vm_compute; reflexivity|].
  refine (recorded_sizes_are_within_total unix bytes tenths_of_percent Str.lower
            no_bundle_id at_home ["Applications"; "Foo.app"]
            (quiet home november_2023) _ _ _ "cache" 50 _).
  - vm_compute. reflexivity.
  - vm_compute. reflexivity.
Defined.

End ReportMoreScenarios.

(* --------------------------------------------------------------------- *)
(** ** What the Maven provider can offer, on any disk *)
(* --------------------------------------------------------------------- *)

Section MavenAnywhere.

Import Os Utils Maven.

Context {World Path : Type}.
Variable sys : system World Path.
Variable human_readable_size : Z -> string.
Variable os_path_relpath : Path -> Path -> string.

(** The loop only adds, and only directories of the walk that hold an
    artifact. *)
Lemma scan_adds_artifact_roots repo_path days_threshold entries :
  forall unused_artifacts total_size w w' items,
    scan sys human_readable_size os_path_relpath repo_path days_threshold
         entries unused_artifacts total_size w = (w', Ret items) ->
    exists found,
      items = unused_artifacts ++ found
      /\ sublist (map path found)
                 (map (fun e => e.1.1)
                      (List.filter (fun e => is_artifact_root e.2) entries))
      /\ Forall (fun item =>
                   rel_path item = os_path_relpath (path item) repo_path
                   /\ human_size item = human_readable_size (size item))
                found.
Proof.
  induction entries as [|[[root dirs] files] rest IH];
    intros acc total w w' items Hscan.
  - cbn in Hscan. injection Hscan as _ <-. exists [].
    rewrite app_nil_r. repeat split; constructor.
  - cbn [scan] in Hscan. cbn [List.filter snd].
    destruct (is_artifact_root files); [|exact (IH _ _ _ _ _ Hscan)].
    rewrite bind_cases in Hscan.
    destruct (is_unused sys root days_threshold w) as [w1 [[|]|e]];
      [| |discriminate].
    + rewrite bind_cases in Hscan.
      destruct (get_size sys root w1) as [w2 [size|e]]; [|discriminate].
      destruct (IH _ _ _ _ _ Hscan) as (found & -> & Hsub & Hall).
      eexists (_ :: found). rewrite <- app_assoc. split; [reflexivity|].
      split.
      * cbn [map fst path]. apply sublist_skip. exact Hsub.
      * constructor; [split; reflexivity|exact Hall].
    + destruct (IH _ _ _ _ _ Hscan) as (found & -> & Hsub & Hall).
      exists found. split; [reflexivity|]. split; [|exact Hall].
      cbn [map]. apply sublist_cons. exact Hsub.
Qed.

(** X15. Whatever the state of the disk, and whoever else is writing to it,
    discovery in the Maven provider offers nothing but artifact directories:
    when it returns, the paths of its items are, in the order of the walk,
    among the directories that [os.walk] listed under the repository with a
    file ending in ".jar" or named "pom.xml" directly in them, and each
    item carries its path relative to the repository and the text of its
    size; the repository is the one [get_maven_repo_path] settles on, and
    without one there are no items. *)
Theorem maven_discovery_lists_artifact_roots self days_threshold w w' items :
  find_cleanable_items sys human_readable_size os_path_relpath self
    days_threshold w = (w', Ret items) ->
  match get_maven_repo_path sys self w with
  | (w1, Ret (Some repo_path)) =>
      sublist (map path items)
              (map (fun e => e.1.1)
                   (List.filter (fun e => is_artifact_root e.2)
                      (sys_walk sys repo_path w1).2))
      /\ Forall (fun item =>
                   rel_path item = os_path_relpath (path item) repo_path
                   /\ human_size item = human_readable_size (size item))
                items
  | (w1, Ret None) => items = [] /\ w' = w1
  | (_, Raise _) => False
  end.
Proof.
  unfold find_cleanable_items. rewrite bind_cases.
  destruct (get_maven_repo_path sys self w) as [w1 [[repo_path|]|e]];
    [| |discriminate].
  - unfold os_walk. rewrite bind_cases.
    destruct (sys_walk sys repo_path w1) as [w2 entries]. cbn [snd].
    intros Hscan.
    destruct (scan_adds_artifact_roots _ _ _ _ _ _ _ _ Hscan)
      as (found & -> & Hsub & Hall).
    auto.
  - unfold ret. intros [= <- <-]. auto.
Qed.

End MavenAnywhere.

(* --------------------------------------------------------------------- *)
(** ** The Maven provider on a quiet disk *)
(* --------------------------------------------------------------------- *)

Section MavenFacts.

Import Os Utils Disk Maven.

Variable human_readable_size : Z -> string.
Variable os_path_relpath : Disk.path -> Disk.path -> string.
Variables (root : node) (now : Z).

Local Abbreviation d := (quiet root now).

(** The dict [find_cleanable_items] builds for an artifact directory. *)
Local Abbreviation artifact repo_path := (fun p : Disk.path =>
  {| path := p;
     rel_path := os_path_relpath p repo_path;
     size := bytes_on root p;
     human_size := human_readable_size (bytes_on root p) |}).

Lemma utc_Some t date :
  utc t = Some date -> is_datetime date = true /\ date = t.
Proof.
  unfold utc.
  destruct (is_datetime (t - usec_per_day) && is_datetime t) eqn:Hdate;
    [|discriminate].
  apply andb_true_iff in Hdate as [_ Hdate]. intros [= <-]. auto.
Qed.

Lemma is_unused_quiet p days_threshold :
  is_unused unix p days_threshold d = (d, Ret (unused_on root now days_threshold p)).
Proof.
  unfold unused_on.
  destruct (stat root p) as [e|stat_info] eqn:Hstat.
  - unfold is_unused, try_except, bind, os_stat, of_syscall. cbn.
    rewrite Hstat. reflexivity.
  - assert (Hsys : sys_stat unix p d = (d, inr stat_info))
      by (cbn; rewrite Hstat; reflexivity).
    rewrite (is_unused_after_stat unix p days_threshold d d stat_info d now Hsys
               eq_refl).
    cbv zeta. cbn [sys_localtime unix].
    destruct (utc (Z.max _ _)) as [last_access_date|] eqn:Hlast; [|reflexivity].
    apply utc_Some in Hlast as [Hlast _]. rewrite Hlast.
    destruct (utc now) as [today|] eqn:Htoday; [|reflexivity].
    apply utc_Some in Htoday as [Htoday _]. rewrite Htoday. reflexivity.
Qed.

Lemma unused_on_monotone p days_threshold days_threshold' :
  is_datetime now = true ->
  0 <= days_threshold' <= days_threshold ->
  unused_on root now days_threshold p = true ->
  unused_on root now days_threshold' p = true.
Proof.
  intros Hnow Hdays. unfold unused_on.
  destruct (stat root p) as [e|stat_info]; [auto|]. cbv zeta.
  destruct (utc (Z.max _ _)) as [last_access_date|]; [|auto].
  destruct (utc now) as [today|] eqn:Htoday; [|auto].
  apply utc_Some in Htoday as [Htoday _].
  rewrite !andb_true_iff, !bool_decide_eq_true.
  unfold is_datetime, usec_per_day, timedelta_max_days in *.
  rewrite !andb_true_iff, !bool_decide_eq_true in *. lia.
Qed.

Lemma get_maven_repo_path_quiet self :
  get_maven_repo_path unix self d = (d, Ret (repository_on root self)).
Proof.
  unfold get_maven_repo_path, repository_on, exists_on.
  destruct (M2_HOME self) as [m2_home|].
  - rewrite bind_cases. erewrite bind_run by apply os_path_exists_quiet.
    cbn [join unix].
    destruct (stat root (m2_home ++ ["repository"])); unfold ret at 1.
    + erewrite bind_run by apply os_path_exists_quiet.
      destruct (stat root (default_path self)); reflexivity.
    + reflexivity.
  - rewrite bind_cases. unfold ret at 1.
    erewrite bind_run by apply os_path_exists_quiet.
    destruct (stat root (default_path self)); reflexivity.
Qed.

Lemma get_size_bytes_on p :
  well_formed root = true ->
  get_size unix p d = (d, Ret (bytes_on root p)).
Proof.
  intros Hwf. unfold bytes_on.
  destruct (resolve root p) as [e|n] eqn:Hresolve.
  - exact (get_size_unreachable _ _ _ _ Hresolve).
  - exact (get_size_quiet _ _ _ _ Hwf Hresolve).
Qed.

Lemma scan_quiet repo_path days_threshold entries :
  well_formed root = true ->
  forall unused_artifacts total_size,
    scan unix human_readable_size os_path_relpath repo_path days_threshold
         entries unused_artifacts total_size d
    = (d, Ret (unused_artifacts
               ++ map (artifact repo_path)
                      (unused_artifact_roots root now days_threshold entries))).
Proof.
  intros Hwf. unfold unused_artifact_roots.
  induction entries as [|[[p dirs] files] rest IH]; intros acc total.
  - cbn. rewrite app_nil_r. reflexivity.
  - cbn [scan List.filter fst snd].
    destruct (is_artifact_root files); cbn [andb]; [|apply IH].
    erewrite bind_run by apply is_unused_quiet.
    destruct (unused_on root now days_threshold p); [|apply IH].
    erewrite bind_run by (apply get_size_bytes_on; exact Hwf).
    rewrite IH. cbn [map fst]. rewrite <- app_assoc. reflexivity.
Qed.

Lemma find_cleanable_items_quiet self days_threshold :
  well_formed root = true ->
  find_cleanable_items unix human_readable_size os_path_relpath self
    days_threshold d
  = (d, Ret match repository_on root self with
            | None => []
            | Some repo_path =>
                map (artifact repo_path)
                    (unused_artifact_roots root now days_threshold
                       (walk root repo_path))
            end).
Proof.
  intros Hwf. unfold find_cleanable_items.
  erewrite bind_run by apply get_maven_repo_path_quiet.
  destruct (repository_on root self) as [repo_path|]; [|reflexivity].
  erewrite bind_run by apply os_walk_quiet.
  rewrite (scan_quiet _ _ _ Hwf). reflexivity.
Qed.

Lemma unused_artifact_roots_sublist days_threshold days_threshold' entries :
  is_datetime now = true ->
  0 <= days_threshold' <= days_threshold ->
  sublist (unused_artifact_roots root now days_threshold entries)
          (unused_artifact_roots root now days_threshold' entries).
Proof.
  intros Hnow Hdays. unfold unused_artifact_roots.
  induction entries as [|e rest IH]; [constructor|].
  cbn [List.filter].
  destruct (is_artifact_root e.2); cbn [andb]; [|exact IH].
  destruct (unused_on root now days_threshold e.1.1) eqn:Hunused.
  - rewrite (unused_on_monotone _ _ _ Hnow Hdays Hunused).
    cbn [map]. apply sublist_skip. exact IH.
  - destruct (unused_on root now days_threshold' e.1.1); [|exact IH].
    cbn [map]. apply sublist_cons. exact IH.
Qed.

(** X16. A shorter threshold never loses an artifact: on a quiet disk, with
    the clock inside the range of [datetime], what discovery finds for a
    threshold it finds, with the same sizes and in the same order, for
    every smaller threshold that is not negative. *)
Theorem maven_discovery_monotone self days_threshold days_threshold' items :
  well_formed root = true ->
  is_datetime now = true ->
  0 <= days_threshold' <= days_threshold ->
  find_cleanable_items unix human_readable_size os_path_relpath self
    days_threshold d = (d, Ret items) ->
  exists items',
    find_cleanable_items unix human_readable_size os_path_relpath self
      days_threshold' d = (d, Ret items')
    /\ sublist items items'.
Proof.
  intros Hwf Hnow Hdays Hfound.
  rewrite (find_cleanable_items_quiet _ _ Hwf) in Hfound.
  injection Hfound as <-.
  rewrite (find_cleanable_items_quiet _ _ Hwf).
  eexists. split; [reflexivity|].
  destruct (repository_on root self) as [repo_path|]; [|constructor].
  apply fmap_sublist.
  exact (unused_artifact_roots_sublist _ _ _ Hnow Hdays).
Qed.

End MavenFacts.

Section MavenScenarios.

Import Os Utils Disk Maven.

(** The repository of the scenarios holds one artifact directory, [junit],
    of 2560 bytes, untouched since 1970. *)
Lemma maven_discovery_lists_artifact_roots_witness :
  sublist [["junit"]]
    (map (fun e => e.1.1)
       (List.filter (fun e => is_artifact_root e.2) (walk repository [])))
  /\ Forall (fun item : item Disk.path =>
               rel_path item = slashes (path item) []
               /\ human_size item = bytes_text (size item))
            [{| path := ["junit"]; rel_path := "junit"; size := 2560;
                human_size := "2560 bytes" |}].
Proof.
  apply (maven_discovery_lists_artifact_roots unix bytes_text slashes here 30
           (quiet repository november_2023) (quiet repository november_2023)
           [{| path := ["junit"]; rel_path := "junit"; size := 2560;
               human_size := "2560 bytes" |}]).
  vm_compute. reflexivity.
Defined.

Lemma maven_discovery_monotone_witness :
  exists items',
    find_cleanable_items unix bytes_text slashes here 30
      (quiet repository november_2023)
    = (quiet repository november_2023, Ret items')
    /\ sublist [{| path := ["junit"]; rel_path := "junit"; size := 2560;
                   human_size := "2560 bytes" |}] items'.
Proof.
  apply (maven_discovery_monotone bytes_text slashes repository november_2023
           here 90 30).
  - vm_compute. reflexivity.
  - vm_compute. reflexivity.
  - lia.
  - vm_compute. reflexivity.
Defined.

End MavenScenarios.

(* --------------------------------------------------------------------- *)
(** ** The workflow of the Homebrew provider *)
(* --------------------------------------------------------------------- *)

Section BrewFacts.

Import Core Brew.

Context {Item W : Type}.
Variable item_type : Item -> string.
Implicit Types (self : Cleaner Item W) (r : run Item W).

Local Abbreviation clean_calls r :=
  (filter (fun e => is_clean_item_call e = true) (trace r)).

Lemma process_cons self dry_run item rest success_count r :
  process self dry_run (item :: rest) success_count r =
  let r1 := {| world := (clean_item self item dry_run (world r)).1;
               trace := trace r ++ [Call_clean_item item dry_run] |} in
  match (clean_item self item dry_run (world r)).2 with
  | Ret cleaned =>
      process self dry_run rest
        (if cleaned then success_count + 1 else success_count) r1
  | Raise e => (r1, Raise e)
  end.
Proof.
  cbn [process]. rewrite bind_cases, call_run.
  destruct (clean_item self item dry_run (world r)) as [w [cleaned|e]];
    reflexivity.
Qed.

Lemma clean_calls_snoc r item dry_run (w : W) :
  clean_calls {| world := w; trace := trace r ++ [Call_clean_item item dry_run] |}
  = clean_calls r ++ [Call_clean_item item dry_run].
Proof.
  cbn [trace]. rewrite filter_app, filter_cons, filter_nil.
  cbn [is_clean_item_call]. rewrite decide_True by reflexivity. reflexivity.
Qed.

(** A loop in which every call returns goes through all its items. *)
Lemma process_all self dry_run items :
  Forall (fun item => forall w, is_Ret (clean_item self item dry_run w).2 = true)
         items ->
  forall success_count r,
    exists r' success_count',
      process self dry_run items success_count r = (r', Ret success_count')
      /\ clean_calls r'
         = clean_calls r ++ map (fun item => Call_clean_item item dry_run) items.
Proof.
  induction 1 as [|item rest Hitem _ IH]; intros success_count r.
  - exists r, success_count. cbn. rewrite app_nil_r. auto.
  - rewrite process_cons. cbv zeta. specialize (Hitem (world r)).
    destruct (clean_item self item dry_run (world r)) as [w [cleaned|e]];
      [|discriminate].
    cbn [fst snd].
    match goal with
    | |- context [process self dry_run rest ?c ?r1] =>
        destruct (IH c r1) as (r' & count' & Hrun & Hcalls)
    end.
    exists r', count'. split; [exact Hrun|].
    rewrite Hcalls, clean_calls_snoc, <- app_assoc. reflexivity.
Qed.

(** A loop stops at the first call that raises. *)
Lemma process_until self dry_run before bad after :
  Forall (fun item => forall w, is_Ret (clean_item self item dry_run w).2 = true)
         before ->
  (forall w, is_Ret (clean_item self bad dry_run w).2 = false) ->
  forall success_count r,
    exists r' e,
      process self dry_run (before ++ bad :: after) success_count r = (r', Raise e)
      /\ clean_calls r'
         = clean_calls r
           ++ map (fun item => Call_clean_item item dry_run) (before ++ [bad]).
Proof.
  intros Hbefore Hbad.
  induction Hbefore as [|item rest Hitem _ IH]; intros success_count r.
  - cbn [app]. rewrite process_cons. cbv zeta. specialize (Hbad (world r)).
    destruct (clean_item self bad dry_run (world r)) as [w [cleaned|e]];
      [discriminate|].
    cbn [fst snd]. eexists _, e. split; [reflexivity|].
    apply clean_calls_snoc.
  - cbn [app]. rewrite process_cons. cbv zeta. specialize (Hitem (world r)).
    destruct (clean_item self item dry_run (world r)) as [w [cleaned|e]];
      [|discriminate].
    cbn [fst snd].
    match goal with
    | |- context [process self dry_run (rest ++ bad :: after) ?c ?r1] =>
        destruct (IH c r1) as (r' & e & Hrun & Hcalls)
    end.
    exists r', e. split; [exact Hrun|].
    rewrite Hcalls, clean_calls_snoc, <- app_assoc. reflexivity.
Qed.

(** The three loops one after the other are one loop over [batches]. *)
Lemma process_app self dry_run items1 items2 success_count :
  forall r,
    (let* success_count := process self dry_run items1 success_count in
     process self dry_run items2 success_count) r
    = process self dry_run (items1 ++ items2) success_count r.
Proof.
  revert success_count.
  induction items1 as [|item rest IH]; intros success_count r.
  - reflexivity.
  - cbn [app]. rewrite bind_cases, !process_cons. cbv zeta.
    destruct (clean_item self item dry_run (world r)) as [w [cleaned|e]];
      cbn [fst snd]; [|reflexivity].
    rewrite <- IH. reflexivity.
Qed.

(** [clean] once the prerequisites are met and discovery has returned. *)
Lemma brew_clean_after_discovery self days_threshold dry_run args w w1 w2 found :
  K8s.wants_help args = false ->
  check_prerequisites self w = (w1, Ret true) ->
  find_cleanable_items self days_threshold w1 = (w2, found) ->
  Brew.clean item_type self days_threshold dry_run args (start w) =
  let r2 := {| world := w2;
               trace := [Call_check_prerequisites;
                         Call_find_cleanable_items days_threshold] |} in
  match found with
  | Raise _ => (r2, Ret false)
  | Ret [] => (r2, Ret true)
  | Ret cleanable_items =>
      match process self dry_run (batches item_type cleanable_items) 0 r2 with
      | (r3, Ret _) => (r3, Ret true)
      | (r3, Raise _) => (r3, Ret false)
      end
  end.
Proof.
  intros Hhelp Hpre Hfind. unfold Brew.clean. rewrite Hhelp.
  rewrite bind_cases, call_run. cbn [start world trace app].
  rewrite Hpre. cbn [fst snd negb].
  unfold try_except at 1. rewrite bind_cases, call_run. cbn [world trace app].
  rewrite Hfind. cbn [fst snd].
  destruct found as [[|item rest]|e]; [reflexivity| |reflexivity].
  cbv zeta. unfold batches.
  set (items := item :: rest).
  set (r2 := {| world := w2; trace := _ |}).
  rewrite <- process_app. rewrite !bind_cases.
  destruct (process self dry_run (of_type item_type "outdated" items) 0 r2)
    as [r3 [c3|e3]]; [|reflexivity].
  rewrite <- process_app. rewrite !bind_cases.
  destruct (process self dry_run (of_type item_type "download" items) c3 r3)
    as [r4 [c4|e4]]; [|reflexivity].
  rewrite ?bind_cases.
  destruct (process self dry_run (of_type item_type "keg" items) c4 r4)
    as [r5 [c5|e5]]; reflexivity.
Qed.

(** X17. [HomebrewCleaner.clean] does not follow [Cleaner.clean]. Once the
    prerequisites are met and discovery has returned, and as long as no
    [clean_item] call raises, it calls [clean_item(item, dry_run)], with
    the flag it was given, a dry run included, once on every item of type
    "outdated", then "download", then "keg", in the order of discovery
    within a type; items of any other type are passed over; and it answers
    true whatever the calls returned, also when none of them succeeded. *)
Theorem brew_clean_answers_true_whatever_was_cleaned
    self days_threshold dry_run args w w1 w2 cleanable_items :
  K8s.wants_help args = false ->
  check_prerequisites self w = (w1, Ret true) ->
  find_cleanable_items self days_threshold w1 = (w2, Ret cleanable_items) ->
  (forall item w, is_Ret (clean_item self item dry_run w).2 = true) ->
  let outcome :=
    Brew.clean item_type self days_threshold dry_run args (start w) in
  outcome.2 = Ret true
  /\ clean_calls outcome.1
     = map (fun item => Call_clean_item item dry_run)
           (batches item_type cleanable_items).
Proof.
  intros Hhelp Hpre Hfind Hreturns outcome. subst outcome.
  rewrite (brew_clean_after_discovery _ _ _ _ _ _ _ _ Hhelp Hpre Hfind).
  cbv zeta. destruct cleanable_items as [|item rest]; [split; reflexivity|].
  match goal with
  | |- context [process self dry_run ?items 0 ?r2] =>
      destruct (process_all self dry_run items
                  ltac:(apply Forall_forall; intros; apply Hreturns) 0 r2)
        as (r3 & count & -> & Hcalls)
  end.
  split; [reflexivity|]. exact Hcalls.
Qed.

(** X18. In [HomebrewCleaner.clean] an exception of one [clean_item] call ends
    the run: the items that come after it are not tried, and the answer is
    false even if everything before it was cleaned. *)
Theorem brew_clean_stops_at_the_first_exception
    self days_threshold dry_run args w w1 w2 cleanable_items before bad after :
  K8s.wants_help args = false ->
  check_prerequisites self w = (w1, Ret true) ->
  find_cleanable_items self days_threshold w1 = (w2, Ret cleanable_items) ->
  batches item_type cleanable_items = before ++ bad :: after ->
  Forall (fun item => forall w, is_Ret (clean_item self item dry_run w).2 = true)
         before ->
  (forall w, is_Ret (clean_item self bad dry_run w).2 = false) ->
  let outcome :=
    Brew.clean item_type self days_threshold dry_run args (start w) in
  outcome.2 = Ret false
  /\ clean_calls outcome.1
     = map (fun item => Call_clean_item item dry_run) (before ++ [bad]).
Proof.
  intros Hhelp Hpre Hfind Hbatches Hbefore Hbad outcome. subst outcome.
  rewrite (brew_clean_after_discovery _ _ _ _ _ _ _ _ Hhelp Hpre Hfind).
  cbv zeta. destruct cleanable_items as [|item rest].
  { destruct before; discriminate. }
  rewrite Hbatches.
  match goal with
  | |- context [process self dry_run _ 0 ?r2] =>
      destruct (process_until self dry_run before bad after Hbefore Hbad 0 r2)
        as (r3 & e & -> & Hcalls)
  end.
  split; [reflexivity|]. exact Hcalls.
Qed.

(** X19. Where [Cleaner.clean] answers false when [check_prerequisites]
    raises, [HomebrewCleaner.clean] lets the exception through to its caller:
    the check is made outside the [try]. A failure of discovery is answered
    with false, and no [clean_item] call is made. *)
Theorem brew_clean_lets_prerequisites_raise self days_threshold dry_run args w :
  K8s.wants_help args = false ->
  let outcome :=
    Brew.clean item_type self days_threshold dry_run args (start w) in
  match (check_prerequisites self w) with
  | (_, Raise e) => outcome.2 = Raise e
  | (_, Ret false) => outcome.2 = Ret false /\ clean_calls outcome.1 = []
  | (w1, Ret true) =>
      forall e, (find_cleanable_items self days_threshold w1).2 = Raise e ->
                outcome.2 = Ret false /\ clean_calls outcome.1 = []
  end.
Proof.
  intros Hhelp outcome. subst outcome.
  destruct (check_prerequisites self w) as [w1 [[|]|e]] eqn:Hpre.
  - intros e Hraise.
    destruct (find_cleanable_items self days_threshold w1) as [w2 found] eqn:Hfind.
    cbn [snd] in Hraise. subst found.
    rewrite (brew_clean_after_discovery _ _ _ _ _ _ _ _ Hhelp Hpre Hfind).
    split; reflexivity.
  - unfold Brew.clean. rewrite Hhelp, bind_cases, call_run.
    cbn [start world trace app]. rewrite Hpre. split; reflexivity.
  - unfold Brew.clean. rewrite Hhelp, bind_cases, call_run.
    cbn [start world trace app]. rewrite Hpre. reflexivity.
Qed.

End BrewFacts.

Section BrewScenarios.

Import Core Brew.

(** A real run in which every [clean_item] fails: the keg comes last, the
    cask is passed over, and the answer is true. *)
Lemma brew_clean_answers_true_whatever_was_cleaned_witness :
  let outcome := Brew.clean fst refuses_all 30 false None (start tt) in
  outcome.2 = Ret true
  /\ filter (fun e => is_clean_item_call e = true) (trace outcome.1)
     = [Call_clean_item ("outdated", "wget") false;
        Call_clean_item ("download", "wget.tar.gz") false;
        Call_clean_item ("keg", "openssl") false].
Proof.
  apply (brew_clean_answers_true_whatever_was_cleaned fst refuses_all 30 false
           None tt tt tt
           [("keg", "openssl"); ("cask", "firefox"); ("outdated", "wget");
            ("download", "wget.tar.gz")]).
  - reflexivity.
  - reflexivity.
  - reflexivity.
  - intros item w. reflexivity.
Defined.

(** The upgrade of wget raises: the download and the keg are not tried. *)
Lemma brew_clean_stops_at_the_first_exception_witness :
  let outcome := Brew.clean fst raises_on_wget 30 false None (start tt) in
  outcome.2 = Ret false
  /\ filter (fun e => is_clean_item_call e = true) (trace outcome.1)
     = [Call_clean_item ("outdated", "wget") false].
Proof.
  apply (brew_clean_stops_at_the_first_exception fst raises_on_wget 30 false
           None tt tt tt
           [("keg", "openssl"); ("cask", "firefox"); ("outdated", "wget");
            ("download", "wget.tar.gz")]
           [] ("outdated", "wget")
           [("download", "wget.tar.gz"); ("keg", "openssl")]).
  - reflexivity.
  - reflexivity.
  - reflexivity.
  - reflexivity.
  - constructor.
  - intros w. reflexivity.
Defined.

Lemma brew_clean_lets_prerequisites_raise_witness :
  (Brew.clean fst
     {| name := "brew";
        check_prerequisites := raise (Exception "list index out of range");
        find_cleanable_items := fun _ => ret [];
        clean_item := fun (_ : string * string) _ => ret true;
        item_to_str := None |}
     30 true None (start tt)).2
  = Raise (Exception "list index out of range").
Proof.
  apply (brew_clean_lets_prerequisites_raise fst
           {| name := "brew";
              check_prerequisites := raise (Exception "list index out of range");
              find_cleanable_items := fun _ => ret [];
              clean_item := fun (_ : string * string) _ => ret true;
              item_to_str := None |}
           30 true None tt).
  reflexivity.
Defined.

End BrewScenarios.

(* --------------------------------------------------------------------- *)
(** ** The command line: running the cleaners *)
(* --------------------------------------------------------------------- *)

Section CliFacts.

Import Cli.

Context {World : Type}.
Variable CLEANER_REGISTRY : list (string * cleaner_class World).



(** X20. Provided every registered class can be instantiated,
    [run_cleaner] never raises: it answers true exactly when the name is
    registered and the [clean] of a new instance returned true. An
    exception of [clean] is answered with false and goes no further, and a
    name that is not registered is answered with false without anything
    being run. *)
Theorem run_cleaner_spec cleaner_name days dry_run args w :
  constructors_return CLEANER_REGISTRY ->
  exists w' answer,
    run_cleaner CLEANER_REGISTRY cleaner_name days dry_run args w = (w', Ret answer)
    /\ (answer = true
        <-> exists cls w1 cleaner,
              registry_get CLEANER_REGISTRY cleaner_name = Some cls
              /\ construct cls w = (w1, Ret cleaner)
              /\ clean cls cleaner days dry_run args w1 = (w', Ret true))
    /\ (registry_get CLEANER_REGISTRY cleaner_name = None -> w' = w).
Proof.
  intros Hnew. unfold run_cleaner.
  destruct (registry_get CLEANER_REGISTRY cleaner_name) as [cls|] eqn:Hget.
  2:{ exists w, false. split; [reflexivity|]. split; [|reflexivity].
      split; [discriminate|]. intros (cls & _ & _ & Hsome & _). discriminate. }
  specialize (Hnew _ _ w Hget). rewrite bind_cases.
  destruct (construct cls w) as [w1 [cleaner|e]] eqn:Hconstruct; [|discriminate].
  unfold try_except.
  destruct (clean cls cleaner days dry_run args w1) as [w2 [answer|e]] eqn:Hclean.
  - exists w2, answer. split; [reflexivity|]. split; [|discriminate].
    split.
    + intros ->. exists cls, w1, cleaner. auto.
    + intros (cls' & w1' & cleaner' & Hsome & Hconstruct' & Hclean').
      injection Hsome as <-. rewrite Hconstruct in Hconstruct'.
      injection Hconstruct' as <- <-. rewrite Hclean in Hclean'.
      injection Hclean' as ->. reflexivity.
  - exists w2, false. split; [reflexivity|]. split; [|discriminate].
    split; [discriminate|].
    intros (cls' & w1' & cleaner' & Hsome & Hconstruct' & Hclean').
    injection Hsome as <-. rewrite Hconstruct in Hconstruct'.
    injection Hconstruct' as <- <-. rewrite Hclean in Hclean'. discriminate.
Qed.


End CliFacts.

Section CliScenarios.

Import Cli.

Lemma three_cleaners_construct : constructors_return three_cleaners.
Proof.
  intros cleaner_name cls w Hget.
  unfold registry_get, three_cleaners in Hget. cbn [List.find fst snd] in Hget.
  repeat match type of Hget with
  | context [bool_decide (?a = cleaner_name)] =>
      destruct (bool_decide (a = cleaner_name))
  end; cbn in Hget; try discriminate; injection Hget as <-; reflexivity.
Qed.

(** The [clean] of the second cleaner raises: the answer is false, and the
    log shows that it was run. *)
Lemma run_cleaner_spec_witness :
  exists w' answer,
    run_cleaner three_cleaners "brew" 30 true None [] = (w', Ret answer)
    /\ (answer = true
        <-> exists cls w1 cleaner,
              registry_get three_cleaners "brew" = Some cls
              /\ construct cls [] = (w1, Ret cleaner)
              /\ clean cls cleaner 30 true None w1 = (w', Ret true))
    /\ (registry_get three_cleaners "brew" = None -> w' = []).
Proof.
  apply (run_cleaner_spec three_cleaners "brew" 30 true None []).
  exact three_cleaners_construct.
Defined.


End CliScenarios.

(* --------------------------------------------------------------------- *)
(** ** The Git provider *)
(* --------------------------------------------------------------------- *)

Section GitFacts.

Import Core.

Context {Machine : Type}.
Variable run_command :
  string -> option string -> Z -> Machine -> Machine * option string.
Variable check_prerequisites : Git.GitCleaner -> M (Git.shell Machine) bool.
Variable find_cleanable_items :
  Git.GitCleaner -> Z -> M (Git.shell Machine) (list Git.item).
Variable py_str : Git.item -> string.
Implicit Types (self : Git.GitCleaner) (item : Git.item) (s : Git.shell Machine).

Local Abbreviation as_Cleaner :=
  (Git.as_Cleaner run_command check_prerequisites find_cleanable_items).

(** One call of [clean_item] in a real run: the command it has for the
    item, if any, and the answer. *)
Lemma git_clean_item_run self item s :
  Git.clean_item run_command self item false s =
  if Git.deletable self item then
    let '(m, output) :=
      run_command (Git.delete_command item).1 (Git.delete_command item).2 30
                  (Git.machine s) in
    ({| Git.machine := m;
        Git.issued := Git.issued s ++ [Git.delete_command item] |},
     Ret (bool_decide (output <> None)))
  else (s, Ret (negb (bool_decide (Git.type item = "branch")))).
Proof.
  unfold Git.clean_item, Git.deletable, Git.delete_command, Git.run, bind.
  destruct (bool_decide (Git.type item = "branch")); [|reflexivity].
  destruct (Git.is_merged item); cbn [andb orb fst snd].
  - destruct (run_command _ _ 30 (Git.machine s)) as [m [text|]]; reflexivity.
  - destruct (Git.clean_unmerged self); [|reflexivity].
    destruct (run_command _ _ 30 (Git.machine s)) as [m [text|]]; reflexivity.
Qed.

(** The commands of a whole loop of [clean_item] calls. *)
Lemma git_clean_items_issued self items :
  forall s,
    Git.issued (foldl (fun s item => (Git.clean_item run_command self item false s).1)
                      s items)
    = Git.issued s
      ++ map Git.delete_command (List.filter (Git.deletable self) items).
Proof.
  induction items as [|item rest IH]; intros s.
  - cbn. rewrite app_nil_r. reflexivity.
  - cbn [foldl List.filter]. rewrite IH, git_clean_item_run.
    destruct (Git.deletable self item).
    + destruct (run_command _ _ 30 (Git.machine s)) as [m output].
      cbn [fst Git.issued map]. rewrite <- app_assoc. reflexivity.
    + reflexivity.
Qed.

(** X22. [clean_item] of the Git provider never raises and never deletes a
    repository. It issues a command only in a real run on an item of type
    "branch": [git branch -d] for a merged branch, [git branch -D] for an
    unmerged one and only when [clean_unmerged] is set, once, in the
    directory of the branch's repository, and then answers whether the
    command succeeded. An unmerged branch is refused otherwise, and for
    every other item, a stale repository included, the answer is true
    although nothing is done. *)
Theorem git_clean_item_commands self item dry_run s :
  let '(s', outcome) := Git.clean_item run_command self item dry_run s in
  (exists answer, outcome = Ret answer)
  /\ (dry_run = true -> s' = s /\ outcome = Ret true)
  /\ (dry_run = false -> Git.type item <> "branch" -> s' = s /\ outcome = Ret true)
  /\ (dry_run = false -> Git.type item = "branch" ->
      Git.is_merged item = false -> Git.clean_unmerged self = false ->
      s' = s /\ outcome = Ret false)
  /\ (Git.issued s' = Git.issued s
      \/ dry_run = false
         /\ Git.type item = "branch"
         /\ (Git.is_merged item = true \/ Git.clean_unmerged self = true)
         /\ Git.issued s'
            = Git.issued s
              ++ [("git branch " +:+ (if Git.is_merged item then "-d " else "-D ")
                     +:+ Git.name item,
                   Some (Git.repo_path item))]
         /\ outcome
            = Ret (bool_decide
                     ((run_command
                         ("git branch "
                            +:+ (if Git.is_merged item then "-d " else "-D ")
                            +:+ Git.name item)
                         (Some (Git.repo_path item)) 30 (Git.machine s)).2
                      <> None))).
Proof.
  destruct dry_run.
  { cbn. split; [eauto|]. split; [auto|]. repeat split; try discriminate. auto. }
  rewrite git_clean_item_run. unfold Git.deletable, Git.delete_command.
  destruct (bool_decide (Git.type item = "branch")) eqn:Htype.
  2:{ apply bool_decide_eq_false in Htype. cbn.
      split; [eauto|]. split; [discriminate|]. split; [auto|].
      split; [intros _ Hbranch; contradiction | auto]. }
  apply bool_decide_eq_true in Htype. cbn [andb fst snd].
  destruct (Git.is_merged item) eqn:Hmerged; cbn [orb].
  - destruct (run_command _ _ 30 (Git.machine s)) as [m output] eqn:Hrun.
    split; [eauto|]. split; [discriminate|].
    split; [intros _ Hne; contradiction|].
    split; [discriminate|]. right. cbn [Git.issued snd]. auto 10.
  - destruct (Git.clean_unmerged self) eqn:Hforce.
    + destruct (run_command _ _ 30 (Git.machine s)) as [m output] eqn:Hrun.
      split; [eauto|]. split; [discriminate|].
      split; [intros _ Hne; contradiction|].
      split; [discriminate|]. right. cbn [Git.issued snd]. auto 10.
    + cbn. split; [eauto|]. split; [discriminate|].
      split; [intros _ Hne; contradiction|]. auto.
Qed.

(** X23. A real run of the Git provider, whatever discovery returned: the
    commands issued while the items are gone through are the delete
    commands of the branches that are merged, or unmerged with
    [clean_unmerged] set, in the order of discovery, and nothing else.
    Every other item is logged as "Cleaned" or "Failed to clean" without a
    command: "Cleaned" for a repository, which is left as it is, and
    "Failed to clean" for an unmerged branch that is kept. *)
Theorem git_real_run_deletes_only_branches self days_threshold s s1 s2 cleanable_items :
  check_prerequisites self s = (s1, Ret true) ->
  find_cleanable_items self days_threshold s1 = (s2, Ret cleanable_items) ->
  let r := (Core.clean py_str (as_Cleaner self) days_threshold false (start s)).1 in
  let lines :=
    omap (fun e => match e with
                   | Log_item prefix item _ => Some (prefix, item)
                   | _ => None
                   end) (trace r) in
  Git.issued (world r)
  = Git.issued s2
    ++ map Git.delete_command (List.filter (Git.deletable self) cleanable_items)
  /\ (forall item, item ∈ cleanable_items -> Git.deletable self item = false ->
      (if bool_decide (Git.type item = "branch") then "Failed to clean"
       else "Cleaned", item) ∈ lines).
Proof.
  intros Hpre Hfind r lines. split.
  - subst r.
    rewrite (clean_after_discovery py_str (as_Cleaner self) days_threshold false
               s s1 s2 _ Hpre Hfind).
    cbv zeta. destruct cleanable_items as [|item rest].
    { cbn. rewrite app_nil_r. reflexivity. }
    pose proof (clean_items_calls py_str (as_Cleaner self) (item :: rest) 0
      {| world := s2;
         trace := [Call_check_prerequisites;
                   Call_find_cleanable_items days_threshold] |}) as [_ Hworld].
    unfold bind.
    destruct (clean_items py_str (as_Cleaner self) (item :: rest) 0 _)
      as [r' [n|e]]; cbn [fst] in Hworld;
      exact (eq_trans (f_equal Git.issued Hworld)
                      (git_clean_items_issued self (item :: rest) s2)).
  - intros item Hin Hkept. subst lines r.
    rewrite (real_run_lines py_str (as_Cleaner self) days_threshold s s1 s2
               cleanable_items Hpre Hfind
               ltac:(apply Forall_forall; intros; reflexivity)).
    clear Hpre Hfind. revert s2.
    induction cleanable_items as [|item0 rest IH]; intros s2; [inversion Hin|].
    cbn [item_outcomes]. cbn [clean_item as_Cleaner Git.as_Cleaner].
    destruct (Git.clean_item run_command self item0 false s2)
      as [s3 outcome] eqn:Hcall.
    cbn [zip zip_with omap].
    apply elem_of_cons in Hin as [->|Hin].
    + rewrite git_clean_item_run, Hkept in Hcall. injection Hcall as <- <-.
      destruct (bool_decide (Git.type item0 = "branch"));
        apply list_elem_of_here.
    + destruct outcome as [[|]|e];
        try apply list_elem_of_further; apply IH, Hin.
Qed.

End GitFacts.

Section GitScenarios.

Import Core.

(** The command line's [GitCleaner()] on a stale repository with a merged
    and an unmerged branch: one command, for the merged branch. *)
Lemma git_real_run_deletes_only_branches_witness :
  let self := Git.__init__ in
  let found := [Git.old_project; Git.merged_branch; Git.unmerged_branch] in
  let r :=
    (Core.clean Git.item_to_str
       (Git.as_Cleaner Git.agreeable (fun _ => ret true) (fun _ _ => ret found) self)
       30 false (start {| Git.machine := tt; Git.issued := [] |})).1 in
  let lines :=
    omap (fun e => match e with
                   | Log_item prefix item _ => Some (prefix, item)
                   | _ => None
                   end) (trace r) in
  Git.issued (world r)
  = [] ++ [("git branch -d fix-typo", Some "/home/me/code/old-project")]
  /\ (forall item, item ∈ found -> Git.deletable self item = false ->
      (if bool_decide (Git.type item = "branch") then "Failed to clean"
       else "Cleaned", item) ∈ lines).
Proof.
  apply (git_real_run_deletes_only_branches Git.agreeable (fun _ => ret true)
           (fun _ _ => ret [Git.old_project; Git.merged_branch; Git.unmerged_branch])
           Git.item_to_str Git.__init__ 30
           {| Git.machine := tt; Git.issued := [] |}
           {| Git.machine := tt; Git.issued := [] |}
           {| Git.machine := tt; Git.issued := [] |}
           [Git.old_project; Git.merged_branch; Git.unmerged_branch]).
  - reflexivity.
  - reflexivity.
Defined.

End GitScenarios.

(* --------------------------------------------------------------------- *)
(** ** The search for repositories *)
(* --------------------------------------------------------------------- *)

Section GitReposAnywhere.

Import Os GitRepos.

Context {World Path : Type}.
Variable sys : system World Path.

Lemma search_entries_returns (search : Path -> M World (list Path)) start_dir :
  (forall p w, exists w' found, search p w = (w', Ret found)) ->
  forall entries s,
    exists s', search_entries sys search start_dir entries s = (s', Ret tt).
Proof.
  intros Hsearch. induction entries as [|item rest IH]; intros [w repos].
  - eexists. reflexivity.
  - cbn [search_entries].
    destruct (Str.startswith item "."); [apply IH|].
    rewrite bind_cases. unfold Analyzer.on_world at 1.
    destruct (os_path_isdir_returns sys (join sys start_dir item) w)
      as (w1 & is_dir & ->).
    destruct is_dir; cbn [negb]; [|apply IH].
    rewrite bind_cases. unfold Analyzer.on_world at 1.
    destruct (os_path_isdir_returns sys (join sys (join sys start_dir item) ".git") w1)
      as (w2 & is_repo & Hrepo).
    unfold _is_git_repo at 1. rewrite Hrepo.
    destruct is_repo.
    + rewrite bind_cases. cbn. apply IH.
    + rewrite !bind_cases. unfold Analyzer.on_world at 1.
      destruct (Hsearch (join sys start_dir item) w2) as (w3 & found & ->).
      cbn. apply IH.
Qed.

(** X25. [_find_git_repos] returns a list in every state of the world,
    changing or not, for every depth: a directory that cannot be listed
    ends the search of that directory and of nothing else. *)
Theorem find_git_repos_always_returns start_dir max_depth w :
  exists w' repos, _find_git_repos sys start_dir max_depth w = (w', Ret repos).
Proof.
  revert start_dir w.
  induction max_depth as [|depth IH]; intros start_dir w.
  - eexists _, _. reflexivity.
  - cbn [_find_git_repos]. unfold try_except. rewrite bind_cases.
    unfold Analyzer.on_world at 1.
    destruct (os_path_isdir_returns sys (join sys start_dir ".git") w)
      as (w1 & is_repo & Hrepo).
    unfold _is_git_repo at 1. rewrite Hrepo.
    destruct is_repo.
    + cbn. eexists _, _. reflexivity.
    + rewrite bind_cases. unfold Analyzer.on_world at 1.
      unfold os_listdir, of_syscall.
      destruct (sys_listdir sys start_dir w1) as [w2 [e|entries]].
      * cbn. eexists _, _. reflexivity.
      * destruct (search_entries_returns
                    (fun item_path => _find_git_repos sys item_path depth)
                    start_dir (fun p w => IH p w) entries (w2, []))
          as ([w3 repos] & ->).
        eexists _, _. reflexivity.
Qed.

End GitReposAnywhere.

Section GitReposQuiet.

Import Os Disk GitRepos.

Variables (root : node) (now : Z).

Local Abbreviation d := (quiet root now).

Lemma os_path_isdir_quiet p :
  os_path_isdir unix p d =
  (d, Ret (match stat root p with
           | inr st => match st_kind st with Directory => true | _ => false end
           | inl _ => false
           end)).
Proof.
  unfold os_path_isdir, try_except, bind, os_stat, of_syscall.
  cbn [sys_stat unix quiet current next later].
  destruct (stat root p); reflexivity.
Qed.

Lemma _is_git_repo_quiet p :
  _is_git_repo unix p d = (d, Ret (is_repo_on root p)).
Proof. apply os_path_isdir_quiet. Qed.

Lemma os_listdir_quiet p :
  os_listdir unix p d =
  (d, match listdir root p with
      | inl e => Raise (OSError e)
      | inr entries => Ret entries
      end).
Proof.
  unfold os_listdir, of_syscall.
  cbn [sys_listdir unix quiet current next later].
  destruct (listdir root p); reflexivity.
Qed.

Lemma listed_here start_dir depth :
  is_repo_on root start_dir = true ->
  listed root start_dir (S depth) start_dir.
Proof.
  intros Hrepo. exists []. rewrite app_nil_r.
  repeat split; [cbn; lia | constructor | exact Hrepo |].
  cbn. intros k Hk. lia.
Qed.

Lemma listed_below start_dir depth item p :
  Str.startswith item "." = false ->
  is_repo_on root start_dir = false ->
  listed root (start_dir ++ [item]) depth p ->
  listed root start_dir (S depth) p.
Proof.
  intros Hshown Hstart (names & -> & Hlength & Hnames & Hrepo & Hway).
  exists (item :: names). rewrite <- app_assoc in *. cbn [app] in *.
  split; [reflexivity|]. split; [cbn; lia|].
  split; [constructor; assumption|]. split; [exact Hrepo|].
  intros [|k] Hk.
  - cbn. rewrite app_nil_r. exact Hstart.
  - cbn [take]. cbn [length] in Hk.
    specialize (Hway k ltac:(lia)). rewrite <- app_assoc in Hway. exact Hway.
Qed.

Lemma listed_child start_dir depth item :
  Str.startswith item "." = false ->
  is_repo_on root start_dir = false ->
  is_repo_on root (start_dir ++ [item]) = true ->
  listed root start_dir (S depth) (start_dir ++ [item]).
Proof.
  intros Hshown Hstart Hrepo.
  exists [item]. split; [reflexivity|]. split; [cbn; lia|].
  split; [repeat constructor; exact Hshown|]. split; [exact Hrepo|].
  intros k Hk. cbn in Hk. replace k with 0%nat by lia.
  cbn. rewrite app_nil_r. exact Hstart.
Qed.

Lemma listed_not_nested start_dir depth p q :
  listed root start_dir depth p ->
  listed root start_dir depth q ->
  p `prefix_of` q ->
  p = q.
Proof.
  intros (np & -> & _ & _ & Hrepo & _) (nq & -> & _ & _ & _ & Hway) [rest Hrest].
  rewrite <- app_assoc in Hrest. apply app_inv_head in Hrest. subst nq.
  destruct rest as [|name rest]; [rewrite app_nil_r; reflexivity|].
  specialize (Hway (length np)). rewrite take_app_length in Hway.
  rewrite Hway in Hrepo; [discriminate|].
  rewrite length_app. cbn. lia.
Qed.

Lemma search_entries_quiet (search : Disk.path -> M disk (list Disk.path))
    start_dir depth :
  is_repo_on root start_dir = false ->
  (forall p, exists found,
     search p d = (d, Ret found) /\ Forall (listed root p depth) found) ->
  forall entries repos,
    Forall (listed root start_dir (S depth)) repos ->
    exists repos',
      search_entries unix search start_dir entries (d, repos)
      = ((d, repos'), Ret tt)
      /\ Forall (listed root start_dir (S depth)) repos'.
Proof.
  intros Hstart Hsearch.
  induction entries as [|item rest IH]; intros repos Hrepos.
  - exists repos. split; [reflexivity | exact Hrepos].
  - cbn [search_entries].
    destruct (Str.startswith item ".") eqn:Hshown; [apply IH, Hrepos|].
    rewrite bind_cases. unfold Analyzer.on_world at 1.
    rewrite os_path_isdir_quiet.
    match goal with
    | |- context [negb ?b] => destruct b
    end; cbn [negb]; [|apply IH, Hrepos].
    rewrite bind_cases. unfold Analyzer.on_world at 1.
    rewrite _is_git_repo_quiet. cbn [join unix].
    destruct (is_repo_on root (start_dir ++ [item])) eqn:Hrepo.
    + rewrite bind_cases. cbn [extend modify].
      apply IH. apply Forall_app. split; [exact Hrepos|].
      repeat constructor. apply listed_child; assumption.
    + rewrite !bind_cases. unfold Analyzer.on_world at 1.
      destruct (Hsearch (start_dir ++ [item])) as (found & -> & Hfound).
      cbn [extend modify].
      apply IH. apply Forall_app. split; [exact Hrepos|].
      eapply Forall_impl; [exact Hfound|].
      intros p Hp. eapply listed_below; eassumption.
Qed.

Lemma find_git_repos_listed max_depth :
  forall start_dir,
    exists repos,
      _find_git_repos unix start_dir max_depth d = (d, Ret repos)
      /\ Forall (listed root start_dir max_depth) repos.
Proof.
  induction max_depth as [|depth IH]; intros start_dir.
  - exists []. split; [reflexivity | constructor].
  - cbn [_find_git_repos]. unfold try_except. rewrite bind_cases.
    unfold Analyzer.on_world at 1. rewrite _is_git_repo_quiet.
    destruct (is_repo_on root start_dir) eqn:Hstart.
    + cbn. eexists. split; [reflexivity|].
      repeat constructor. apply listed_here, Hstart.
    + rewrite bind_cases. unfold Analyzer.on_world at 1.
      rewrite os_listdir_quiet.
      destruct (listdir root start_dir) as [e|entries].
      * cbn. exists []. split; [reflexivity | constructor].
      * destruct (search_entries_quiet
                    (fun item_path => _find_git_repos unix item_path depth)
                    start_dir depth Hstart IH entries [] ltac:(constructor))
          as (repos & -> & Hrepos).
        exists repos. split; [reflexivity | exact Hrepos].
Qed.

(** X24. On a disk nobody else is writing to, [_find_git_repos] returns
    without changing anything, and every path it lists is a directory with
    a [.git] directory in it, at most [max_depth] names below [start_dir],
    reached through names that do not start with a dot and through no
    directory that is itself a repository. So a repository inside a
    repository is never listed: no listed path is the beginning of
    another. *)
Theorem find_git_repos_on_a_quiet_disk start_dir max_depth :
  exists repos,
    _find_git_repos unix start_dir max_depth d = (d, Ret repos)
    /\ Forall (listed root start_dir max_depth) repos
    /\ (forall p q, p ∈ repos -> q ∈ repos -> p `prefix_of` q -> p = q).
Proof.
  destruct (find_git_repos_listed max_depth start_dir) as (repos & Hrun & Hlisted).
  exists repos. split; [exact Hrun|]. split; [exact Hlisted|].
  intros p q Hp Hq. rewrite Forall_forall in Hlisted.
  exact (listed_not_nested _ _ _ _ (Hlisted _ Hp) (Hlisted _ Hq)).
Qed.

End GitReposQuiet.

Section GitReposScenario.

Import Os Disk GitRepos.

(** The search of [code] with the default depth: the vendored repository
    and the one in the hidden directory are not listed. *)
Lemma find_git_repos_in_code :
  _find_git_repos unix ["code"] 5 (quiet code november_2023)
  = (quiet code november_2023,
     Ret [["code"; "app"]; ["code"; "notes"; "2023"; "thesis"]]).
Proof. vm_compute. reflexivity. Qed.

End GitReposScenario.

(* --------------------------------------------------------------------- *)
(** ** [analyze] for one application *)
(* --------------------------------------------------------------------- *)

Section AnalyzeFacts.

Import Os Analyzer Analyze.

Context {World Path : Type} `{EqDecision Path}.
Variable sys : system World Path.
Variable format_size : Z -> string.
Context {float : Type}.
Variable percentage : Z -> Z -> float.
Variable lower : string -> string.
Variable _get_bundle_id : Path -> M World (option string).
Variable run_command : string -> Z -> M World (option string).
Variable as_path : string -> Path.
Implicit Types (self : AppDiskAnalyzer Path) (dirs : Applications Path).

(** The total of a report is the sum of what it records, and is not
    negative. *)
Lemma _analyze_single_app_total self app_path w w' result :
  _analyze_single_app sys format_size percentage lower _get_bundle_id self app_path w
  = (w', Ret (Some result)) ->
  Analyzer.total_size result = recorded_total (sizes result)
  /\ 0 <= Analyzer.total_size result.
Proof.
  intros Hrun.
  apply _analyze_single_app_steps in Hrun
    as (w1 & w2 & found & w3 & app_size & final & outcome & Hsteps).
  cbv zeta in Hsteps. destruct Hsteps as (_ & _ & Hsize & Hfinders & ->).
  assert (Happ : 0 <= app_size).
  { destruct (_get_directory_size_returns sys app_path w2)
      as (w3' & size' & Hreturns & Hnonneg).
    unfold try_except in Hsize. rewrite Hreturns in Hsize.
    injection Hsize as _ <-. exact Hnonneg. }
  match type of Hfinders with
  | try_except _ _ _ (?w0, ?initial) = _ =>
      pose proof (finders_stable sys format_size
        (fun r : report Path float =>
           forall key size, sizes r !! key = Some size -> 0 <= size)
        self (bundle_id initial)) as Hstable;
      pose proof (finders_kept sys format_size percentage lower self
                    (bundle_id initial) (w0, initial)) as Hkept
  end.
  cbn [bundle_id] in Hstable, Hkept.
  match type of Hfinders with
  | try_except _ _ _ ?start = _ => specialize (Hstable ltac:(
      intros key sz where_ Hsz [w0 r0] Hs key' size'; cbn;
      intros Hlookup;
      destruct (decide (key = key')) as [<-|Hne];
      [rewrite lookup_insert_eq in Hlookup; injection Hlookup as <-; exact Hsz
      |rewrite lookup_insert_ne in Hlookup by exact Hne; exact (Hs _ _ Hlookup)])
      start)
  end.
  rewrite Hfinders in Hstable, Hkept. cbn [fst snd sizes] in Hstable.
  assert (Hnonneg : forall key size, sizes final !! key = Some size -> 0 <= size).
  { apply Hstable. intros key size Hlookup.
    apply lookup_singleton_Some in Hlookup as [_ <-]. exact Happ. }
  destruct Hkept as (Htotal & _).
  { unfold kept, consistent. cbn [snd sizes Analyzer.total_size locations].
    split; [|split; [|split]].
    - rewrite recorded_total_singleton. reflexivity.
    - rewrite lookup_singleton_eq. eauto.
    - intros key size Hlookup.
      apply lookup_singleton_Some in Hlookup as [<- _].
      split; [apply list_elem_of_here|].
      intros Hin. apply list_elem_of_In in Hin. cbn in Hin.
      intuition discriminate.
    - rewrite !dom_singleton_L. reflexivity. }
  cbn [fst snd] in Htotal. unfold finish. cbn [sizes Analyzer.total_size].
  split; [exact Htotal|]. rewrite Htotal.
  apply recorded_total_nonneg. exact Hnonneg.
Qed.

Lemma check_prerequisites_returns dirs w w1 platform_check :
  run_command "uname" 5 w = (w1, Ret platform_check) ->
  exists w' answer,
    check_prerequisites sys run_command dirs w = (w', Ret answer).
Proof.
  intros Huname. unfold check_prerequisites. rewrite bind_cases, Huname.
  destruct (_ && _); [eexists _, _; reflexivity|].
  rewrite bind_cases.
  destruct (os_path_exists_returns sys (applications_dir dirs) w1)
    as (w2 & there & ->).
  destruct there; eexists _, _; reflexivity.
Qed.

(** X26. [analyze(target)] for one application raises only when
    [run_command("uname")] does, in [check_prerequisites], which is called
    before the [try]: the exception then goes through to the caller.
    Whenever that command returns, [analyze] returns, whatever the target,
    the state of the disk, and whatever [_get_bundle_id] or any step of the
    analysis does. It answers either with a failure, which has an error
    text, no application and no total, or with a success, which has
    exactly one report and the total of that report; and that total is the
    sum of the sizes the report records, and is not negative. *)
Theorem analyze_raises_only_with_uname self dirs target w :
  match run_command "uname" 5 w with
  | (w1, Raise e) =>
      analyze sys format_size percentage lower _get_bundle_id run_command as_path
              self dirs target w
      = (w1, Raise e)
  | (_, Ret _) =>
      exists w' result,
        analyze sys format_size percentage lower _get_bundle_id run_command as_path
                self dirs target w
        = (w', Ret result)
        /\ match apps result with
           | [] =>
               success result = false
               /\ is_Some (error result)
               /\ Analyze.total_size result = None
           | [app_info] =>
               success result = true
               /\ error result = None
               /\ Analyze.total_size result = Some (Analyzer.total_size app_info)
               /\ Analyzer.total_size app_info = recorded_total (sizes app_info)
               /\ 0 <= Analyzer.total_size app_info
           | _ => False
           end
  end.
Proof.
  destruct (run_command "uname" 5 w) as [w0 [platform_check|e]] eqn:Huname.
  2:{ unfold analyze, check_prerequisites. rewrite !bind_cases, Huname.
      reflexivity. }
  unfold analyze. rewrite bind_cases.
  destruct (check_prerequisites_returns dirs w _ _ Huname)
    as (w1 & prerequisites & ->).
  destruct prerequisites; cbn [negb].
  2:{ eexists _, _. split; [reflexivity|]. cbn. eauto. }
  rewrite bind_cases. unfold attempt at 1. rewrite bind_cases.
  destruct (os_path_exists_returns sys (as_path target) w1) as (w2 & there & ->).
  rewrite bind_cases.
  match goal with
  | |- context [(if ?c then ret (Some (as_path target)) else ?find) w2] =>
      destruct ((if c then ret (Some (as_path target)) else find) w2)
        as [w3 [[app_path|]|e]]
  end.
  - rewrite bind_cases. unfold attempt at 1.
    destruct (_analyze_single_app sys format_size percentage lower _get_bundle_id
                self app_path w3) as [w4 [[app_info|]|e]] eqn:Hrun.
    + eexists _, _. split; [reflexivity|]. cbn.
      destruct (_analyze_single_app_total _ _ _ _ _ Hrun) as [Htotal Hnonneg].
      auto.
    + eexists _, _. split; [reflexivity|]. cbn. eauto.
    + eexists _, _. split; [reflexivity|]. cbn. eauto.
  - eexists _, _. split; [reflexivity|]. cbn. eauto.
  - eexists _, _. split; [reflexivity|]. cbn. eauto.
Qed.






End AnalyzeFacts.

Section AnalyzeScenarios.

Import Os Disk Analyzer Analyze.


End AnalyzeScenarios.
